(** * pdf-batch-processor: region discovery and page composition

    A shallow embedding of [src/pdf_processor.py].  The PDF object model
    (PyMuPDF) and the document writer (python-docx) are external
    collaborators: a page arrives here as its reconstructed lines, word
    boxes and search hits, and leaves as the list of calls the code makes
    on the collaborators (highlight annotations, inserted text, docx
    paragraphs, placed pages).

    Conventions of the embedding:
    - coordinates are rationals ([Q]).  The page composer
      ([place_page_full] and the two sheet layouts) computes as Python
      does, every operation rounded to binary64 ([rnd]: nearest, ties to
      even, 53-bit significand; the exponent is not bounded, so the
      model is that of the code as long as no intermediate result
      overflows or underflows, which page sizes do not come near).  In
      [process_pdf_file] the rectangles are only compared, passed on or
      shifted by constants, and the rounding is not modelled there;
    - a Python [str] is a [string] of ASCII characters; [lower], [strip],
      [int] and the case-insensitive search are modelled on ASCII text;
    - a Python exception is a value of [exn], carried by the [result]
      monad, and [try ... except] is [try_except]. *)

From Stdlib Require Import ZArith QArith Qround Qabs Qpower.
From Stdlib Require Import String Ascii List Bool Lia DecimalString.
From stdpp Require Import base gmap strings list.

Open Scope string_scope.
Open Scope list_scope.

(** ** Exceptions *)

Inductive exn : Type :=
  | ValueError
  | IndexError
  | ZeroDivisionError.

Definition result (A : Type) : Type := (exn + A)%type.

Definition ok {A} (a : A) : result A := inr a.
Definition raise {A} (e : exn) : result A := inl e.

Definition bind {A B} (m : result A) (k : A -> result B) : result B :=
  match m with
  | inl e => inl e
  | inr a => k a
  end.

Notation "x <- m ;; k" := (bind m (fun x => k))
  (at level 100, m at next level, right associativity).

(** [try: m except e: h] runs [m]; the handler [h] replaces the one
    exception [e], any other exception goes on. *)
Definition try_except {A} (m : result A) (catches : exn -> bool) (h : result A)
  : result A :=
  match m with
  | inl e => if catches e then h else inl e
  | inr a => inr a
  end.

Definition catch_ValueError (e : exn) : bool :=
  match e with ValueError => true | _ => false end.

(** A bare [except:] catches everything. *)
Definition catch_all (e : exn) : bool := true.

(** ** Text *)

Definition is_upper (c : ascii) : bool :=
  (65 <=? nat_of_ascii c)%nat && (nat_of_ascii c <=? 90)%nat.

Definition lower_ascii (c : ascii) : ascii :=
  if is_upper c then ascii_of_nat (nat_of_ascii c + 32) else c.

(** [s.lower()] *)
Fixpoint lower (s : string) : string :=
  match s with
  | EmptyString => EmptyString
  | String c t => String (lower_ascii c) (lower t)
  end.

(** [s.startswith(p)] *)
Definition startswith (p s : string) : bool := String.prefix p s.

(** [needle in haystack] *)
Fixpoint contains (needle haystack : string) : bool :=
  String.prefix needle haystack
  || match haystack with
     | EmptyString => false
     | String _ t => contains needle t
     end.

(** [re.search(pat, s, re.IGNORECASE)] for a lower-case literal [pat]. *)
Definition re_search_ignorecase (pat s : string) : bool :=
  contains pat (lower s).

(** The ASCII characters Python's [str.isspace] accepts. *)
Definition is_space (c : ascii) : bool :=
  let n := nat_of_ascii c in
  ((9 <=? n) && (n <=? 13) || (28 <=? n) && (n <=? 32))%nat.

Fixpoint lstrip (s : string) : string :=
  match s with
  | EmptyString => EmptyString
  | String c t => if is_space c then lstrip t else s
  end.

Fixpoint rstrip (s : string) : string :=
  match s with
  | EmptyString => EmptyString
  | String c t =>
      match rstrip t with
      | EmptyString => if is_space c then EmptyString else String c EmptyString
      | t' => String c t'
      end
  end.

(** [s.strip()] *)
Definition strip (s : string) : string := rstrip (lstrip s).

(** Truthiness of a [str]: non-empty. *)
Definition truthy (s : string) : bool :=
  match s with EmptyString => false | _ => true end.

(** [sep.join(parts)] *)
Definition join (sep : string) (parts : list string) : string :=
  String.concat sep parts.

Definition is_digit (c : ascii) : bool :=
  (48 <=? nat_of_ascii c)%nat && (nat_of_ascii c <=? 57)%nat.

Definition digit_value (c : ascii) : Z := Z.of_nat (nat_of_ascii c - 48).

(** The digit part of a decimal literal: digits, single underscores
    allowed between two digits.  [after_digit] tells whether the
    character just read was a digit. *)
Fixpoint parse_digits (acc : Z) (after_digit : bool) (s : string) : option Z :=
  match s with
  | EmptyString => if after_digit then Some acc else None
  | String c t =>
      if is_digit c then parse_digits (10 * acc + digit_value c)%Z true t
      else if Ascii.eqb c "_" && after_digit then parse_digits acc false t
      else None
  end.

(** The ASCII characters [int] skips around a literal: tab to carriage
    return, and the space; the separators 28 to 31, which [str.strip]
    drops, are not among them. *)
Definition is_int_space (c : ascii) : bool :=
  let n := nat_of_ascii c in
  ((9 <=? n) && (n <=? 13) || (n =? 32))%nat.

Fixpoint int_lstrip (s : string) : string :=
  match s with
  | EmptyString => EmptyString
  | String c t => if is_int_space c then int_lstrip t else s
  end.

Fixpoint int_rstrip (s : string) : string :=
  match s with
  | EmptyString => EmptyString
  | String c t =>
      match int_rstrip t with
      | EmptyString =>
          if is_int_space c then EmptyString else String c EmptyString
      | t' => String c t'
      end
  end.

(** The number of digits of a literal, and the most [int] converts
    ([sys.int_info.default_max_str_digits]). *)
Fixpoint count_digits (s : string) : nat :=
  match s with
  | EmptyString => 0
  | String c t => ((if is_digit c then 1 else 0) + count_digits t)%nat
  end.

Definition max_str_digits : nat := 4300.

(** [int(s)]: surrounding whitespace is dropped, an optional sign, then
    the digits; anything else, and a literal of more than
    [max_str_digits] digits, raises [ValueError]. *)
Definition int (s : string) : result Z :=
  let body := int_rstrip (int_lstrip s) in
  let parsed :=
    match body with
    | String "-" t => option_map Z.opp (parse_digits 0 false t)
    | String "+" t => parse_digits 0 false t
    | _ => parse_digits 0 false body
    end in
  match parsed with
  | Some v =>
      if (max_str_digits <? count_digits body)%nat then raise ValueError
      else ok v
  | None => raise ValueError
  end.

(** ** Geometry *)

(** [fitz.Rect(x0, y0, x1, y1)]: page coordinates in points, y grows
    downward, so [y0] is the top edge and [y1] the bottom edge. *)
Record Rect : Type := mkRect { x0 : Q; y0 : Q; x1 : Q; y1 : Q }.

Definition width (r : Rect) : Q := (x1 r - x0 r)%Q.
Definition height (r : Rect) : Q := (y1 r - y0 r)%Q.

(** Field-wise rational equality of rectangles. *)
Definition Rect_eq (r s : Rect) : Prop :=
  (x0 r == x0 s /\ y0 r == y0 s /\ x1 r == x1 s /\ y1 r == y1 s)%Q.

(** *** Gift-snippet expansion box (section C of [process_pdf_file]) *)

Definition expand_left : Q := 36.
Definition expand_right : Q := 36.
Definition expand_up : Q := 72.
Definition expand_down : Q := 216.

Definition expanded_rect (inst : Rect) : Rect :=
  mkRect (x0 inst - expand_left)%Q
         (y0 inst - expand_down)%Q
         (x1 inst + expand_right)%Q
         (y1 inst + expand_up)%Q.

(** ** Page data handed over by the text model *)

(** A word box [(x0, y0, x1, y1, text)] of [page.get_text("words")]. *)
Record Word : Type := mkWord {
  wx0 : Q; wy0 : Q; wx1 : Q; wy1 : Q;
  wtext : string
}.

Definition word_rect (w : Word) : Rect :=
  mkRect (wx0 w) (wy0 w) (wx1 w) (wy1 w).

(** An entry [(line_text, line_rect, word_list)] of [get_lines(page)]. *)
Record Line : Type := mkLine {
  line_text : string;
  line_rect : Rect;
  word_list : list Word
}.

Inductive Color : Type := purple_color | yellow_color.

(** [page.add_highlight_annot(rect)] followed by [set_colors(stroke=c)]. *)
Record Annot : Type := mkAnnot { annot_rect : Rect; annot_stroke : Color }.

(** A docx paragraph: the bold run [f"[Page {page_index}] "] and the
    text run. *)
Record Paragraph : Type := mkParagraph { para_page : nat; para_text : string }.

Record Options : Type := mkOptions {
  crop_pages : bool;
  highlight_gmi : bool;
  highlight_gift_snippet : bool;
  extract_text : bool;
  highlight_personalization : bool;
  highlight_quantity : bool;
  add_stamps : bool;
  apply_watermark : bool;
  generate_2up_thumbs : bool
}.

Definition newline : string := String (ascii_of_nat 10) EmptyString.

(** ** (C) Gift-message snippet: capture and extraction *)

Definition gift_trigger : string := "gift message".

(** The loop of lines 329-340 over the snippet lines.  [capturing] and
    [captured_lines] are the loop's two variables; [break] returns. *)
Fixpoint capture_loop (capturing : bool) (captured_lines : list string)
    (lines : list string) : list string :=
  match lines with
  | [] => captured_lines
  | ln :: rest =>
      if re_search_ignorecase gift_trigger ln then
        if negb capturing then
          (* start from this line *)
          capture_loop true (captured_lines ++ [ln]) rest
        else
          (* second occurrence => stop *)
          captured_lines
      else if capturing then capture_loop true (captured_lines ++ [ln]) rest
      else capture_loop false captured_lines rest
  end.

Definition capture_lines (lines : list string) : list string :=
  capture_loop false [] lines.

(** [final_text = "\n".join(captured_lines).strip()] *)
Definition final_text (lines : list string) : string :=
  strip (join newline (capture_lines lines)).

(** The extraction state of section (C): the dict of per-page seen sets
    and the gift document ([None] when [extract_text] is off). *)
Record GiftState : Type := mkGiftState {
  gift_messages_per_page : gmap nat (gset string);
  gift_doc : option (list Paragraph)
}.

(** Lines 345-351, for one trigger instance whose capture is [text]. *)
Definition record_gift_message (do_text_extraction : bool) (page_index : nat)
    (text : string) (st : GiftState) : GiftState :=
  match gift_doc st with
  | Some doc =>
      if truthy text && do_text_extraction then
        if decide (text ∈ gift_messages_per_page st !!! page_index) then st
        else
          mkGiftState
            (<[page_index := {[text]} ∪ (gift_messages_per_page st !!! page_index)]>
               (gift_messages_per_page st))
            (Some (doc ++ [mkParagraph page_index text]))
      else st
  | None => st
  end.

(** The [for inst in hits] loop, each instance given by the lines its
    expansion box gathered. *)
Definition gift_instances (do_text_extraction : bool) (page_index : nat)
    (hits : list (list string)) (st : GiftState) : GiftState :=
  fold_left
    (fun st lines =>
       record_gift_message do_text_extraction page_index (final_text lines) st)
    hits st.

(** Section (C) of one page, text side: the seen set of the page is reset
    (line 276), then the instances are walked when either option asks. *)
Definition gift_section (opts : Options) (page_index : nat)
    (hits : list (list string)) (st : GiftState) : GiftState :=
  let st0 :=
    mkGiftState (<[page_index := ∅]> (gift_messages_per_page st)) (gift_doc st) in
  if highlight_gift_snippet opts || extract_text opts then
    gift_instances (extract_text opts) page_index hits st0
  else st0.

(** ** (D) Personalization blocks *)

Definition personalization_marker : string := "personalization:".

Definition item_descriptors : list string :=
  ["word or message:"; "word or mssg:"; "morse code:"].

Definition stop_keywords : list string :=
  [ "size:";
    "word or mssg:";
    "word or message:";
    "morse code:";
    "quantity:";
    "sku:";
    "private notes";
    "scheduled to ship by";
    "note from buyer";
    "do the green thing";
    "reuse this paper to make origami, confetti";
    "or your next to-do list." ].

(** [any(kw in s for kw in kws)] *)
Definition any_in (kws : list string) (s : string) : bool :=
  existsb (fun kw => contains kw s) kws.

(** The word loop of lines 414-420 (and 440-446). *)
Definition highlight_words (words : list Word) (annots : list Annot)
  : list Annot :=
  fold_left
    (fun acc w =>
       if contains "personalization:" (lower (wtext w)) then acc
       else acc ++ [mkAnnot (word_rect w) yellow_color])
    words annots.

(** What a personalization line writes: a paragraph when extracting,
    word highlights when highlighting. *)
Record Sink : Type := mkSink {
  personalization_doc : list Paragraph;
  page_annots : list Annot
}.

Definition emit_line (opts : Options) (page_index : nat) (l : Line) (o : Sink)
  : Sink :=
  mkSink
    (if extract_text opts
     then personalization_doc o ++ [mkParagraph page_index (line_text l)]
     else personalization_doc o)
    (if highlight_personalization opts
     then highlight_words (word_list l) (page_annots o)
     else page_annots o).

(** The state at the head of the [while idx < len(lines_data)] loop.
    [blocks] is a ghost log, not in the source: the pair
    [(idx, next_idx)] of every block the scan opened, oldest first. *)
Record ScanState : Type := mkScan {
  idx : nat;
  current_item_has_custom : bool;
  sink : Sink;
  blocks : list (nat * nat)
}.

Section Personalization.
Variable opts : Options.
Variable page_index : nat.
Variable lines_data : list Line.

(** The inner [while next_idx < len(lines_data)] loop, lines 424-448. *)
Fixpoint block_loop (fuel : nat) (next_idx : nat) (o : Sink) : nat * Sink :=
  match fuel with
  | O => (next_idx, o)
  | S fuel' =>
      match lines_data !! next_idx with
      | None => (next_idx, o)
      | Some nl =>
          let lower_nl_text := lower (line_text nl) in
          if any_in stop_keywords lower_nl_text then (next_idx, o)
          else if contains personalization_marker lower_nl_text then (next_idx, o)
          else block_loop fuel' (next_idx + 1) (emit_line opts page_index nl o)
      end
  end.

(** Lines 400-403: the flag after the descriptor check of line [l]. *)
Definition update_custom (flag : bool) (l : Line) : bool :=
  let lower_line := lower (line_text l) in
  if any_in item_descriptors lower_line then contains "custom" lower_line
  else flag.

(** The condition of line 405. *)
Definition opens_block (flag : bool) (l : Line) : bool :=
  contains personalization_marker (lower (line_text l)) && update_custom flag l.

(** One iteration of the outer loop, lines 397-452. *)
Definition scan_body (s : ScanState) (l : Line) : ScanState :=
  let flag := update_custom (current_item_has_custom s) l in
  if opens_block (current_item_has_custom s) l then
    let '(next_idx, o) :=
      block_loop (length lines_data) (idx s + 1)
                 (emit_line opts page_index l (sink s)) in
    mkScan next_idx flag o (blocks s ++ [(idx s, next_idx)])
  else
    mkScan (idx s + 1) flag (sink s) (blocks s).

(** The outer [while idx < len(lines_data)] loop.  Each iteration moves
    the pointer forward, so [length lines_data] iterations are enough. *)
Fixpoint scan_loop (fuel : nat) (s : ScanState) : ScanState :=
  match fuel with
  | O => s
  | S fuel' =>
      match lines_data !! idx s with
      | None => s
      | Some l => scan_loop fuel' (scan_body s l)
      end
  end.

Definition scan_init (o : Sink) : ScanState := mkScan 0 false o [].

(** Section (D) of one page. *)
Definition personalization_scan (o : Sink) : ScanState :=
  scan_loop (length lines_data) (scan_init o).

(** The loop heads the scan passes through. *)
Inductive visited (o : Sink) : ScanState -> Prop :=
  | visited_init : visited o (scan_init o)
  | visited_step s l :
      visited o s -> lines_data !! idx s = Some l ->
      visited o (scan_body s l).
End Personalization.

(** ** Control helpers *)

(** [seq[i]], raising [IndexError] out of range. *)
Definition index {A} (l : list A) (i : nat) : result A :=
  match l !! i with
  | Some a => ok a
  | None => raise IndexError
  end.

(** A [for] loop whose body may raise. *)
Fixpoint for_each {A S} (l : list A) (body : A -> S -> result S) (s : S)
  : result S :=
  match l with
  | [] => ok s
  | a :: rest => s' <- body a s ;; for_each rest body s'
  end.

(** [range(start, stop, step)] for a positive [step]. *)
Fixpoint range_from (fuel start stop step : nat) : list nat :=
  match fuel with
  | O => []
  | S fuel' =>
      if (start <? stop)%nat
      then start :: range_from fuel' (start + step) stop step
      else []
  end.

Definition range (start stop step : nat) : list nat :=
  range_from stop start stop step.

(** *** binary64 arithmetic *)

(** floor(log2 q) of a positive rational: the logarithms of numerator and
    denominator give it up to one, the comparison decides. *)
Definition ilog2 (q : Q) : Z :=
  let e := (Z.log2 (Qnum q) - Z.log2 (Zpos (Qden q)))%Z in
  if Qle_bool (2 ^ e) q then e else (e - 1)%Z.

(** The nearest integer, a tie going to the even one. *)
Definition round_half_even (q : Q) : Z :=
  let f := Qfloor q in
  match (q - inject_Z f ?= 1 # 2)%Q with
  | Lt => f
  | Gt => (f + 1)%Z
  | Eq => if Z.even f then f else (f + 1)%Z
  end.

(** The binary64 value of a real: the nearest multiple of 2^(e - 52) for
    2^e <= |q| < 2^(e + 1), ties to even. *)
Definition rnd (q : Q) : Q :=
  if Qeq_bool q 0 then 0%Q
  else
    let e := (ilog2 (Qabs q) - 52)%Z in
    Qred (inject_Z (round_half_even (q / 2 ^ e)) * 2 ^ e)%Q.

(** [a + b], [a - b] and [a * b] on floats. *)
Definition fadd (a b : Q) : Q := rnd (a + b).
Definition fsub (a b : Q) : Q := rnd (a - b).
Definition fmul (a b : Q) : Q := rnd (a * b).

(** [a / b] on floats. *)
Definition div (a b : Q) : result Q :=
  if Qeq_bool b 0 then raise ZeroDivisionError else ok (rnd (a / b)).

(** [min(a, b)] *)
Definition min_ (a b : Q) : Q := if Qle_bool a b then a else b.

(** [str(n)] of an f-string field. *)
Definition str_nat (n : nat) : string :=
  NilEmpty.string_of_uint (Nat.to_uint n).

(** ** (E) Quantity highlighting *)

(** The [enumerate] loop of lines 461-464, counting from [w_i]. *)
Fixpoint find_quantity_index (w_i : nat) (words : list Word) : option nat :=
  match words with
  | [] => None
  | w :: rest =>
      if startswith "quantity:" (lower (wtext w)) then Some w_i
      else find_quantity_index (w_i + 1) rest
  end.

(** Lines 458-475 for one line of the page. *)
Definition quantity_line (l : Line) (annots : list Annot)
  : result (list Annot) :=
  let lower_line := lower (line_text l) in
  if contains "quantity:" lower_line then
    match find_quantity_index 0 (word_list l) with
    | Some quantity_index =>
        if (quantity_index + 1 <? length (word_list l))%nat then
          next <- index (word_list l) (quantity_index + 1) ;;
          try_except
            (val <- int (wtext next) ;;
             if (2 <=? val)%Z
             then ok (annots ++ [mkAnnot (word_rect next) yellow_color])
             else ok annots)
            catch_all
            (ok annots)
        else ok annots
    | None => ok annots
    end
  else ok annots.

(** Section (E) of one page. *)
Definition quantity_section (opts : Options) (lines_data : list Line)
    (annots : list Annot) : result (list Annot) :=
  if highlight_quantity opts
  then for_each lines_data quantity_line annots
  else ok annots.

(** ** (F) Ship-to extraction *)

(** Lines 482-489, [nxt] being [lines_data[i + 1]]. *)
Definition extracted_name (nxt : Line) : string :=
  if (2 <=? length (word_list nxt))%nat
  then join " " (map wtext (take 2 (word_list nxt)))
  else line_text nxt.

(** The [for i in range(len(lines_data))] loop of lines 479-491, on the
    lines from index [i] on. *)
Fixpoint ship_to_loop (page_index : nat) (lines : list Line)
    (ship_to_info : list (nat * string)) : list (nat * string) :=
  match lines with
  | [] => ship_to_info
  | l :: rest =>
      if contains "ship to" (lower (line_text l)) then
        match rest with
        | nxt :: _ => ship_to_info ++ [(page_index, extracted_name nxt)]
        | [] => ship_to_info
        end
      else ship_to_loop page_index rest ship_to_info
  end.

(** ** (B), (H), (I) and the page loop of [process_pdf_file] *)

(** [page.insert_text((x, y), text, fontsize=size)] *)
Record TextInsert : Type := mkText {
  text_x : Q; text_y : Q;
  text_body : string;
  text_size : nat
}.

(** What the text model reports for one content page: its rectangle (as
    it is when section (H) runs), the search hits of the exact phrase,
    the snippet lines of each "gift message" hit, and [get_lines]. *)
Record PageInput : Type := mkPage {
  page_rect : Rect;
  gmi_hits : list Rect;
  gift_hits : list (list string);
  lines_data : list Line
}.

(** The state of one [process_pdf_file] call.  Annotations and inserted
    texts carry the number of the page they are put on.  [pers_doc] holds
    the paragraphs of the personalization document, which exists only
    when [extract_text] is set; [emit_line] writes to it only then. *)
Record DocState : Type := mkDoc {
  gift : GiftState;
  pers_doc : list Paragraph;
  ship_to_info : list (nat * string);
  annots : list (nat * Annot);
  texts : list (nat * TextInsert)
}.

Definition on_page {A} (page_index : nat) (l : list A) : list (nat * A) :=
  map (fun a => (page_index, a)) l.

(** Lines 537-551. *)
Definition page_texts (opts : Options) (watermark_text : string)
    (total_pages page_index : nat) (pg : PageInput) : list TextInsert :=
  [mkText 25%Q 25%Q
     ("Page " +:+ str_nat page_index +:+ " of " +:+ str_nat (total_pages - 1))
     10]
  ++ (if apply_watermark opts && truthy (strip watermark_text)
      then [mkText (width (page_rect pg) - 150)%Q 35%Q watermark_text 10]
      else []).

(** The body of the page loop, sections (B) to (H).  Cropping (A) and
    stamps (G) place no annotation or text and are left out; the snippet
    highlight of (C) is an annotation computed from block rectangles and
    is left out too. *)
Definition process_page (opts : Options) (watermark_text : string)
    (total_pages page_index : nat) (pg : PageInput) (st : DocState)
  : result DocState :=
  (* (B) *)
  let a_gmi :=
    if highlight_gmi opts
    then map (fun inst => mkAnnot inst purple_color) (gmi_hits pg)
    else [] in
  (* (C) *)
  let g := gift_section opts page_index (gift_hits pg) (gift st) in
  (* (D) *)
  let scan :=
    personalization_scan opts page_index (lines_data pg)
      (mkSink (pers_doc st) a_gmi) in
  (* (E) *)
  a <- quantity_section opts (lines_data pg) (page_annots (sink scan)) ;;
  (* (F) *)
  let info := ship_to_loop page_index (lines_data pg) (ship_to_info st) in
  (* (H) *)
  ok (mkDoc g
        (personalization_doc (sink scan))
        info
        (annots st ++ on_page page_index a)
        (texts st
         ++ on_page page_index
              (page_texts opts watermark_text total_pages page_index pg))).

(** [for page_index in range(1, total_pages)], on the pages from
    [page_index] on. *)
Fixpoint page_loop (opts : Options) (watermark_text : string)
    (total_pages page_index : nat) (pages : list PageInput) (st : DocState)
  : result DocState :=
  match pages with
  | [] => ok st
  | pg :: rest =>
      st' <- process_page opts watermark_text total_pages page_index pg st ;;
      page_loop opts watermark_text total_pages (page_index + 1) rest st'
  end.

(** Lines 554-565: the ship-to lines written on the blank page 0. *)
Fixpoint page0_texts (watermark_text : string) (y : Q)
    (info : list (nat * string)) : list TextInsert :=
  match info with
  | [] => []
  | (pnum, name) :: rest =>
      mkText 50%Q y (watermark_text +:+ str_nat pnum +:+ ": " +:+ name) 12
      :: page0_texts watermark_text (y + 20)%Q rest
  end.

Definition init_doc (opts : Options) : DocState :=
  mkDoc (mkGiftState ∅ (if extract_text opts then Some [] else None))
        [] [] [] [].

(** [process_pdf_file] on a source of content pages [pages]; the blank
    page inserted in front is page 0, so [total_pages] is one more. *)
Definition process_pdf_file (opts : Options) (watermark_text : string)
    (pages : list PageInput) : result DocState :=
  let total_pages := (length pages + 1)%nat in
  st <- page_loop opts watermark_text total_pages 1 pages (init_doc opts) ;;
  if apply_watermark opts && truthy (strip watermark_text) then
    ok (mkDoc (gift st) (pers_doc st) (ship_to_info st) (annots st)
          (texts st
           ++ on_page 0 (page0_texts watermark_text 50%Q (ship_to_info st))))
  else ok st.

(** ** Page composer *)

(** A page of [doc_in]: its rectangle, and whether [show_pdf_page] finds
    nothing to show on it (and raises [ValueError]). *)
Record SrcPage : Type := mkSrc { src_rect : Rect; src_empty : bool }.

(** One [show_pdf_page(show_rect, doc_in, src_index)] call. *)
Record Placement : Type := mkPlacement { show_rect : Rect; src_index : nat }.

(** A page of [doc_out]: the placements made on it, in call order. *)
Definition Sheet : Type := list Placement.

(** [r.width] and [r.height] as the library computes them for a valid
    rectangle, by a float subtraction. *)
Definition float_width (r : Rect) : Q := fsub (x1 r) (x0 r).
Definition float_height (r : Rect) : Q := fsub (y1 r) (y0 r).

(** Lines 35-40: the rectangle [place_page_full] computes for a page of
    rectangle [in_rect] fitted with scale [scale] into [target_rect],
    operation by operation. *)
Definition fit_rect (target_rect in_rect : Rect) (scale : Q) : Rect :=
  let new_w := fmul (float_width in_rect) scale in
  let new_h := fmul (float_height in_rect) scale in
  let left :=
    fadd (x0 target_rect) (rnd (fsub (float_width target_rect) new_w / 2)) in
  let top := y0 target_rect in
  mkRect left top (fadd left new_w) (fadd top new_h).

Definition place_page_full (doc_out_page : Sheet) (doc_in : list SrcPage)
    (in_page_index : nat) (target_rect : Rect) : result Sheet :=
  in_page <- index doc_in in_page_index ;;
  let in_rect := src_rect in_page in
  rw <- div (float_width target_rect) (float_width in_rect) ;;
  rh <- div (float_height target_rect) (float_height in_rect) ;;
  let scale := min_ rw rh in
  let show := fit_rect target_rect in_rect scale in
  if src_empty in_page then raise ValueError
  else ok (doc_out_page ++ [mkPlacement show in_page_index]).

(** [try: place_page_full(...) except ValueError: pass] *)
Definition try_place (doc_out_page : Sheet) (doc_in : list SrcPage)
    (in_page_index : nat) (target_rect : Rect) : result Sheet :=
  try_except (place_page_full doc_out_page doc_in in_page_index target_rect)
             catch_ValueError (ok doc_out_page).

Definition two_up_width : Q := 842.
Definition two_up_height : Q := 595.

Definition left_rect : Rect :=
  mkRect 0 0 (rnd (two_up_width / 2)) two_up_height.
Definition right_rect : Rect :=
  mkRect (rnd (two_up_width / 2)) 0 two_up_width two_up_height.

(** The body of the loop of [create_two_up_pdf], lines 66-82. *)
Definition two_up_body (doc_in : list SrcPage) (i : nat) (doc_out : list Sheet)
  : result (list Sheet) :=
  let num_pages := length doc_in in
  let new_page : Sheet := [] in
  p1 <- try_place new_page doc_in i left_rect ;;
  p2 <- (if (i + 1 <? num_pages)%nat
         then try_place p1 doc_in (i + 1) right_rect
         else ok p1) ;;
  ok (doc_out ++ [p2]).

(** [create_two_up_pdf]: the sheets saved to [output_pdf], or [None] when
    the function returns without saving. *)
Definition create_two_up_pdf (doc_in : list SrcPage)
  : result (option (list Sheet)) :=
  let num_pages := length doc_in in
  if (num_pages =? 0)%nat then ok None
  else
    doc_out <- for_each (range 0 num_pages 2) (two_up_body doc_in) [] ;;
    ok (Some doc_out).

Definition columns : nat := 3.
Definition rows : nat := 2.
Definition thumbs_per_page : nat := columns * rows.
Definition thumb_width : Q := 595.
Definition thumb_height : Q := 842.
Definition slot_w : Q := rnd (thumb_width / inject_Z (Z.of_nat columns)).
Definition slot_h : Q := rnd (thumb_height / inject_Z (Z.of_nat rows)).

(** The cell of the [i]-th thumbnail of a sheet, lines 119-125. *)
Definition thumb_rect (i : nat) : Rect :=
  let row := (i / columns)%nat in
  let col := (i mod columns)%nat in
  let cx0 := fmul (inject_Z (Z.of_nat col)) slot_w in
  let cy0 := fmul (inject_Z (Z.of_nat row)) slot_h in
  mkRect cx0 cy0 (fadd cx0 slot_w) (fadd cy0 slot_h).

(** [for i, src_page_index in enumerate(chunk)], counting from [i]. *)
Fixpoint thumb_chunk (doc_in : list SrcPage) (i : nat) (chunk : list nat)
    (new_page : Sheet) : result Sheet :=
  match chunk with
  | [] => ok new_page
  | src_page_index :: rest =>
      p <- try_place new_page doc_in src_page_index (thumb_rect i) ;;
      thumb_chunk doc_in (i + 1) rest p
  end.

(** The body of the sheet loop of [create_six_page_thumbnail_pdf]. *)
Definition thumb_body (doc_in : list SrcPage) (page_indexes : list nat)
    (start_idx : nat) (doc_out : list Sheet) : result (list Sheet) :=
  let chunk := take thumbs_per_page (drop start_idx page_indexes) in
  p <- thumb_chunk doc_in 0 chunk [] ;;
  ok (doc_out ++ [p]).

Definition create_six_page_thumbnail_pdf (doc_in : list SrcPage)
  : result (option (list Sheet)) :=
  let num_pages := length doc_in in
  if (num_pages <? 2)%nat then ok None
  else
    let page_indexes := range 1 num_pages 1 in
    doc_out <-
      for_each (range 0 (length page_indexes) thumbs_per_page)
               (thumb_body doc_in page_indexes) [] ;;
    ok (Some doc_out).

(** ** Predicates used by the properties *)

(** The loop invariant of [for inst in hits] on page [page_index]: [new]
    are the paragraphs written so far for the page after the earlier
    paragraphs [doc0], [done] the captures walked so far. *)
Definition dedup_inv (page_index : nat) (doc0 : list Paragraph)
    (done : list string) (st : GiftState) : Prop :=
  exists new,
    gift_doc st = Some (doc0 ++ new)
    /\ (forall t, t ∈ gift_messages_per_page st !!! page_index
                  <-> t ∈ para_text <$> new)
    /\ NoDup (para_text <$> new)
    /\ Forall (fun p => para_page p = page_index) new
    /\ (forall t, t ∈ para_text <$> new <-> t <> "" /\ t ∈ done).

(** Line classes of the personalization scan. *)
Definition is_descriptor (l : Line) : bool :=
  any_in item_descriptors (lower (line_text l)).
Definition has_custom (l : Line) : bool :=
  contains "custom" (lower (line_text l)).
Definition has_marker (l : Line) : bool :=
  contains personalization_marker (lower (line_text l)).
Definition has_stop_keyword (l : Line) : bool :=
  any_in stop_keywords (lower (line_text l)).

(** A line that ends a block: a stop keyword or another marker. *)
Definition closes_block (l : Line) : bool :=
  has_stop_keyword l || has_marker l.

(** Line [d] is the most recent item-descriptor line at or before line
    [i] of the page. *)
Definition most_recent_descriptor (lines : list Line) (i d : nat) (ld : Line)
  : Prop :=
  lines !! d = Some ld /\ is_descriptor ld = true /\ (d <= i)%nat
  /\ forall k lk, (d < k <= i)%nat -> lines !! k = Some lk ->
                  is_descriptor lk = false.

(** The gate of line [i]: its most recent descriptor line says "custom". *)
Definition gate_open (lines : list Line) (i : nat) : Prop :=
  exists d ld, most_recent_descriptor lines i d ld /\ has_custom ld = true.

(** The flag after the descriptor checks of the lines [seen], taken one
    by one from [False]. *)
Definition flag_after (seen : list Line) : bool :=
  fold_left update_custom seen false.

(** Line [k] lies in the block [(start, stop)]: from the marker line up
    to, not including, the line the scan resumes at. *)
Definition in_block (k : nat) (b : nat * nat) : Prop :=
  (fst b <= k < snd b)%nat.

(** The invariant of the outer loop of the scan over [lines]: the pointer
    stays in range, the flag is the one of the lines passed, the logged
    blocks lie before the pointer, one after the other, and each starts
    at a marker line whose gate is open. *)
Definition scan_inv (lines : list Line) (s : ScanState) : Prop :=
  (idx s <= length lines)%nat
  /\ current_item_has_custom s = flag_after (take (idx s) lines)
  /\ Forall (fun b => (fst b < snd b <= idx s)%nat) (blocks s)
  /\ (forall i j b1 b2,
         (i < j)%nat -> blocks s !! i = Some b1 -> blocks s !! j = Some b2 ->
         (snd b1 <= fst b2)%nat)
  /\ Forall (fun b => exists la,
                 lines !! fst b = Some la /\ has_marker la = true
                 /\ flag_after (take (S (fst b)) lines) = true)
            (blocks s).

(** ** Sample data for the worked instances *)

Definition sample_opts : Options :=
  mkOptions false false false true true true false true false.

(** A word box and a line whose geometry does not matter. *)
Definition sample_word (s : string) : Word := mkWord 0 0 1 1 s.
Definition sample_line (s : string) (ws : list string) : Line :=
  mkLine s (mkRect 0 0 1 1) (map sample_word ws).

Definition sample_lines : list Line :=
  [ sample_line "Custom bracelet, Word or Message: hope" [];
    sample_line "Personalization: hope" ["Personalization:"; "hope"];
    sample_line "in silver" ["in"; "silver"];
    sample_line "Size: 7" ["Size:"; "7"];
    sample_line "Plain ring, word or message: none" [];
    sample_line "Personalization: none" ["Personalization:"; "none"] ].

Definition sample_sink : Sink := mkSink [] [].

(** The scan of [sample_lines] after its first iteration. *)
Definition sample_scan_1 : ScanState :=
  scan_body sample_opts 1 sample_lines (scan_init sample_sink)
    (sample_line "Custom bracelet, Word or Message: hope" []).

(** A word counts as the quantity label when, lower-cased, it starts
    with "quantity:". *)
Definition is_quantity_token (w : Word) : bool :=
  startswith "quantity:" (lower (wtext w)).

(** [q] is the position of the first quantity label of [words]. *)
Definition first_quantity_token (words : list Word) (q : nat) : Prop :=
  (exists w, words !! q = Some w /\ is_quantity_token w = true)
  /\ forall k wk, (k < q)%nat -> words !! k = Some wk ->
                  is_quantity_token wk = false.

(** [nxt] is the word right after the first quantity label and reads as
    an integer of at least 2. *)
Definition quantity_at_least_two (words : list Word) (nxt : Word) : Prop :=
  exists q v,
    first_quantity_token words q /\ words !! (q + 1)%nat = Some nxt
    /\ int (wtext nxt) = ok v /\ (2 <= v)%Z.

(** Some quantity label of [words], not necessarily the first, is
    followed by a word that reads as an integer of at least 2. *)
Definition some_quantity_at_least_two (words : list Word) : Prop :=
  exists q w nxt v,
    words !! q = Some w /\ is_quantity_token w = true
    /\ words !! (q + 1)%nat = Some nxt
    /\ int (wtext nxt) = ok v /\ (2 <= v)%Z.

Definition has_ship_to (l : Line) : bool :=
  contains "ship to" (lower (line_text l)).

(** Every character of [s] is whitespace; the empty string counts. *)
Fixpoint whitespace_only (s : string) : bool :=
  match s with
  | EmptyString => true
  | String c t => is_space c && whitespace_only t
  end.

(** The page-number text of line 537. *)
Definition page_number_text (total_pages page_index : nat) : TextInsert :=
  mkText 25%Q 25%Q
    ("Page " +:+ str_nat page_index +:+ " of " +:+ str_nat (total_pages - 1))
    10.

(** One page-number text per content page, numbered from [page_index]. *)
Fixpoint page_number_texts (total_pages page_index : nat)
    (pages : list PageInput) : list (nat * TextInsert) :=
  match pages with
  | [] => []
  | _ :: rest =>
      (page_index, page_number_text total_pages page_index)
      :: page_number_texts total_pages (page_index + 1) rest
  end.

(** The ship-to entries of the content pages, numbered from
    [page_index], added to [info] page after page. *)
Fixpoint ship_to_pages (page_index : nat) (pages : list PageInput)
    (info : list (nat * string)) : list (nat * string) :=
  match pages with
  | [] => info
  | pg :: rest =>
      ship_to_pages (page_index + 1) rest
        (ship_to_loop page_index (lines_data pg) info)
  end.

Definition sample_pages : list PageInput :=
  [ mkPage (mkRect 0 0 612 792) [] []
      [ sample_line "Ship To" ["Ship"; "To"];
        sample_line "Ada Lovelace" ["Ada"; "Lovelace"] ];
    mkPage (mkRect 0 0 612 792) [] [] sample_lines ].

(** A source page whose rectangle has a width and a height other than
    zero, so that the two ratios of [place_page_full] are defined. *)
Definition nondegenerate (p : SrcPage) : bool :=
  negb (Qeq_bool (float_width (src_rect p)) 0)
  && negb (Qeq_bool (float_height (src_rect p)) 0).

(** The rectangle [place_page_full] shows a page of rectangle [in_rect]
    in, for the target [target_rect], when the two ratios are defined. *)
Definition fitted (target_rect in_rect : Rect) : Rect :=
  fit_rect target_rect in_rect
    (min_ (rnd (float_width target_rect / float_width in_rect))
          (rnd (float_height target_rect / float_height in_rect))).

(** What the cell [target_rect] receives for source page [i]: the page,
    fitted, or nothing when the page is empty or absent. *)
Definition placement_of (doc_in : list SrcPage) (i : nat) (target_rect : Rect)
  : Sheet :=
  match doc_in !! i with
  | Some p =>
      if src_empty p then []
      else [mkPlacement (fitted target_rect (src_rect p)) i]
  | None => []
  end.

(** Sheet [k] of the 2-up layout: page [2k] left, page [2k+1] right. *)
Definition two_up_sheet (doc_in : list SrcPage) (k : nat) : Sheet :=
  placement_of doc_in (2 * k) left_rect
  ++ placement_of doc_in (2 * k + 1) right_rect.

(** Sheet [k] of the thumbnail layout: cell [i] (row [i / 3], column
    [i mod 3]) takes page [6k + 1 + i]. *)
Definition thumb_sheet (doc_in : list SrcPage) (k : nat) : Sheet :=
  flat_map (fun i => placement_of doc_in (6 * k + 1 + i) (thumb_rect i))
           (seq 0 6).

Definition sample_src : SrcPage := mkSrc (mkRect 0 0 612 792) false.
Definition sample_blank_src : SrcPage := mkSrc (mkRect 0 0 612 792) true.

(** * Further definitions *)

From Stdlib Require Import Lqa.

(** ** Composer: which pages reach a sheet *)

(** Page [i] exists and is not judged empty. *)
Definition page_shown (doc_in : list SrcPage) (i : nat) : bool :=
  match doc_in !! i with
  | Some p => negb (src_empty p)
  | None => false
  end.

(** The source pages placed on the sheets, in placement order. *)
Definition placed_pages (sheets : list Sheet) : list nat :=
  flat_map (map src_index) sheets.

(** ** Personalization: what the scan writes *)

(** The highlights of one written line: the boxes of its words, the
    marker word left out. *)
Definition word_highlights (l : Line) : list Annot :=
  map (fun w => mkAnnot (word_rect w) yellow_color)
      (List.filter
         (fun w => negb (contains "personalization:" (lower (wtext w))))
         (word_list l)).

(** The sink [o] after the lines [written] have been written to it. *)
Definition written (opts : Options) (page_index : nat) (lines : list Line)
    (o : Sink) : Sink :=
  mkSink
    (personalization_doc o
     ++ (if extract_text opts
         then map (fun l => mkParagraph page_index (line_text l)) lines
         else []))
    (page_annots o
     ++ (if highlight_personalization opts
         then flat_map word_highlights lines
         else [])).

(** The lines [n], ..., [j - 1] of the page. *)
Definition segment (lines : list Line) (n j : nat) : list Line :=
  take (j - n) (drop n lines).

(** A line the scan may write: a marker line, or a line without stop
    keyword that continues a block. *)
Definition writable (l : Line) : Prop :=
  has_marker l = true \/ closes_block l = false.

(** ** (C) Gift snippet: from blocks to lines *)

(** The ASCII characters [str.splitlines] breaks lines at. *)
Definition is_linebreak (c : ascii) : bool :=
  let n := nat_of_ascii c in
  ((10 <=? n) && (n <=? 13) || (28 <=? n) && (n <=? 30))%nat.

Definition carriage_return : ascii := ascii_of_nat 13.
Definition line_feed : ascii := ascii_of_nat 10.

(** [s.splitlines()], [cur] being the line read so far: a line ends at a
    line break, "\r\n" counting as one, and a last line without
    characters is not reported. *)
Fixpoint splitlines_from (cur s : string) : list string :=
  match s with
  | EmptyString =>
      match cur with
      | EmptyString => []
      | _ => [cur]
      end
  | String c t =>
      if is_linebreak c then
        match t with
        | String d t' =>
            if Ascii.eqb c carriage_return && Ascii.eqb d line_feed
            then cur :: splitlines_from EmptyString t'
            else cur :: splitlines_from EmptyString t
        | EmptyString => cur :: splitlines_from EmptyString t
        end
      else splitlines_from (cur +:+ String c EmptyString) t
  end.

Definition splitlines (s : string) : list string :=
  splitlines_from EmptyString s.

(** Line 325. *)
Definition snippet_text (snippet_blocks : list (string * Rect)) : string :=
  join newline (map fst snippet_blocks).

(** Line 326: the lines scanned for one trigger instance. *)
Definition snippet_lines (snippet_blocks : list (string * Rect)) : list string :=
  splitlines (snippet_text snippet_blocks).

(** No character of [s] is a line break. *)
Fixpoint single_line (s : string) : bool :=
  match s with
  | EmptyString => true
  | String c t => negb (is_linebreak c) && single_line t
  end.

(** ** The whole document *)

From stdpp Require Import sorting.

(** The page has a first "ship to" line that is followed by a line, and
    [name] is the name taken from that next line. *)
Definition first_ship_to (lines : list Line) (name : string) : Prop :=
  exists pre l nxt rest,
    lines = pre ++ l :: nxt :: rest
    /\ Forall (fun x => has_ship_to x = false) pre
    /\ has_ship_to l = true
    /\ name = extracted_name nxt.

(** The texts sections (H) put on the content pages, numbered from
    [page_index]. *)
Fixpoint content_texts (opts : Options) (watermark_text : string)
    (total_pages page_index : nat) (pages : list PageInput)
  : list (nat * TextInsert) :=
  match pages with
  | [] => []
  | pg :: rest =>
      on_page page_index
        (page_texts opts watermark_text total_pages page_index pg)
      ++ content_texts opts watermark_text total_pages (page_index + 1) rest
  end.

(** The two extraction documents hold content-page numbers below
    [page_index] only, in page order; the gift document repeats no
    paragraph and has no empty text. *)
Definition docs_inv (page_index : nat) (st : DocState) : Prop :=
  (exists doc,
      gift_doc (gift st) = Some doc
      /\ NoDup doc
      /\ Forall (fun p => (1 <= para_page p < page_index)%nat
                          /\ para_text p <> "") doc
      /\ StronglySorted le (para_page <$> doc))
  /\ Forall (fun p => (1 <= para_page p < page_index)%nat) (pers_doc st)
  /\ StronglySorted le (para_page <$> pers_doc st).

(** No extraction document is being written. *)
Definition no_docs (st : DocState) : Prop :=
  gift_doc (gift st) = None /\ pers_doc st = [].

(** ** [get_lines]: line reconstruction *)

(** A span of [page.get_text("dict")]: its bounding box and its text. *)
Record Span : Type := mkSpan { span_bbox : Rect; span_text : string }.

(** The sort key [(round(x[1], 1), x[0])] of a word, given [round(., 1)]. *)
Definition reading_key (round1 : Q -> Q) (w : Word) : Q * Q :=
  (round1 (wy0 w), wx0 w).

(** [a < b] on pairs of numbers, as Python compares tuples. *)
Definition key_ltb (a b : Q * Q) : bool :=
  match (fst a ?= fst b)%Q with
  | Lt => true
  | Eq => match (snd a ?= snd b)%Q with Lt => true | _ => false end
  | Gt => false
  end.

(** [word_list.sort(key=...)].  The sort of Python lists is stable, and
    on keys that are totally ordered its result is the only stable
    sorted arrangement: the one this insertion sort builds. *)
Fixpoint insert_word (round1 : Q -> Q) (x : Word) (l : list Word) : list Word :=
  match l with
  | [] => [x]
  | y :: l' =>
      if key_ltb (reading_key round1 y) (reading_key round1 x)
      then y :: insert_word round1 x l'
      else x :: y :: l'
  end.

Definition sort_words (round1 : Q -> Q) (l : list Word) : list Word :=
  fold_right (insert_word round1) [] l.

Section GetLines.
(** The operations of [fitz.Rect] and [round] the function relies on:
    [r | s], the truth value of a rectangle, [r.intersects(s)] and
    [round(x, 1)]. *)
Variable rect_union : Rect -> Rect -> Rect.
Variable rect_bool : Rect -> bool.
Variable intersects : Rect -> Rect -> bool.
Variable round1 : Q -> Q.

(** The span loop of lines 232-240: the text and the rectangle of a
    line, [None] while no span has been seen. *)
Definition span_loop (spans : list Span) : string * option Rect :=
  fold_left
    (fun '(line_text, line_rect) span =>
       (line_text +:+ span_text span,
        Some (match line_rect with
              | None => span_bbox span
              | Some r => rect_union r (span_bbox span)
              end)))
    spans ("", None).

(** Lines 232-256 for one line of a block: the entry appended to
    [result], or nothing when the loop [continue]s. *)
Definition get_line (all_words : list Word) (spans : list Span) : list Line :=
  let '(line_text, line_rect) := span_loop spans in
  let line_text := strip line_text in
  match line_rect with
  | None => []
  | Some r =>
      if negb (truthy line_text) || negb (rect_bool r) then []
      else
        let word_list :=
          List.filter (fun w => intersects (word_rect w) r) all_words in
        [mkLine line_text r (sort_words round1 word_list)]
  end.

(** [get_lines(page)]: [p_dict] is the list of blocks, each a list of
    lines, each a list of spans (an empty or missing dict gives no
    block, a block without "lines" no line). *)
Definition get_lines (p_dict : list (list (list Span))) (all_words : list Word)
  : list Line :=
  flat_map (fun block => flat_map (get_line all_words) block) p_dict.
End GetLines.

(** Two words in reading order: the second does not sort before the
    first. *)
Definition reading_order (round1 : Q -> Q) (a b : Word) : Prop :=
  key_ltb (reading_key round1 b) (reading_key round1 a) = false.

(** Sample collaborators for the worked instances: bounding-box union,
    overlap test, rounding left out. *)
Definition max_ (a b : Q) : Q := if Qle_bool a b then b else a.
Definition sample_union (r s : Rect) : Rect :=
  mkRect (min_ (x0 r) (x0 s)) (min_ (y0 r) (y0 s))
         (max_ (x1 r) (x1 s)) (max_ (y1 r) (y1 s)).
Definition sample_intersects (r s : Rect) : bool :=
  Qle_bool (x0 r) (x1 s) && Qle_bool (x0 s) (x1 r)
  && Qle_bool (y0 r) (y1 s) && Qle_bool (y0 s) (y1 r).

(** Word [y] has the same sort key as word [w]. *)
Definition same_key (round1 : Q -> Q) (w y : Word) : bool :=
  Qeq_bool (round1 (wy0 y)) (round1 (wy0 w)) && Qeq_bool (wx0 y) (wx0 w).

(** The texts of the spans of a line, put together in source order. *)
Definition spans_text (spans : list Span) : string :=
  fold_right String.append "" (map span_text spans).

(** ** Excluded zones *)






(** ** (G) Stamps *)

(** [stamp_images.get(key)], as a truth value: the path when the key is
    present with a non-empty path. *)
Definition stamp_asset (stamp_images : gmap string string) (key : string)
  : option string :=
  match stamp_images !! key with
  | Some path => if truthy path then Some path else None
  | None => None
  end.

(** One [if trigger and stamp_images.get(key): append(stamp_images[key])]. *)
Definition stamp_if (trigger : bool) (stamp_images : gmap string string)
    (key : string) : list string :=
  if trigger then
    match stamp_asset stamp_images key with
    | Some path => [path]
    | None => []
    end
  else [].

Definition gift_trigger_phrases : list string := ["gift message"].

(** Lines 496-517. *)
Definition stamps_to_insert (stamp_images : gmap string string)
    (page_text_lower : string) : list string :=
  let found_gift := any_in gift_trigger_phrases page_text_lower in
  stamp_if found_gift stamp_images "gift"
  ++ stamp_if (contains "igb" page_text_lower) stamp_images "igb"
  ++ stamp_if (contains "upgrade label to priority - bubble" page_text_lower)
       stamp_images "bubble"
  ++ stamp_if (contains "show kd" page_text_lower) stamp_images "show"
  ++ stamp_if (contains "pic kd" page_text_lower
               || contains "pic " page_text_lower) stamp_images "pic"
  ++ stamp_if (contains "short thins" page_text_lower) stamp_images "short"
  ++ stamp_if (contains "hjlm" page_text_lower) stamp_images "hjlm"
  ++ stamp_if (contains "priority box" page_text_lower) stamp_images "priority"
  ++ stamp_if (contains "fedex" page_text_lower) stamp_images "fedex".

Definition stamp_height : Q := 70.

(** The placement loop of lines 524-533: one
    [insert_image(stamp_rect, filename=stamp_path)] per stamp. *)
Fixpoint stamp_loop (page_width y_offset : Q) (stamps : list string)
  : list (Rect * string) :=
  match stamps with
  | [] => []
  | stamp_path :: rest =>
      (mkRect (page_width - 150)%Q y_offset (page_width - 20)%Q
              (y_offset + stamp_height)%Q,
       stamp_path)
      :: stamp_loop page_width (y_offset + (stamp_height + 10))%Q rest
  end.

(** Section (G) of one page, given the page's width and text. *)
Definition stamps_section (opts : Options) (stamp_images : gmap string string)
    (page_width : Q) (page_text : string) : list (Rect * string) :=
  if add_stamps opts
  then stamp_loop page_width 50 (stamps_to_insert stamp_images (lower page_text))
  else [].

(** The stamp keys in the order the code tests them. *)
Definition stamp_keys : list string :=
  ["gift"; "igb"; "bubble"; "show"; "pic"; "short"; "hjlm"; "priority"; "fedex"].

Definition sample_stamp_images : gmap string string :=
  <["gift" := "gift_stamp.png"]>
    (<["pic" := "pic.png"]> (<["fedex" := ""]> ∅)).

(** The stamp rules as a table: trigger substring and asset key. *)
Definition stamp_table : list (string * string) :=
  [ ("gift message", "gift");
    ("igb", "igb");
    ("upgrade label to priority - bubble", "bubble");
    ("show kd", "show");
    ("pic ", "pic");
    ("short thins", "short");
    ("hjlm", "hjlm");
    ("priority box", "priority");
    ("fedex", "fedex") ].

(** ** (C) Gift snippet: blocks and highlight *)

Section SnippetHighlight.
Variable rect_union : Rect -> Rect -> Rect.
Variable rect_bool : Rect -> bool.
Variable intersects : Rect -> Rect -> bool.




End SnippetHighlight.

(** ** The file list of the window *)

(** The loop of [browse_pdfs], lines 686-692: the list after the loop and
    whether the limit warning was shown. *)
Fixpoint browse_loop (files current_files : list string) : list string * bool :=
  match files with
  | [] => (current_files, false)
  | f :: rest =>
      if (20 <=? length current_files)%nat then (current_files, true)
      else if decide (f ∈ current_files) then browse_loop rest current_files
      else browse_loop rest (current_files ++ [f])
  end.

(** [browse_pdfs], given the files picked in the dialog and the current
    content of the list box. *)
Definition browse_pdfs (files listbox : list string) : list string * bool :=
  match files with
  | [] => (listbox, false)
  | _ => browse_loop files listbox
  end.

(** ** Cells of the composed sheets *)

(** Rectangle [r] lies inside rectangle [c]. *)
Definition inside (r c : Rect) : Prop :=
  (x0 c <= x0 r /\ x1 r <= x1 c /\ y0 c <= y0 r /\ y1 r <= y1 c)%Q.

(** The interiors of [r] and [s] do not meet. *)
Definition apart (r s : Rect) : Prop :=
  (x1 r <= x0 s \/ x1 s <= x0 r \/ y1 r <= y0 s \/ y1 s <= y0 r)%Q.

(** A source page with a positive width and height. *)
Definition positive_size (p : SrcPage) : Prop :=
  (0 < width (src_rect p) /\ 0 < height (src_rect p))%Q.

(** ** Accuracy of the composer's arithmetic *)

(** The unit roundoff of binary64. *)
Definition unit_roundoff : Q := 1 # 9007199254740992.

(** [x] is [y] up to the relative error [e]. *)
Definition within (e x y : Q) : Prop :=
  ((1 - e) * y <= x /\ x <= (1 + e) * y)%Q.

(** The rectangle of [place_page_full] in exact arithmetic: the page
    scaled by the smaller of the two ratios, at the top of the target and
    centred horizontally. *)
Definition exact_fit (target_rect in_rect : Rect) : Rect :=
  let scale :=
    min_ (width target_rect / width in_rect)%Q
         (height target_rect / height in_rect)%Q in
  let new_w := (width in_rect * scale)%Q in
  let new_h := (height in_rect * scale)%Q in
  let left := (x0 target_rect + (width target_rect - new_w) / 2)%Q in
  mkRect left (y0 target_rect) (left + new_w)%Q (y0 target_rect + new_h)%Q.

(** The four edges of [r] and [s] differ by at most [e]. *)
Definition near (e : Q) (r s : Rect) : Prop :=
  (Qabs (x0 r - x0 s) <= e /\ Qabs (y0 r - y0 s) <= e
   /\ Qabs (x1 r - x1 s) <= e /\ Qabs (y1 r - y1 s) <= e)%Q.

(** A non-empty target rectangle within the square of side 1024 at the
    origin, which holds both sheet formats. *)
Definition on_sheet (t : Rect) : Prop :=
  (0 <= x0 t /\ x0 t < x1 t /\ x1 t <= 1024
   /\ 0 <= y0 t /\ y0 t < y1 t /\ y1 t <= 1024)%Q.

(** The distance, in points, within which the composer's rectangle
    follows the exact one on such a target. *)
Definition fit_error : Q := 1 # 100000000000.

(** The tolerance, in points, of the statements on where a page is
    shown, and the distance within which the computed cells follow the
    cells of the layout. *)
Definition tol : Q := 1 # 1000000000.
Definition cell_error : Q := 1 # 1000000000000.

(** [r] shows a page of rectangle [in_rect] in the cell [c]: its top edge
    is the top edge of the cell; up to [tol], it does not pass the left,
    right and bottom edges of the cell, is centred between left and
    right, spans the width or the height of the cell, and has the
    proportions of the page. *)
Definition placed_in (r c in_rect : Rect) : Prop :=
  (y0 r == y0 c
   /\ x0 c - tol <= x0 r /\ x1 r <= x1 c + tol /\ y1 r <= y1 c + tol
   /\ Qabs ((x0 r - x0 c) - (x1 c - x1 r)) <= tol
   /\ (width c - tol <= width r \/ height c - tol <= height r)
   /\ Qabs (width r * height in_rect - height r * width in_rect)
      <= tol * (width in_rect + height in_rect))%Q.

(** Cell [i] of a grid of 3 columns and 2 rows on the 595 x 842 sheet,
    counted row by row from the top-left corner: column [i mod 3], of
    width 595/3, and row [i / 3], of height 421. *)
Definition grid_cell (i : nat) : Rect :=
  let col := inject_Z (Z.of_nat (i mod 3)) in
  let row := inject_Z (Z.of_nat (i / 3)) in
  mkRect (col * (595 # 3)) (row * 421)
         ((col + 1) * (595 # 3)) ((row + 1) * 421).

(** [inside] and [apart] up to the distance [e]. *)
Definition inside_within (e : Q) (r c : Rect) : Prop :=
  (x0 c - e <= x0 r /\ x1 r <= x1 c + e
   /\ y0 c - e <= y0 r /\ y1 r <= y1 c + e)%Q.

Definition apart_within (e : Q) (r s : Rect) : Prop :=
  (x1 r <= x0 s + e \/ x1 s <= x0 r + e
   \/ y1 r <= y0 s + e \/ y1 s <= y0 r + e)%Q.

(** * Properties *)

(** ** The gift-snippet expansion box *)

(** C1.  The box built around a trigger instance reaches 36pt to the left
    and 36pt to the right of it, but 216pt ([expand_down]) toward smaller
    y, that is above the instance, and 72pt ([expand_up]) toward larger
    y, below it: the two vertical margins are applied to the opposite
    edges, so the box is not the one reaching 72pt above and 216pt
    below. *)
Theorem expanded_rect_vertical_margins_swapped (inst : Rect) :
  (x0 (expanded_rect inst) == x0 inst - 36
   /\ x1 (expanded_rect inst) == x1 inst + 36
   /\ y0 (expanded_rect inst) == y0 inst - 216
   /\ y1 (expanded_rect inst) == y1 inst + 72
   /\ ~ y0 (expanded_rect inst) == y0 inst - 72
   /\ ~ y1 (expanded_rect inst) == y1 inst + 216)%Q
  /\ expanded_rect (mkRect 100 300 200 312) = mkRect 64 84 236 384.
Proof.
  split; [| reflexivity].
  unfold expanded_rect, expand_left, expand_right, expand_up, expand_down.
  cbn [x0 y0 x1 y1].
  repeat split; try reflexivity.
  - intros H. apply (Qplus_inj_l _ _ (y0 inst)) in H. unfold Qeq in H. cbn in H. lia.
  - intros H. apply (Qplus_inj_l _ _ (y1 inst)) in H. unfold Qeq in H. cbn in H. lia.
Qed.

(** ** The first/second-occurrence window of the gift snippet *)

Section Capture.
Lemma capture_loop_skip (pre : list string) :
  forall acc rest,
    Forall (fun ln => re_search_ignorecase gift_trigger ln = false) pre ->
    capture_loop false acc (pre ++ rest) = capture_loop false acc rest.
Proof.
  induction pre as [| ln pre IH]; intros acc rest Hpre; [reflexivity |].
  inversion Hpre as [| ? ? Hln Hpre']; subst.
  cbn [app capture_loop]. rewrite Hln. now apply IH.
Qed.

Lemma capture_loop_take (mid : list string) :
  forall acc rest,
    Forall (fun ln => re_search_ignorecase gift_trigger ln = false) mid ->
    capture_loop true acc (mid ++ rest) = capture_loop true (acc ++ mid) rest.
Proof.
  induction mid as [| ln mid IH]; intros acc rest Hmid.
  - now rewrite app_nil_r.
  - inversion Hmid as [| ? ? Hln Hmid']; subst.
    cbn [app capture_loop]. rewrite Hln.
    rewrite IH by assumption. now rewrite <- app_assoc.
Qed.

(** C2.  With no trigger line in [pre] and in [mid] and a trigger line
    [l1]: when a second trigger line [l2] follows [mid], the capture is
    [l1 :: mid], whatever comes after [l2]; when [l1] is the only
    trigger line, the capture is [l1] and all the lines after it. *)
Theorem capture_first_to_second (pre mid : list string) (l1 : string) :
  Forall (fun ln => re_search_ignorecase gift_trigger ln = false) pre ->
  re_search_ignorecase gift_trigger l1 = true ->
  Forall (fun ln => re_search_ignorecase gift_trigger ln = false) mid ->
  (forall l2 rest,
      re_search_ignorecase gift_trigger l2 = true ->
      capture_lines (pre ++ l1 :: mid ++ l2 :: rest) = l1 :: mid)
  /\ capture_lines (pre ++ l1 :: mid) = l1 :: mid.
Proof.
  intros Hpre Hl1 Hmid. unfold capture_lines. split.
  - intros l2 rest Hl2.
    rewrite capture_loop_skip by exact Hpre.
    cbn [capture_loop]. rewrite Hl1. cbn [negb].
    rewrite capture_loop_take by exact Hmid.
    cbn [capture_loop]. now rewrite Hl2.
  - rewrite capture_loop_skip by exact Hpre.
    cbn [capture_loop]. rewrite Hl1. cbn [negb].
    rewrite <- (app_nil_r mid) at 1.
    rewrite capture_loop_take by exact Hmid.
    reflexivity.
Qed.

Lemma capture_first_to_second_witness :
  capture_lines (["Order 12"] ++ "Gift Message" :: ["Happy birthday"; "Love, A."]
                   ++ "gift message included" :: ["footer"])
  = "Gift Message" :: ["Happy birthday"; "Love, A."]
  /\ capture_lines (["Order 12"] ++ "Gift Message" :: ["Happy birthday"; "Love, A."])
     = "Gift Message" :: ["Happy birthday"; "Love, A."].
Proof.
  assert (Hpre : Forall (fun ln => re_search_ignorecase gift_trigger ln = false)
                        ["Order 12"]) by (repeat constructor).
  assert (Hmid : Forall (fun ln => re_search_ignorecase gift_trigger ln = false)
                        ["Happy birthday"; "Love, A."]) by (repeat constructor).
  destruct (capture_first_to_second ["Order 12"] ["Happy birthday"; "Love, A."]
              "Gift Message" Hpre eq_refl Hmid) as [H2 H1].
  split; [apply (H2 "gift message included" ["footer"] eq_refl) | exact H1].
Defined.
End Capture.

(** ** Per-page deduplication of gift messages *)

Lemma truthy_true (s : string) : truthy s = true <-> s <> "".
Proof. destruct s; cbn; split; congruence. Qed.

Lemma filter_text_NoDup (t : string) (new : list Paragraph) :
  NoDup (para_text <$> new) -> t ∈ para_text <$> new ->
  length (filter (fun p => para_text p = t) new) = 1%nat.
Proof.
  induction new as [| p new IH]; cbn [fmap list_fmap]; intros Hnd Hin.
  - inversion Hin.
  - apply NoDup_cons in Hnd as [Hp Hnd].
    rewrite filter_cons. destruct (decide (para_text p = t)) as [Heq | Hne].
    + cbn [length]. f_equal.
      destruct (filter (fun p => para_text p = t) new) as [| q qs] eqn:Hf;
        [reflexivity |].
      exfalso. apply Hp.
      assert (Hq : q ∈ filter (fun p => para_text p = t) new)
        by (rewrite Hf; left).
      apply list_elem_of_filter in Hq as [Hqt Hq]. rewrite Heq, <- Hqt.
      now apply list_elem_of_fmap_2.
    + apply IH; [exact Hnd |].
      apply elem_of_cons in Hin as [Heq | Hin]; [congruence | exact Hin].
Qed.

Section GiftDedup.
Variable page_index : nat.
Variable doc0 : list Paragraph.
Local Abbreviation dedup_inv := (dedup_inv page_index doc0).

Lemma dedup_inv_unchanged (done : list string) (t : string) (st : GiftState) :
  dedup_inv done st ->
  t = "" \/ t ∈ gift_messages_per_page st !!! page_index ->
  dedup_inv (done ++ [t]) st.
Proof.
  intros (new & Hdoc & Hseen & Hnd & Hpg & Hnew) Ht.
  exists new. do 4 (split; [assumption |]).
  intros u. rewrite Hnew, elem_of_app, list_elem_of_singleton.
  split; [tauto |]. intros [Hne [Hu | ->]]; [tauto |].
  destruct Ht as [-> | Ht]; [congruence |].
  apply Hnew. now apply Hseen.
Qed.

Lemma record_gift_message_inv (done : list string) (t : string) (st : GiftState) :
  dedup_inv done st ->
  dedup_inv (done ++ [t]) (record_gift_message true page_index t st).
Proof.
  intros Hinv. pose proof Hinv as (new & Hdoc & Hseen & Hnd & Hpg & Hnew).
  unfold record_gift_message. rewrite Hdoc.
  destruct (truthy t) eqn:Ht; cbn [andb].
  - apply truthy_true in Ht.
    destruct (decide (t ∈ gift_messages_per_page st !!! page_index)) as [Hin | Hnin].
    + apply dedup_inv_unchanged; [exact Hinv | now right].
    + exists (new ++ [mkParagraph page_index t]).
      cbn [gift_doc gift_messages_per_page].
      rewrite lookup_total_insert_eq, fmap_app. cbn [fmap list_fmap para_text].
      split; [now rewrite app_assoc |].
      split; [| split; [| split]].
      * intros u. rewrite elem_of_union, elem_of_singleton, elem_of_app,
          list_elem_of_singleton, Hseen. tauto.
      * apply NoDup_app. split; [exact Hnd |]. split; [| apply NoDup_singleton].
        intros u Hu Hu'. apply list_elem_of_singleton in Hu'. subst.
        apply Hnin. now apply Hseen.
      * apply Forall_app. split; [exact Hpg |]. now constructor.
      * intros u. rewrite !elem_of_app, !list_elem_of_singleton, Hnew.
        split; [intros [[? ?] | ->]; tauto | intros [? [? | ->]]; tauto].
  - apply dedup_inv_unchanged; [exact Hinv | left].
    destruct t; [reflexivity | discriminate Ht].
Qed.

Lemma gift_instances_inv (hits : list (list string)) :
  forall done st,
    dedup_inv done st ->
    dedup_inv (done ++ (final_text <$> hits))
              (gift_instances true page_index hits st).
Proof.
  induction hits as [| h hits IH]; intros done st Hinv.
  - now rewrite app_nil_r.
  - cbn [gift_instances fold_left fmap list_fmap].
    replace (done ++ final_text h :: (final_text <$> hits))
      with ((done ++ [final_text h]) ++ (final_text <$> hits))
      by now rewrite <- app_assoc.
    apply IH. now apply record_gift_message_inv.
Qed.
End GiftDedup.

(** C7.  With text extraction on, the paragraphs section (C) adds to the
    gift document for one page all carry that page number, have pairwise
    distinct texts, and their texts are exactly the non-empty captures of
    the page's trigger instances: a capture reached by one or by several
    instances is written exactly once, an empty capture never. *)
Theorem gift_section_one_entry_per_text
    (opts : Options) (page_index : nat) (hits : list (list string))
    (st : GiftState) (doc0 : list Paragraph) :
  extract_text opts = true ->
  gift_doc st = Some doc0 ->
  exists new,
    gift_doc (gift_section opts page_index hits st) = Some (doc0 ++ new)
    /\ Forall (fun p => para_page p = page_index) new
    /\ NoDup (para_text <$> new)
    /\ (forall t, t ∈ para_text <$> new <-> t <> "" /\ t ∈ final_text <$> hits)
    /\ (forall t, t <> "" -> t ∈ final_text <$> hits ->
                  length (filter (fun p => para_text p = t) new) = 1%nat)
    /\ "" ∉ para_text <$> new.
Proof.
  intros Hext Hdoc. unfold gift_section. rewrite Hext, orb_true_r.
  set (st0 := mkGiftState _ _).
  assert (Hinv : dedup_inv page_index doc0 [] st0).
  { exists []. subst st0. cbn [gift_doc gift_messages_per_page fmap list_fmap].
    rewrite lookup_total_insert_eq, app_nil_r.
    split; [exact Hdoc |]. split; [set_solver |].
    split; [constructor |]. split; [constructor |].
    intros t. split; [intros Hu | intros [_ Hu]]; inversion Hu. }
  apply (gift_instances_inv page_index doc0 hits) in Hinv.
  cbn [app] in Hinv. destruct Hinv as (new & Hd & _ & Hnd & Hpg & Hnew).
  exists new. do 4 (split; [assumption |]). split.
  - intros t Hne Hin. apply filter_text_NoDup; [exact Hnd |]. now apply Hnew.
  - intros Hu. apply Hnew in Hu. tauto.
Qed.

Lemma gift_section_one_entry_per_text_witness :
  exists new,
    gift_doc
      (gift_section (mkOptions false false false true false false false false false)
         1 [["Gift Message"; "Enjoy!"]; ["x"; "Gift Message"; "Enjoy!"]; ["none"]]
         (mkGiftState ∅ (Some [])))
    = Some ([] ++ new)
    /\ length new = 1%nat.
Proof.
  destruct (gift_section_one_entry_per_text
              (mkOptions false false false true false false false false false)
              1 [["Gift Message"; "Enjoy!"]; ["x"; "Gift Message"; "Enjoy!"]; ["none"]]
              (mkGiftState ∅ (Some [])) [] eq_refl eq_refl)
    as (new & Hd & _).
  exists new. split; [exact Hd |].
  vm_compute in Hd. injection Hd as <-. reflexivity.
Defined.

(** ** The personalization scan *)

Lemma descriptor_is_stop_keyword (l : Line) :
  is_descriptor l = true -> has_stop_keyword l = true.
Proof.
  unfold is_descriptor, has_stop_keyword, any_in, item_descriptors, stop_keywords.
  cbn [existsb].
  generalize (lower (line_text l)). intros s.
  destruct (contains "word or message:" s), (contains "word or mssg:" s),
    (contains "morse code:" s); cbn [orb]; intros H;
    rewrite ?orb_true_r; try reflexivity; discriminate H.
Qed.

Lemma not_closing_not_descriptor (l : Line) :
  closes_block l = false -> is_descriptor l = false.
Proof.
  unfold closes_block. intros H. apply orb_false_iff in H as [Hs _].
  destruct (is_descriptor l) eqn:Hd; [| reflexivity].
  apply descriptor_is_stop_keyword in Hd. congruence.
Qed.

Lemma update_custom_descriptor (flag : bool) (l : Line) :
  update_custom flag l = if is_descriptor l then has_custom l else flag.
Proof. reflexivity. Qed.

Lemma opens_block_eq (flag : bool) (l : Line) :
  opens_block flag l = has_marker l && update_custom flag l.
Proof. reflexivity. Qed.

Section Scan.
Variable opts : Options.
Variable page_index : nat.
Variable lines : list Line.

Lemma flag_after_snoc (i : nat) (l : Line) :
  lines !! i = Some l ->
  flag_after (take (S i) lines) = update_custom (flag_after (take i lines)) l.
Proof.
  intros Hl. unfold flag_after. rewrite (take_S_r _ _ _ Hl), fold_left_app.
  reflexivity.
Qed.

Lemma flag_after_skip (m n : nat) :
  (m <= n)%nat ->
  (forall k, (m <= k < n)%nat ->
             exists lk, lines !! k = Some lk /\ is_descriptor lk = false) ->
  flag_after (take n lines) = flag_after (take m lines).
Proof.
  induction 1 as [| n Hle IH]; intros Hno; [reflexivity |].
  destruct (Hno n) as (ln & Hln & Hd); [lia |].
  rewrite (flag_after_snoc _ _ Hln), update_custom_descriptor, Hd.
  apply IH. intros k Hk. apply Hno. lia.
Qed.

(** The flag computed line by line is the gate of the specification. *)
Lemma flag_after_gate (n : nat) :
  (n <= length lines)%nat ->
  flag_after (take n lines) = true <->
  exists d ld,
    (d < n)%nat /\ lines !! d = Some ld /\ is_descriptor ld = true
    /\ (forall k lk, (d < k < n)%nat -> lines !! k = Some lk ->
                     is_descriptor lk = false)
    /\ has_custom ld = true.
Proof.
  induction n as [| n IH]; intros Hn.
  - cbn. split; [discriminate |]. intros (d & ld & Hd & _). lia.
  - destruct (lookup_lt_is_Some_2 lines n) as [l Hl]; [lia |].
    rewrite (flag_after_snoc _ _ Hl), update_custom_descriptor.
    destruct (is_descriptor l) eqn:Hdesc.
    + split.
      * intros Hc. exists n, l. repeat split; try assumption; try lia.
        all: intros k lk Hk; lia.
      * intros (d & ld & Hd & Hld & Hdd & Hno & Hc).
        destruct (decide (d = n)) as [-> | Hne]; [congruence |].
        specialize (Hno n l). rewrite Hno in Hdesc; [discriminate | lia | exact Hl].
    + rewrite IH by lia. split.
      * intros (d & ld & Hd & Hld & Hdd & Hno & Hc).
        exists d, ld. repeat split; try assumption; try lia.
        intros k lk Hk Hlk. destruct (decide (k = n)) as [-> | Hne].
        -- congruence.
        -- apply (Hno k); [lia | exact Hlk].
      * intros (d & ld & Hd & Hld & Hdd & Hno & Hc).
        destruct (decide (d = n)) as [-> | Hne]; [congruence |].
        exists d, ld. repeat split; try assumption; try lia.
        intros k lk Hk Hlk. apply (Hno k); [lia | exact Hlk].
Qed.

Lemma flag_after_gate_open (i : nat) :
  (i < length lines)%nat ->
  flag_after (take (S i) lines) = true <-> gate_open lines i.
Proof.
  intros Hi. rewrite flag_after_gate by lia. unfold gate_open, most_recent_descriptor.
  split; intros (d & ld & H).
  - destruct H as (Hd & Hld & Hdd & Hno & Hc). exists d, ld.
    repeat split; try assumption; try lia.
    intros k lk Hk. apply Hno. lia.
  - destruct H as ((Hld & Hdd & Hd & Hno) & Hc). exists d, ld.
    repeat split; try assumption; try lia.
    intros k lk Hk. apply Hno. lia.
Qed.

(** The inner loop stops at the first closing line, or at the end. *)
Lemma block_loop_spec (fuel : nat) :
  forall n o j o',
    block_loop opts page_index lines fuel n o = (j, o') ->
    (n <= j)%nat
    /\ (forall k, (n <= k < j)%nat ->
                  exists lk, lines !! k = Some lk /\ closes_block lk = false)
    /\ ((length lines <= fuel + n)%nat ->
        lines !! j = None
        \/ exists lj, lines !! j = Some lj /\ closes_block lj = true).
Proof.
  induction fuel as [| fuel IH]; intros n o j o' Hrun; cbn [block_loop] in Hrun.
  - injection Hrun as <- <-. split; [lia |]. split; [intros k Hk; lia |].
    intros Hlen. left. apply lookup_ge_None. lia.
  - destruct (lines !! n) as [nl |] eqn:Hnl.
    + fold (has_stop_keyword nl) in Hrun. fold (has_marker nl) in Hrun.
      destruct (has_stop_keyword nl) eqn:Hs;
        [| destruct (has_marker nl) eqn:Hm].
      * injection Hrun as <- <-. split; [lia |]. split; [intros k Hk; lia |].
        intros _. right. exists nl. unfold closes_block. now rewrite Hs.
      * injection Hrun as <- <-. split; [lia |]. split; [intros k Hk; lia |].
        intros _. right. exists nl. unfold closes_block.
        now rewrite Hs, Hm.
      * apply IH in Hrun as (Hle & Hin & Hend).
        split; [lia |]. split.
        -- intros k Hk. destruct (decide (k = n)) as [-> | Hne].
           ++ exists nl. unfold closes_block. now rewrite Hs, Hm.
           ++ apply Hin. lia.
        -- intros Hlen. apply Hend. lia.
    + injection Hrun as <- <-. split; [lia |]. split; [intros k Hk; lia |].
      intros _. now left.
Qed.

Lemma block_loop_in_range (fuel n j : nat) (o o' : Sink) :
  block_loop opts page_index lines fuel n o = (j, o') ->
  (n <= length lines)%nat -> (j <= length lines)%nat.
Proof.
  intros Hrun Hn. apply block_loop_spec in Hrun as (Hle & Hin & _).
  destruct (decide (j <= length lines)%nat) as [| Hgt]; [assumption |].
  destruct (Hin (length lines)) as (lk & Hlk & _); [lia |].
  apply lookup_lt_Some in Hlk. lia.
Qed.

Lemma scan_body_open (s : ScanState) (l : Line) :
  opens_block (current_item_has_custom s) l = true ->
  exists j o',
    block_loop opts page_index lines (length lines) (idx s + 1)
      (emit_line opts page_index l (sink s)) = (j, o')
    /\ scan_body opts page_index lines s l
       = mkScan j (update_custom (current_item_has_custom s) l) o'
                (blocks s ++ [(idx s, j)]).
Proof.
  intros Hopen. unfold scan_body. rewrite Hopen.
  destruct (block_loop _ _ _ _ _ _) as [j o']. now exists j, o'.
Qed.

Lemma scan_body_pass (s : ScanState) (l : Line) :
  opens_block (current_item_has_custom s) l = false ->
  scan_body opts page_index lines s l
  = mkScan (idx s + 1) (update_custom (current_item_has_custom s) l)
           (sink s) (blocks s).
Proof. intros Hopen. unfold scan_body. now rewrite Hopen. Qed.

Lemma scan_body_idx_lt (s : ScanState) (l : Line) :
  (idx s < idx (scan_body opts page_index lines s l))%nat.
Proof.
  destruct (opens_block (current_item_has_custom s) l) eqn:Hopen.
  - destruct (scan_body_open s l Hopen) as (j & o' & Hrun & ->).
    apply block_loop_spec in Hrun as (Hle & _). cbn [idx]. lia.
  - rewrite (scan_body_pass s l Hopen). cbn [idx]. lia.
Qed.

Lemma visited_inv (o : Sink) (s : ScanState) :
  visited opts page_index lines o s -> scan_inv lines s.
Proof.
  induction 1 as [| s l Hvis IH Hl].
  - unfold scan_inv, scan_init. cbn [idx current_item_has_custom blocks].
    split; [lia |]. split; [reflexivity |]. split; [constructor |].
    split; [| constructor]. intros i j b1 b2 _ Hb. inversion Hb.
  - destruct IH as (Hidx & Hflag & Hbnd & Hord & Hgate).
    pose proof (lookup_lt_Some _ _ _ Hl) as Hlt.
    assert (Hflag' : update_custom (current_item_has_custom s) l
                     = flag_after (take (S (idx s)) lines))
      by (now rewrite (flag_after_snoc _ _ Hl), Hflag).
    destruct (opens_block (current_item_has_custom s) l) eqn:Hopen.
    + destruct (scan_body_open s l Hopen) as (j & o' & Hrun & ->).
      pose proof (block_loop_in_range _ _ _ _ _ Hrun ltac:(lia)) as Hj.
      apply block_loop_spec in Hrun as (Hle & Hin & _).
      unfold scan_inv. cbn [idx current_item_has_custom blocks].
      split; [exact Hj |]. split; [| split; [| split]].
      * rewrite Hflag'. symmetry. apply flag_after_skip; [lia |].
        intros k Hk. destruct (Hin k) as (lk & Hlk & Hc);
          [replace (idx s + 1)%nat with (S (idx s)) by lia; exact Hk |].
        exists lk. split; [exact Hlk | now apply not_closing_not_descriptor].
      * apply Forall_app. split.
        -- eapply Forall_impl; [exact Hbnd |]. cbn. intros b Hb. lia.
        -- constructor; [cbn; lia | constructor].
      * intros i i' b1 b2 Hii Hb1 Hb2.
        apply lookup_lt_Some in Hb1 as Hi1. apply lookup_lt_Some in Hb2 as Hi2.
        rewrite length_app in Hi1, Hi2. cbn [length] in Hi1, Hi2.
        rewrite lookup_app_l in Hb1 by lia.
        destruct (decide (i' < length (blocks s))%nat) as [Hold | Hnew].
        -- rewrite lookup_app_l in Hb2 by lia. now apply (Hord i i').
        -- rewrite lookup_app_r in Hb2 by lia.
           replace (i' - length (blocks s))%nat with 0%nat in Hb2 by lia.
           injection Hb2 as <-. cbn [fst].
           rewrite Forall_forall in Hbnd.
           specialize (Hbnd b1 (list_elem_of_lookup_2 _ _ _ Hb1)). lia.
      * apply Forall_app. split; [exact Hgate |].
        constructor; [| constructor]. cbn [fst]. exists l.
        rewrite opens_block_eq in Hopen. apply andb_true_iff in Hopen as [Hm Hu].
        split; [exact Hl |]. split; [exact Hm |]. now rewrite <- Hflag'.
    + rewrite (scan_body_pass s l Hopen).
      unfold scan_inv. cbn [idx current_item_has_custom blocks].
      replace (idx s + 1)%nat with (S (idx s)) by lia.
      split; [lia |]. split; [exact Hflag' |]. split; [| split; assumption].
      eapply Forall_impl; [exact Hbnd |]. cbn. intros b Hb. lia.
Qed.

Lemma scan_loop_visited (o : Sink) (fuel : nat) :
  forall s,
    visited opts page_index lines o s ->
    visited opts page_index lines o (scan_loop opts page_index lines fuel s).
Proof.
  induction fuel as [| fuel IH]; intros s Hvis; cbn [scan_loop]; [exact Hvis |].
  destruct (lines !! idx s) as [l |] eqn:Hl; [| exact Hvis].
  apply IH. now apply visited_step.
Qed.

Lemma scan_loop_end (fuel : nat) :
  forall s,
    (length lines <= fuel + idx s)%nat ->
    lines !! idx (scan_loop opts page_index lines fuel s) = None.
Proof.
  induction fuel as [| fuel IH]; intros s Hlen; cbn [scan_loop].
  - apply lookup_ge_None. lia.
  - destruct (lines !! idx s) as [l |] eqn:Hl; [| exact Hl].
    apply IH. pose proof (scan_body_idx_lt s l). lia.
Qed.

(** The scan terminates: it leaves the outer loop with the pointer at the
    end of the lines, through loop heads only. *)
Lemma personalization_scan_done (o : Sink) :
  visited opts page_index lines o (personalization_scan opts page_index lines o)
  /\ idx (personalization_scan opts page_index lines o) = length lines.
Proof.
  unfold personalization_scan.
  assert (Hvis : visited opts page_index lines o
                   (scan_loop opts page_index lines (length lines) (scan_init o)))
    by (apply scan_loop_visited; constructor).
  split; [exact Hvis |].
  pose proof (scan_loop_end (length lines) (scan_init o) ltac:(lia)) as Hend.
  apply lookup_ge_None in Hend.
  apply visited_inv in Hvis as (Hle & _). lia.
Qed.

Lemma scan_inv_no_overlap (s : ScanState) :
  scan_inv lines s ->
  forall i j b1 b2 k,
    blocks s !! i = Some b1 -> blocks s !! j = Some b2 ->
    in_block k b1 -> in_block k b2 -> i = j.
Proof.
  intros (_ & _ & _ & Hord & _) i j b1 b2 k Hb1 Hb2 Hk1 Hk2.
  unfold in_block in Hk1, Hk2.
  destruct (lt_eq_lt_dec i j) as [[Hlt | Heq] | Hgt]; [| exact Heq |].
  - pose proof (Hord i j b1 b2 Hlt Hb1 Hb2). lia.
  - pose proof (Hord j i b2 b1 Hgt Hb2 Hb1). lia.
Qed.

(** C3.  At every line the scan looks at, a block is opened exactly when
    the line contains the marker and the most recent descriptor line, at
    or before it on the page, contains "custom".  The flag starts false;
    a descriptor line sets it to whether that line contains "custom";
    with no descriptor line so far no block is opened; and every block
    the finished scan has opened starts at such a gated marker line. *)
Theorem personalization_gated_by_latest_descriptor
    (o : Sink) (s : ScanState) (l : Line) :
  visited opts page_index lines o s ->
  lines !! idx s = Some l ->
  current_item_has_custom (scan_init o) = false
  /\ (is_descriptor l = true ->
      current_item_has_custom (scan_body opts page_index lines s l)
      = has_custom l)
  /\ (opens_block (current_item_has_custom s) l = true
      <-> has_marker l = true /\ gate_open lines (idx s))
  /\ (blocks (scan_body opts page_index lines s l) <> blocks s
      <-> opens_block (current_item_has_custom s) l = true)
  /\ ((forall k lk, (k <= idx s)%nat -> lines !! k = Some lk ->
                    is_descriptor lk = false) ->
      opens_block (current_item_has_custom s) l = false)
  /\ Forall (fun b => exists la,
                 lines !! fst b = Some la /\ has_marker la = true
                 /\ gate_open lines (fst b))
            (blocks (personalization_scan opts page_index lines o)).
Proof.
  intros Hvis Hl.
  pose proof (lookup_lt_Some _ _ _ Hl) as Hlt.
  pose proof (visited_inv o s Hvis) as (_ & Hflag & _).
  assert (Hflag' : update_custom (current_item_has_custom s) l
                   = flag_after (take (S (idx s)) lines))
    by (now rewrite (flag_after_snoc _ _ Hl), Hflag).
  assert (Hiff : opens_block (current_item_has_custom s) l = true
                 <-> has_marker l = true /\ gate_open lines (idx s)).
  { rewrite opens_block_eq, andb_true_iff, Hflag'.
    now rewrite (flag_after_gate_open (idx s) Hlt). }
  split; [reflexivity |]. split; [| split; [exact Hiff | split; [| split]]].
  - intros Hd.
    assert (Hbody : current_item_has_custom (scan_body opts page_index lines s l)
                    = update_custom (current_item_has_custom s) l).
    { destruct (opens_block (current_item_has_custom s) l) eqn:Hopen.
      - now destruct (scan_body_open s l Hopen) as (j & o' & _ & ->).
      - now rewrite (scan_body_pass s l Hopen). }
    now rewrite Hbody, update_custom_descriptor, Hd.
  - destruct (opens_block (current_item_has_custom s) l) eqn:Hopen.
    + destruct (scan_body_open s l Hopen) as (j & o' & _ & ->).
      cbn [blocks]. split; [reflexivity |]. intros _ Heq.
      apply (f_equal (@length _)) in Heq. rewrite length_app in Heq.
      cbn [length] in Heq. lia.
    + rewrite (scan_body_pass s l Hopen). cbn [blocks].
      split; [congruence | discriminate].
  - intros Hno.
    destruct (opens_block (current_item_has_custom s) l) eqn:Hopen;
      [| reflexivity].
    destruct (proj1 Hiff eq_refl) as (_ & d & ld & (Hld & Hdesc & Hd & _) & _).
    rewrite (Hno d ld Hd Hld) in Hdesc. discriminate Hdesc.
  - destruct (personalization_scan_done o) as [Hfin _].
    apply visited_inv in Hfin as (_ & _ & _ & _ & Hgate).
    eapply Forall_impl; [exact Hgate |]. cbn beta.
    intros b (la & Hla & Hm & Hf). exists la.
    split; [exact Hla |]. split; [exact Hm |].
    apply flag_after_gate_open; [| exact Hf].
    now apply lookup_lt_Some in Hla.
Qed.

(** C4.  When a block is opened at a line, the scan resumes at the line
    that closes it (the first later line with a stop keyword or the
    marker) or at the end of the lines, and every line in between belongs
    to the block; a marker line met while the flag is false moves the
    pointer one line on and writes nothing.  No line lies in two blocks,
    after any step and when the scan has finished, which it does with the
    pointer at the end of the lines. *)
Theorem personalization_blocks_never_overlap
    (o : Sink) (s : ScanState) (l : Line) :
  visited opts page_index lines o s ->
  lines !! idx s = Some l ->
  let s' := scan_body opts page_index lines s l in
  let final := personalization_scan opts page_index lines o in
  (opens_block (current_item_has_custom s) l = true ->
   (idx s < idx s' <= length lines)%nat
   /\ blocks s' = blocks s ++ [(idx s, idx s')]
   /\ (forall k, (idx s < k < idx s')%nat ->
                 exists lk, lines !! k = Some lk /\ closes_block lk = false)
   /\ (idx s' = length lines
       \/ exists lc, lines !! idx s' = Some lc /\ closes_block lc = true))
  /\ (has_marker l = true ->
      update_custom (current_item_has_custom s) l = false ->
      idx s' = (idx s + 1)%nat /\ sink s' = sink s /\ blocks s' = blocks s)
  /\ (forall i j b1 b2 k,
         blocks s' !! i = Some b1 -> blocks s' !! j = Some b2 ->
         in_block k b1 -> in_block k b2 -> i = j)
  /\ idx final = length lines
  /\ (forall i j b1 b2 k,
         blocks final !! i = Some b1 -> blocks final !! j = Some b2 ->
         in_block k b1 -> in_block k b2 -> i = j).
Proof.
  intros Hvis Hl s' final.
  pose proof (lookup_lt_Some _ _ _ Hl) as Hlt.
  split; [| split; [| split; [| split]]].
  - intros Hopen. subst s'.
    destruct (scan_body_open s l Hopen) as (j & o' & Hrun & ->).
    cbn [idx blocks].
    pose proof (block_loop_in_range _ _ _ _ _ Hrun ltac:(lia)) as Hj.
    apply block_loop_spec in Hrun as (Hle & Hin & Hend).
    split; [lia |]. split; [reflexivity |]. split.
    + intros k Hk. apply Hin. lia.
    + destruct Hend as [Hnone | Hsome]; [lia | |].
      * left. apply lookup_ge_None in Hnone. lia.
      * now right.
  - intros Hm Hu. subst s'.
    assert (Hopen : opens_block (current_item_has_custom s) l = false)
      by (now rewrite opens_block_eq, Hu, andb_false_r).
    now rewrite (scan_body_pass s l Hopen).
  - apply scan_inv_no_overlap. apply (visited_inv o). now apply visited_step.
  - apply personalization_scan_done.
  - apply scan_inv_no_overlap. apply (visited_inv o).
    apply personalization_scan_done.
Qed.
End Scan.

Lemma sample_scan_1_visited :
  visited sample_opts 1 sample_lines sample_sink sample_scan_1.
Proof.
  unfold sample_scan_1.
  apply (visited_step sample_opts 1 sample_lines sample_sink
           (scan_init sample_sink)); [apply visited_init | reflexivity].
Defined.

Lemma personalization_gated_by_latest_descriptor_witness :
  opens_block (current_item_has_custom sample_scan_1)
    (sample_line "Personalization: hope" ["Personalization:"; "hope"]) = true
  <-> has_marker (sample_line "Personalization: hope" ["Personalization:"; "hope"])
      = true
      /\ gate_open sample_lines (idx sample_scan_1).
Proof.
  destruct (personalization_gated_by_latest_descriptor sample_opts 1 sample_lines
              sample_sink sample_scan_1
              (sample_line "Personalization: hope" ["Personalization:"; "hope"])
              sample_scan_1_visited eq_refl)
    as (_ & _ & H & _).
  exact H.
Defined.

Lemma personalization_blocks_never_overlap_witness :
  idx (scan_body sample_opts 1 sample_lines sample_scan_1
         (sample_line "Personalization: hope" ["Personalization:"; "hope"]))
  = 3%nat
  /\ blocks (personalization_scan sample_opts 1 sample_lines sample_sink)
     = [(1, 3)]%nat.
Proof.
  destruct (personalization_blocks_never_overlap sample_opts 1 sample_lines
              sample_sink sample_scan_1
              (sample_line "Personalization: hope" ["Personalization:"; "hope"])
              sample_scan_1_visited eq_refl)
    as (Hopen & _ & _ & _ & _).
  destruct (Hopen eq_refl) as (_ & _ & _ & Hclose).
  split; [| reflexivity].
  destruct Hclose as [Hend | (lc & Hlc & _)]; [discriminate Hend |].
  reflexivity.
Defined.

(** ** Quantity highlighting *)

Lemma find_quantity_index_Some (words : list Word) :
  forall w_i q,
    find_quantity_index w_i words = Some q ->
    (w_i <= q)%nat /\ first_quantity_token words (q - w_i).
Proof.
  induction words as [| w words IH]; intros w_i q Hfind;
    cbn [find_quantity_index] in Hfind; [discriminate |].
  fold (is_quantity_token w) in Hfind.
  destruct (is_quantity_token w) eqn:Hw.
  - injection Hfind as <-. split; [lia |].
    replace (w_i - w_i)%nat with 0%nat by lia. split.
    + now exists w.
    + intros k wk Hk. lia.
  - apply IH in Hfind as (Hle & (w' & Hw' & Hq) & Hfirst).
    split; [lia |].
    replace (q - w_i)%nat with (S (q - (w_i + 1))) by lia. split.
    + now exists w'.
    + intros [| k] wk Hk Hwk; cbn in Hwk.
      * congruence.
      * apply (Hfirst k); [lia | exact Hwk].
Qed.

Lemma find_quantity_index_None (words : list Word) :
  forall w_i,
    find_quantity_index w_i words = None ->
    forall k wk, words !! k = Some wk -> is_quantity_token wk = false.
Proof.
  induction words as [| w words IH]; intros w_i Hfind k wk Hwk;
    [inversion Hwk |].
  cbn [find_quantity_index] in Hfind. fold (is_quantity_token w) in Hfind.
  destruct (is_quantity_token w) eqn:Hw; [discriminate |].
  destruct k as [| k]; cbn in Hwk; [congruence |].
  now apply (IH (w_i + 1)%nat Hfind k).
Qed.

Lemma first_quantity_token_unique (words : list Word) (q q' : nat) :
  first_quantity_token words q -> first_quantity_token words q' -> q = q'.
Proof.
  intros [(w & Hw & Hq) Hfirst] [(w' & Hw' & Hq') Hfirst'].
  destruct (lt_eq_lt_dec q q') as [[Hlt | Heq] | Hgt]; [| exact Heq |].
  - rewrite (Hfirst' q w Hlt Hw) in Hq. discriminate Hq.
  - rewrite (Hfirst q' w' Hgt Hw') in Hq'. discriminate Hq'.
Qed.

(** The quantity step raises nothing: the index is guarded and the bare
    [except] swallows what [int] raises. *)
Lemma quantity_line_ok (l : Line) (annots : list Annot) :
  exists a, quantity_line l annots = ok a.
Proof.
  unfold quantity_line.
  destruct (contains "quantity:" (lower (line_text l))); [| now eexists].
  destruct (find_quantity_index 0 (word_list l)) as [q |]; [| now eexists].
  destruct (q + 1 <? length (word_list l))%nat eqn:Hlen; [| now eexists].
  apply Nat.ltb_lt in Hlen.
  destruct (lookup_lt_is_Some_2 (word_list l) (q + 1)%nat Hlen) as [nxt Hnxt].
  unfold index. rewrite Hnxt. cbn [bind ok].
  destruct (int (wtext nxt)) as [e | v]; cbn [bind try_except catch_all];
    [now eexists |].
  destruct (2 <=? v)%Z; now eexists.
Qed.

Lemma quantity_section_ok (opts : Options) (lines : list Line) :
  forall annots, exists a, quantity_section opts lines annots = ok a.
Proof.
  unfold quantity_section. destruct (highlight_quantity opts);
    [| intros annots; now eexists].
  induction lines as [| l lines IH]; intros annots; cbn [for_each];
    [now exists annots |].
  destruct (quantity_line_ok l annots) as [a ->]. cbn [bind ok]. apply IH.
Qed.

(** C5 (amended).  On a line containing "quantity:", the quantity step
    raises nothing, and it adds a highlight, of that word's box, exactly
    when the word right after the first token starting with "quantity:"
    reads as an integer of at least 2; otherwise (no such token, no word
    after it, or a word that is not an integer or is below 2) the
    annotations are unchanged.  The section as a whole, over any lines
    and with the option on or off, raises nothing either. *)
Theorem quantity_highlight_iff_first_token_followed_by_two
    (opts : Options) (lines : list Line) (l : Line) (annots : list Annot) :
  contains "quantity:" (lower (line_text l)) = true ->
  (exists annots',
      quantity_line l annots = ok annots'
      /\ ((exists nxt, quantity_at_least_two (word_list l) nxt
                       /\ annots' = annots ++ [mkAnnot (word_rect nxt) yellow_color])
          \/ ((forall nxt, ~ quantity_at_least_two (word_list l) nxt)
              /\ annots' = annots)))
  /\ exists annots'', quantity_section opts lines annots = ok annots''.
Proof.
  intros Hline. split.
  - unfold quantity_line. rewrite Hline.
    destruct (find_quantity_index 0 (word_list l)) as [q |] eqn:Hfind.
    + apply find_quantity_index_Some in Hfind as (_ & Hfirst).
      replace (q - 0)%nat with q in Hfirst by lia.
      assert (Hnot : forall nxt,
                 quantity_at_least_two (word_list l) nxt ->
                 exists v, word_list l !! (q + 1)%nat = Some nxt
                           /\ int (wtext nxt) = ok v /\ (2 <= v)%Z).
      { intros nxt (q' & v & Hfirst' & Hnxt & Hint & Hv).
        rewrite <- (first_quantity_token_unique _ _ _ Hfirst Hfirst') in Hnxt.
        now exists v. }
      destruct (q + 1 <? length (word_list l))%nat eqn:Hlen.
      * apply Nat.ltb_lt in Hlen.
        destruct (lookup_lt_is_Some_2 (word_list l) (q + 1)%nat Hlen)
          as [nxt Hnxt].
        unfold index. rewrite Hnxt. cbn [bind ok].
        destruct (int (wtext nxt)) as [e | v] eqn:Hint; cbn [bind try_except].
        -- exists annots. split; [reflexivity |]. right. split; [| reflexivity].
           intros nxt' Hq. apply Hnot in Hq as (v' & Hnxt' & Hint' & _).
           rewrite Hnxt in Hnxt'. injection Hnxt' as <-.
           rewrite Hint in Hint'. discriminate Hint'.
        -- destruct (2 <=? v)%Z eqn:Hv; cbn [ok].
           ++ exists (annots ++ [mkAnnot (word_rect nxt) yellow_color]).
              split; [reflexivity |]. left. exists nxt. split; [| reflexivity].
              exists q, v. apply Z.leb_le in Hv.
              split; [exact Hfirst | split; [exact Hnxt | split; [exact Hint | exact Hv]]].
           ++ exists annots. split; [reflexivity |]. right. split; [| reflexivity].
              intros nxt' Hq. apply Hnot in Hq as (v' & Hnxt' & Hint' & Hv').
              rewrite Hnxt in Hnxt'. injection Hnxt' as <-.
              rewrite Hint in Hint'. injection Hint' as <-.
              apply Z.leb_gt in Hv. lia.
      * exists annots. split; [reflexivity |]. right. split; [| reflexivity].
        intros nxt Hq. apply Hnot in Hq as (v & Hnxt & _).
        apply lookup_lt_Some in Hnxt. apply Nat.ltb_ge in Hlen. lia.
    + exists annots. split; [reflexivity |]. right. split; [| reflexivity].
      intros nxt (q & v & [(w & Hw & Hq) _] & _).
      rewrite (find_quantity_index_None _ _ Hfind q w Hw) in Hq. discriminate Hq.
  - apply quantity_section_ok.
Qed.

Lemma quantity_highlight_iff_first_token_followed_by_two_witness :
  exists annots',
    quantity_line (sample_line "Quantity: 3" ["Quantity:"; "3"]) [] = ok annots'
    /\ length annots' = 1%nat.
Proof.
  destruct (quantity_highlight_iff_first_token_followed_by_two sample_opts
              sample_lines (sample_line "Quantity: 3" ["Quantity:"; "3"]) []
              eq_refl)
    as ((annots' & Hrun & _) & _).
  exists annots'. split; [exact Hrun |].
  vm_compute in Hrun. injection Hrun as <-. reflexivity.
Defined.

(** C5 as stated fails: on the line "Quantity: 1 Quantity: 3" a token
    starting with "quantity:" (the second one) is followed by the
    integer 3, yet no highlight is produced, because only the first such
    token is looked at. *)
Lemma quantity_second_token_not_highlighted :
  contains "quantity:"
    (lower (line_text (sample_line "Quantity: 1 Quantity: 3"
                         ["Quantity:"; "1"; "Quantity:"; "3"]))) = true
  /\ some_quantity_at_least_two
       (word_list (sample_line "Quantity: 1 Quantity: 3"
                     ["Quantity:"; "1"; "Quantity:"; "3"]))
  /\ quantity_line (sample_line "Quantity: 1 Quantity: 3"
                      ["Quantity:"; "1"; "Quantity:"; "3"]) []
     = ok [].
Proof.
  split; [reflexivity |]. split; [| reflexivity].
  exists 2%nat, (sample_word "Quantity:"), (sample_word "3"), 3%Z.
  repeat split. discriminate.
Qed.

(** ** Ship-to extraction *)

Lemma ship_to_loop_skip (page_index : nat) (pre : list Line) :
  forall rest info,
    Forall (fun x => has_ship_to x = false) pre ->
    ship_to_loop page_index (pre ++ rest) info
    = ship_to_loop page_index rest info.
Proof.
  induction pre as [| x pre IH]; intros rest info Hpre; [reflexivity |].
  inversion Hpre as [| ? ? Hx Hpre']; subst.
  cbn [app ship_to_loop]. fold (has_ship_to x). rewrite Hx. now apply IH.
Qed.

Lemma ship_to_loop_at_most_one (page_index : nat) (lines : list Line) :
  forall info,
    exists new,
      ship_to_loop page_index lines info = info ++ new
      /\ (length new <= 1)%nat.
Proof.
  induction lines as [| x lines IH]; intros info; cbn [ship_to_loop].
  - exists []. split; [now rewrite app_nil_r | cbn; lia].
  - destruct (contains "ship to" (lower (line_text x))); [| apply IH].
    destruct lines as [| nxt ?].
    + exists []. split; [now rewrite app_nil_r | cbn; lia].
    + eexists. split; [reflexivity | cbn; lia].
Qed.

(** C6.  With no "ship to" line before line [l] and "ship to" in [l]
    (compared in lower case), the page adds the one entry made from the
    line after [l], whatever follows, and nothing when [l] is the last
    line; the name is the first two words of that next line joined by a
    space, or the whole line when it has fewer than two words.  On any
    page at most one entry is added, and none without a "ship to"
    line. *)
Theorem ship_to_first_match_only
    (page_index : nat) (pre rest : list Line) (l : Line)
    (info : list (nat * string)) :
  Forall (fun x => has_ship_to x = false) pre ->
  has_ship_to l = true ->
  ship_to_loop page_index (pre ++ l :: rest) info
  = match rest with
    | nxt :: _ => info ++ [(page_index, extracted_name nxt)]
    | [] => info
    end
  /\ (forall nxt w0 w1 ws,
         word_list nxt = w0 :: w1 :: ws ->
         extracted_name nxt = (wtext w0 +:+ " " +:+ wtext w1))
  /\ (forall nxt, (length (word_list nxt) < 2)%nat ->
                  extracted_name nxt = line_text nxt)
  /\ (forall lines, exists new,
         ship_to_loop page_index lines info = info ++ new
         /\ (length new <= 1)%nat)
  /\ ship_to_loop page_index pre info = info.
Proof.
  intros Hpre Hl. split; [| split; [| split; [| split]]].
  - rewrite ship_to_loop_skip by exact Hpre.
    cbn [ship_to_loop]. fold (has_ship_to l). now rewrite Hl.
  - intros nxt w0 w1 ws Hw. unfold extracted_name. rewrite Hw. reflexivity.
  - intros nxt Hlen. unfold extracted_name.
    destruct (2 <=? length (word_list nxt))%nat eqn:Hle; [| reflexivity].
    apply Nat.leb_le in Hle. lia.
  - intros lines. apply ship_to_loop_at_most_one.
  - rewrite <- (app_nil_r pre). now rewrite ship_to_loop_skip.
Qed.

Lemma ship_to_first_match_only_witness :
  ship_to_loop 4
    ([sample_line "Order #77" ["Order"; "#77"]]
     ++ sample_line "SHIP TO" ["SHIP"; "TO"]
     :: [ sample_line "Ada M. Lovelace" ["Ada"; "M."; "Lovelace"];
          sample_line "Ship to store" ["Ship"; "to"; "store"];
          sample_line "12 Main St" ["12"; "Main"; "St"] ])
    [(2, "Bob")%nat]
  = [(2, "Bob"); (4, "Ada M.")]%nat.
Proof.
  assert (Hpre : Forall (fun x => has_ship_to x = false)
                        [sample_line "Order #77" ["Order"; "#77"]])
    by (repeat constructor).
  destruct (ship_to_first_match_only 4
              [sample_line "Order #77" ["Order"; "#77"]]
              [ sample_line "Ada M. Lovelace" ["Ada"; "M."; "Lovelace"];
                sample_line "Ship to store" ["Ship"; "to"; "store"];
                sample_line "12 Main St" ["12"; "Main"; "St"] ]
              (sample_line "SHIP TO" ["SHIP"; "TO"])
              [(2, "Bob")%nat] Hpre eq_refl)
    as (H & _).
  exact H.
Defined.

(** ** Watermark and the ship-to index page *)

Lemma lstrip_whitespace_only (s : string) :
  whitespace_only s = true -> lstrip s = "".
Proof.
  induction s as [| c t IH]; cbn [whitespace_only lstrip]; [reflexivity |].
  intros H. apply andb_true_iff in H as [Hc Ht]. rewrite Hc. now apply IH.
Qed.

Lemma strip_whitespace_only (s : string) :
  whitespace_only s = true -> truthy (strip s) = false.
Proof.
  intros H. unfold strip. now rewrite (lstrip_whitespace_only s H).
Qed.

Section BlankWatermark.
Variable opts : Options.
Variable watermark_text : string.
Hypothesis blank : whitespace_only watermark_text = true.

Lemma page_texts_blank (total_pages page_index : nat) (pg : PageInput) :
  page_texts opts watermark_text total_pages page_index pg
  = [page_number_text total_pages page_index].
Proof.
  unfold page_texts.
  rewrite (strip_whitespace_only _ blank), andb_false_r. reflexivity.
Qed.

Lemma process_page_blank (total_pages page_index : nat) (pg : PageInput)
    (st : DocState) :
  exists st',
    process_page opts watermark_text total_pages page_index pg st = ok st'
    /\ texts st'
       = texts st ++ [(page_index, page_number_text total_pages page_index)]
    /\ ship_to_info st'
       = ship_to_loop page_index (lines_data pg) (ship_to_info st).
Proof.
  unfold process_page.
  destruct (quantity_section_ok opts (lines_data pg)
              (page_annots (sink (personalization_scan opts page_index
                 (lines_data pg)
                 (mkSink (pers_doc st)
                    (if highlight_gmi opts
                     then map (fun inst => mkAnnot inst purple_color) (gmi_hits pg)
                     else []))))))
    as [a ->].
  cbn [bind ok]. eexists. split; [reflexivity |].
  cbn [texts ship_to_info]. now rewrite page_texts_blank.
Qed.

Lemma page_loop_blank (total_pages : nat) (pages : list PageInput) :
  forall page_index st,
    exists st',
      page_loop opts watermark_text total_pages page_index pages st = ok st'
      /\ texts st'
         = texts st ++ page_number_texts total_pages page_index pages
      /\ ship_to_info st' = ship_to_pages page_index pages (ship_to_info st).
Proof.
  induction pages as [| pg pages IH]; intros page_index st;
    cbn [page_loop page_number_texts ship_to_pages].
  - exists st. now rewrite app_nil_r.
  - destruct (process_page_blank total_pages page_index pg st)
      as (st1 & -> & Ht1 & Hs1).
    cbn [bind]. destruct (IH (page_index + 1)%nat st1) as (st' & Hrun & Ht & Hs).
    exists st'. split; [exact Hrun |]. split.
    + rewrite Ht, Ht1, <- app_assoc. reflexivity.
    + now rewrite Hs, Hs1.
Qed.
End BlankWatermark.

Lemma page_number_texts_pages (total_pages : nat) (pages : list PageInput) :
  forall page_index,
    (1 <= page_index)%nat ->
    Forall (fun e => (1 <= fst e)%nat
                     /\ snd e = page_number_text total_pages (fst e))
           (page_number_texts total_pages page_index pages).
Proof.
  induction pages as [| pg pages IH]; intros page_index Hp;
    cbn [page_number_texts]; constructor.
  - now split.
  - apply IH. lia.
Qed.

(** C10.  With [apply_watermark] on and a watermark text that is empty or
    all whitespace, processing succeeds, the texts inserted are exactly
    the page-number texts of the content pages (no watermark text, and
    nothing on page 0), while the ship-to entries have been collected
    from every page all the same. *)
Theorem blank_watermark_discards_ship_to
    (opts : Options) (watermark_text : string) (pages : list PageInput) :
  apply_watermark opts = true ->
  whitespace_only watermark_text = true ->
  exists st,
    process_pdf_file opts watermark_text pages = ok st
    /\ texts st = page_number_texts (length pages + 1) 1 pages
    /\ Forall (fun e => (1 <= fst e)%nat
                        /\ snd e = page_number_text (length pages + 1) (fst e))
              (texts st)
    /\ ship_to_info st = ship_to_pages 1 pages [].
Proof.
  intros Hopt Hblank. unfold process_pdf_file.
  destruct (page_loop_blank opts watermark_text Hblank (length pages + 1) pages
              1%nat (init_doc opts)) as (st & -> & Ht & Hs).
  cbn [bind]. rewrite (strip_whitespace_only _ Hblank), andb_false_r.
  exists st. split; [reflexivity |].
  cbn [init_doc texts ship_to_info app] in Ht, Hs.
  split; [exact Ht |]. split; [| exact Hs].
  rewrite Ht. now apply page_number_texts_pages.
Qed.

Lemma blank_watermark_discards_ship_to_witness :
  exists st,
    process_pdf_file sample_opts "   " sample_pages = ok st
    /\ length (texts st) = 2%nat
    /\ ship_to_info st = [(1%nat, "Ada Lovelace")].
Proof.
  destruct (blank_watermark_discards_ship_to sample_opts "   " sample_pages
              eq_refl eq_refl) as (st & Hrun & Ht & _ & Hs).
  exists st. split; [exact Hrun |]. split.
  - now rewrite Ht.
  - now rewrite Hs.
Defined.

(** ** binary64 rounding *)

Lemma round_half_even_spec (q : Q) :
  (Qabs (inject_Z (round_half_even q) - q) <= 1 # 2)%Q.
Proof.
  pose proof (Qfloor_le q) as Hlo. pose proof (Qlt_floor q) as Hhi.
  rewrite inject_Z_plus in Hhi. change (inject_Z 1) with 1%Q in Hhi.
  apply Qabs_Qle_condition. unfold round_half_even.
  destruct (Qcompare_spec (q - inject_Z (Qfloor q)) (1 # 2)) as [He | Hl | Hg].
  - destruct (Z.even (Qfloor q)).
    + split; lra.
    + rewrite inject_Z_plus. change (inject_Z 1) with 1%Q. split; lra.
  - split; lra.
  - rewrite inject_Z_plus. change (inject_Z 1) with 1%Q. split; lra.
Qed.

Lemma Qpower2_pos (z : Z) : (0 < 2 ^ z)%Q.
Proof. apply Qpower_0_lt. reflexivity. Qed.

Lemma Qpower2_Z (n : Z) : (0 <= n)%Z -> (inject_Z (2 ^ n) == 2 ^ n)%Q.
Proof. intros Hn. now rewrite Zpower_Qpower. Qed.

Lemma ilog2_le (q : Q) : (0 < q)%Q -> (2 ^ ilog2 q <= q)%Q.
Proof.
  intros Hq. unfold ilog2.
  set (e := (Z.log2 (Qnum q) - Z.log2 (Z.pos (Qden q)))%Z).
  destruct (Qle_bool (2 ^ e) q) eqn:Hb; [now apply Qle_bool_iff |].
  destruct q as [n d]. cbn [Qnum Qden] in e.
  assert (Hn : (0 < n)%Z) by (unfold Qlt in Hq; cbn in Hq; lia).
  destruct (Z.log2_spec n Hn) as [Hn1 _].
  destruct (Z.log2_spec (Z.pos d) ltac:(lia)) as [_ Hd2].
  pose proof (Z.log2_nonneg n) as Ha. pose proof (Z.log2_nonneg (Z.pos d)) as Hb'.
  set (a := Z.log2 n) in *. set (b := Z.log2 (Z.pos d)) in *.
  assert (Hsplit : (2 ^ a == 2 ^ (e - 1) * 2 ^ (Z.succ b))%Q).
  { rewrite <- Qpower_plus by discriminate. subst e.
    replace (a - b - 1 + Z.succ b)%Z with a by lia. reflexivity. }
  assert (HnQ : (2 ^ a <= inject_Z n)%Q).
  { rewrite <- Qpower2_Z by exact Ha. now rewrite <- Zle_Qle. }
  assert (HdQ : (inject_Z (Z.pos d) <= 2 ^ (Z.succ b))%Q).
  { rewrite <- Qpower2_Z by lia. rewrite <- Zle_Qle. lia. }
  assert (Hq' : (n # d == inject_Z n / inject_Z (Z.pos d))%Q)
    by apply Qmake_Qdiv.
  rewrite Hq'. apply Qle_shift_div_l; [reflexivity |].
  pose proof (Qpower2_pos (e - 1)) as Hp.
  apply Qle_trans with (2 ^ (e - 1) * 2 ^ Z.succ b)%Q.
  - apply Qmult_le_l; assumption.
  - now rewrite <- Hsplit.
Qed.

(** Rounding changes a value by at most the unit roundoff, relatively. *)
Lemma rnd_rel (x : Q) : (Qabs (rnd x - x) <= unit_roundoff * Qabs x)%Q.
Proof.
  unfold rnd. destruct (Qeq_bool x 0) eqn:H0.
  - apply Qeq_bool_iff in H0. rewrite H0. vm_compute. discriminate.
  - assert (Hx : ~ (x == 0)%Q) by (intros E; apply Qeq_bool_iff in E; congruence).
    assert (Ha : (0 < Qabs x)%Q).
    { destruct (Qlt_le_dec 0 (Qabs x)) as [H | H]; [exact H |].
      exfalso. apply Hx. pose proof (Qabs_nonneg x).
      apply Qabs_Qle_condition in H. lra. }
    set (L := ilog2 (Qabs x)). pose proof (ilog2_le _ Ha) as HL. fold L in HL.
    set (P := (2 ^ (L - 52))%Q). pose proof (Qpower2_pos (L - 52)) as HP.
    fold P in HP. rewrite Qred_correct.
    set (m := inject_Z (round_half_even (x / P))).
    pose proof (round_half_even_spec (x / P)) as Hm. fold m in Hm.
    assert (HPL : (2 ^ L == P * 2 ^ 52)%Q).
    { unfold P. rewrite <- Qpower_plus by discriminate.
      replace (L - 52 + 52)%Z with L by lia. reflexivity. }
    assert (Hdiff : (m * P - x == (m - x / P) * P)%Q) by (field; lra).
    rewrite Hdiff, Qabs_Qmult, (Qabs_pos P) by lra.
    apply Qle_trans with ((1 # 2) * P)%Q.
    + apply Qmult_le_compat_r; [exact Hm | lra].
    + apply Qle_trans with (unit_roundoff * 2 ^ L)%Q.
      * rewrite HPL. change (2 ^ 52)%Q with (4503599627370496 # 1)%Q.
        unfold unit_roundoff. lra.
      * apply Qmult_le_l; [reflexivity | exact HL].
Qed.

Lemma rnd_within (x : Q) : (0 <= x)%Q -> within unit_roundoff (rnd x) x.
Proof.
  intros Hx. pose proof (rnd_rel x) as H.
  rewrite (Qabs_pos x) in H by exact Hx.
  apply Qabs_Qle_condition in H. unfold within, unit_roundoff in *. lra.
Qed.

Lemma rnd_pos (x : Q) : (0 < x)%Q -> (0 < rnd x)%Q.
Proof.
  intros Hx. destruct (rnd_within x) as [H _]; [lra |].
  unfold unit_roundoff in H. lra.
Qed.

Lemma rnd_abs (x M : Q) :
  (Qabs x <= M)%Q ->
  (x - unit_roundoff * M <= rnd x /\ rnd x <= x + unit_roundoff * M)%Q.
Proof.
  intros HM. pose proof (rnd_rel x) as H.
  assert (Hle : (unit_roundoff * Qabs x <= unit_roundoff * M)%Q)
    by (apply Qmult_le_l; [reflexivity | exact HM]).
  apply Qabs_Qle_condition in H. lra.
Qed.

(** *** Relative errors through products, quotients and minima *)

Lemma within_nonneg (e x y : Q) :
  within e x y -> (e <= 1)%Q -> (0 <= y)%Q -> (0 <= x)%Q.
Proof. intros [H _] He Hy. nra. Qed.

Lemma within_weaken (a b x y : Q) :
  within a x y -> (a <= b)%Q -> (0 <= y)%Q -> within b x y.
Proof. intros [H1 H2] Hab Hy. split; nra. Qed.

Lemma within_trans (a b c x y z : Q) :
  within a x y -> within b y z ->
  (0 <= a <= 1)%Q -> (0 <= z)%Q ->
  ((1 + a) * (1 + b) <= 1 + c)%Q -> (1 - c <= (1 - a) * (1 - b))%Q ->
  within c x z.
Proof.
  intros [H1 H2] [H3 H4] [Ha0 Ha1] Hz Hup Hlo. split.
  - apply Qle_trans with ((1 - a) * (1 - b) * z)%Q; [nra |].
    apply Qle_trans with ((1 - a) * y)%Q; [nra | exact H1].
  - apply Qle_trans with ((1 + a) * y)%Q; [exact H2 |].
    apply Qle_trans with ((1 + a) * (1 + b) * z)%Q; nra.
Qed.

Lemma Qmult_le_compat_l_nonneg (x y z : Q) :
  (0 <= z)%Q -> (x <= y)%Q -> (z * x <= z * y)%Q.
Proof.
  intros Hz Hxy. rewrite (Qmult_comm z x), (Qmult_comm z y).
  now apply Qmult_le_compat_r.
Qed.

Lemma within_mul (a b c x y x' y' : Q) :
  within a x y -> within b x' y' ->
  (0 <= a <= 1)%Q -> (0 <= b <= 1)%Q -> (0 <= y)%Q -> (0 <= y')%Q ->
  ((1 + a) * (1 + b) <= 1 + c)%Q -> (1 - c <= (1 - a) * (1 - b))%Q ->
  within c (x * x') (y * y').
Proof.
  intros [H1 H2] [H3 H4] [Ha0 Ha1] [Hb0 Hb1] Hy Hy' Hup Hlo.
  assert (Hyy : (0 <= y * y')%Q) by nra.
  split.
  - apply Qle_trans with (((1 - a) * y) * ((1 - b) * y'))%Q.
    + assert (E : ((1 - a) * y * ((1 - b) * y')
                   == (1 - a) * (1 - b) * (y * y'))%Q) by ring.
      rewrite E. apply Qmult_le_compat_r; assumption.
    + apply Qmult_le_compat_nonneg; split; try assumption; nra.
  - apply Qle_trans with (((1 + a) * y) * ((1 + b) * y'))%Q.
    + apply Qmult_le_compat_nonneg; split; try assumption; nra.
    + assert (E : ((1 + a) * y * ((1 + b) * y')
                   == (1 + a) * (1 + b) * (y * y'))%Q) by ring.
      rewrite E. apply Qmult_le_compat_r; assumption.
Qed.

Lemma within_div (a b c x y x' y' : Q) :
  within a x y -> within b x' y' ->
  (0 <= a <= 1)%Q -> (0 <= b)%Q -> (b < 1)%Q -> (0 <= c <= 1)%Q ->
  (0 <= y)%Q -> (0 < y')%Q ->
  (1 + a <= (1 + c) * (1 - b))%Q -> ((1 - c) * (1 + b) <= 1 - a)%Q ->
  within c (x / x') (y / y').
Proof.
  intros [H1 H2] [H3 H4] [Ha0 Ha1] Hb0 Hb1 [Hc0 Hc1] Hy Hy' Hup Hlo.
  assert (Hx' : (0 < x')%Q) by nra.
  set (q := (y / y')%Q).
  assert (Hq : (q * y' == y)%Q) by (unfold q; field; lra).
  assert (Hq0 : (0 <= q)%Q).
  { unfold q. apply Qle_shift_div_l; [exact Hy' | lra]. }
  clearbody q. split.
  - apply Qle_shift_div_l; [exact Hx' |].
    apply Qle_trans with ((1 - c) * q * ((1 + b) * y'))%Q.
    + apply Qmult_le_compat_l_nonneg; [nra | exact H4].
    + assert (E : ((1 - c) * q * ((1 + b) * y')
                   == (1 - c) * (1 + b) * (q * y'))%Q) by ring.
      rewrite E, Hq. apply Qle_trans with ((1 - a) * y)%Q; [| exact H1].
      apply Qmult_le_compat_r; assumption.
  - apply Qle_shift_div_r; [exact Hx' |].
    apply Qle_trans with ((1 + c) * q * ((1 - b) * y'))%Q.
    + assert (E : ((1 + c) * q * ((1 - b) * y')
                   == (1 + c) * (1 - b) * (q * y'))%Q) by ring.
      rewrite E, Hq. apply Qle_trans with ((1 + a) * y)%Q; [exact H2 |].
      apply Qmult_le_compat_r; assumption.
    + apply Qmult_le_compat_l_nonneg; [nra | exact H3].
Qed.

Lemma min_cases (a b : Q) :
  (min_ a b = a /\ (a <= b)%Q) \/ (min_ a b = b /\ (b <= a)%Q).
Proof.
  unfold min_. destruct (Qle_bool a b) eqn:H.
  - left. split; [reflexivity |]. now apply Qle_bool_iff.
  - right. split; [reflexivity |].
    destruct (Qlt_le_dec b a) as [Hlt | Hle]; [now apply Qlt_le_weak |].
    apply Qle_bool_iff in Hle. congruence.
Qed.

Lemma within_min (e x y x' y' : Q) :
  within e x y -> within e x' y' -> (0 <= e <= 1)%Q ->
  within e (min_ x x') (min_ y y').
Proof.
  intros [H1 H2] [H3 H4] [He0 He1].
  destruct (min_cases x x') as [[-> Hx] | [-> Hx]];
    destruct (min_cases y y') as [[-> Hy] | [-> Hy]]; split; nra.
Qed.

(** *** The scale and the new size of [place_page_full] *)

Lemma ratio_within (D d : Q) :
  (0 <= D)%Q -> (0 < d)%Q ->
  within (5 * unit_roundoff) (rnd (rnd D / rnd d)) (D / d).
Proof.
  intros HD Hd.
  pose proof (rnd_within D HD) as H1.
  pose proof (rnd_within d (Qlt_le_weak _ _ Hd)) as H2.
  assert (H3 : within (3 * unit_roundoff) (rnd D / rnd d) (D / d)).
  { apply (within_div unit_roundoff unit_roundoff); try assumption;
      unfold unit_roundoff; lra. }
  assert (Hq : (0 <= D / d)%Q) by (apply Qle_shift_div_l; [exact Hd | lra]).
  assert (H4 : (0 <= rnd D / rnd d)%Q).
  { apply (within_nonneg _ _ _ H3); [unfold unit_roundoff; lra | exact Hq]. }
  apply (within_trans unit_roundoff (3 * unit_roundoff) _ _ _ _
           (rnd_within _ H4) H3); unfold unit_roundoff; lra.
Qed.

Lemma new_size_within (d s sigma : Q) :
  (0 < d)%Q -> (0 <= sigma)%Q -> within (5 * unit_roundoff) s sigma ->
  within (9 * unit_roundoff) (rnd (rnd d * s)) (d * sigma).
Proof.
  intros Hd Hsig Hs.
  pose proof (rnd_within d (Qlt_le_weak _ _ Hd)) as H1.
  assert (H2 : within (7 * unit_roundoff) (rnd d * s) (d * sigma)).
  { apply (within_mul unit_roundoff (5 * unit_roundoff)); try assumption;
      unfold unit_roundoff; lra. }
  assert (Hp : (0 <= d * sigma)%Q) by nra.
  assert (H3 : (0 <= rnd d * s)%Q).
  { apply (within_nonneg _ _ _ H2); [unfold unit_roundoff; lra | exact Hp]. }
  apply (within_trans unit_roundoff (7 * unit_roundoff) _ _ _ _
           (rnd_within _ H3) H2); unfold unit_roundoff; lra.
Qed.

Lemma exact_scale (t r : Rect) :
  (0 <= width t)%Q -> (0 <= height t)%Q ->
  (0 < width r)%Q -> (0 < height r)%Q ->
  let sigma := min_ (width t / width r) (height t / height r) in
  (0 <= sigma
   /\ width r * sigma <= width t /\ height r * sigma <= height t
   /\ (width r * sigma == width t \/ height r * sigma == height t))%Q.
Proof.
  intros Htw Hth Hw Hh.
  set (a := (width t / width r)%Q). set (b := (height t / height r)%Q).
  assert (Ha : (width r * a == width t)%Q) by (unfold a; field; lra).
  assert (Hb : (height r * b == height t)%Q) by (unfold b; field; lra).
  assert (Ha0 : (0 <= a)%Q) by (unfold a; apply Qle_shift_div_l; lra).
  assert (Hb0 : (0 <= b)%Q) by (unfold b; apply Qle_shift_div_l; lra).
  clearbody a b. cbn zeta.
  destruct (min_cases a b) as [[-> Hle] | [-> Hle]].
  - assert (height r * a <= height r * b)%Q by nra.
    split; [lra |]. split; [lra |]. split; [lra |]. left. lra.
  - assert (width r * b <= width r * a)%Q by nra.
    split; [lra |]. split; [lra |]. split; [lra |]. right. lra.
Qed.

(** On a target of the sheet, the rectangle [place_page_full] computes
    in binary64 has the top edge of the exact one and its other three
    edges within [fit_error] of the exact ones. *)
Lemma fitted_near_exact (t r : Rect) :
  on_sheet t -> (0 < width r)%Q -> (0 < height r)%Q ->
  y0 (fitted t r) = y0 t
  /\ y0 (exact_fit t r) = y0 t
  /\ near fit_error (fitted t r) (exact_fit t r).
Proof.
  intros (Hx0 & Hx & Hx1 & Hy0 & Hy & Hy1) Hw Hh.
  split; [reflexivity |]. split; [reflexivity |].
  assert (Htw : (0 <= width t)%Q) by (unfold width; lra).
  assert (Hth : (0 <= height t)%Q) by (unfold height; lra).
  pose proof (exact_scale t r Htw Hth Hw Hh) as Hsig. cbn zeta in Hsig.
  unfold near, fitted, exact_fit, fit_rect, float_width, float_height,
    fsub, fmul, fadd.
  cbn [x0 y0 x1 y1].
  change (x1 t - x0 t)%Q with (width t). change (y1 t - y0 t)%Q with (height t).
  change (x1 r - x0 r)%Q with (width r). change (y1 r - y0 r)%Q with (height r).
  set (sigma := min_ (width t / width r) (height t / height r)) in *.
  set (s := min_ (rnd (rnd (width t) / rnd (width r)))
                 (rnd (rnd (height t) / rnd (height r)))).
  assert (Hs : within (5 * unit_roundoff) s sigma).
  { apply within_min; [now apply ratio_within | now apply ratio_within |].
    unfold unit_roundoff. lra. }
  destruct Hsig as (Hsig0 & Hsw & Hsh & _).
  pose proof (new_size_within (width r) s sigma Hw Hsig0 Hs) as [Hnw1 Hnw2].
  pose proof (new_size_within (height r) s sigma Hh Hsig0 Hs) as [Hnh1 Hnh2].
  clearbody s sigma.
  set (NW := (width r * sigma)%Q) in *. set (NH := (height r * sigma)%Q) in *.
  assert (HNW : (0 <= NW)%Q) by (unfold NW; nra).
  assert (HNH : (0 <= NH)%Q) by (unfold NH; nra).
  set (nw := rnd (rnd (width r) * s)) in *.
  set (nh := rnd (rnd (height r) * s)) in *.
  clearbody NW NH nw nh.
  pose proof (rnd_within (width t) Htw) as [HW1 HW2].
  set (W := rnd (width t)) in *. clearbody W.
  unfold width, height in *. unfold unit_roundoff in *.
  destruct (rnd_abs (W - nw) 2048) as [Hd1 Hd2];
    [apply Qabs_Qle_condition; lra |].
  set (d := rnd (W - nw)) in *. clearbody d.
  set (d2 := (d / 2)%Q).
  assert (Hd2' : (d2 == d * (1 # 2))%Q) by (unfold d2; field).
  destruct (rnd_abs d2 2048) as [Hh1 Hh2];
    [apply Qabs_Qle_condition; unfold unit_roundoff in *; lra |].
  set (hf := rnd d2) in *. clearbody hf d2.
  destruct (rnd_abs (x0 t + hf) 4096) as [Hl1 Hl2];
    [apply Qabs_Qle_condition; unfold unit_roundoff in *; lra |].
  set (l := rnd (x0 t + hf)) in *. clearbody l.
  destruct (rnd_abs (l + nw) 8192) as [Hr1 Hr2];
    [apply Qabs_Qle_condition; unfold unit_roundoff in *; lra |].
  destruct (rnd_abs (y0 t + nh) 4096) as [Hb1 Hb2];
    [apply Qabs_Qle_condition; unfold unit_roundoff in *; lra |].
  set (rr := rnd (l + nw)) in *. set (bt := rnd (y0 t + nh)) in *.
  clearbody rr bt.
  set (m := ((x1 t - x0 t - NW) / 2)%Q).
  assert (Hm : (m == (x1 t - x0 t - NW) * (1 # 2))%Q) by (unfold m; field).
  clearbody m. unfold fit_error, unit_roundoff in *.
  split; [apply Qabs_Qle_condition; lra |].
  split; [apply Qabs_Qle_condition; lra |].
  split; apply Qabs_Qle_condition; lra.
Qed.

(** *** From the exact rectangle to the cell *)

Lemma exact_fit_geometry (t r : Rect) :
  (0 <= width t)%Q -> (0 <= height t)%Q ->
  (0 < width r)%Q -> (0 < height r)%Q ->
  (y0 (exact_fit t r) == y0 t
   /\ x0 t <= x0 (exact_fit t r)
   /\ x1 (exact_fit t r) <= x1 t
   /\ y1 (exact_fit t r) <= y1 t
   /\ x0 (exact_fit t r) - x0 t == x1 t - x1 (exact_fit t r)
   /\ width (exact_fit t r) * height r == height (exact_fit t r) * width r
   /\ (width (exact_fit t r) == width t \/ height (exact_fit t r) == height t))%Q.
Proof.
  intros Htw Hth Hw Hh.
  pose proof (exact_scale t r Htw Hth Hw Hh) as Hs. cbn zeta in Hs.
  unfold exact_fit. cbn [x0 y0 x1 y1].
  set (s := min_ (width t / width r) (height t / height r)) in *.
  clearbody s. destruct Hs as (Hs0 & Hsw & Hsh & Hfill).
  set (m := ((width t - width r * s) / 2)%Q).
  assert (Hm : (m == (width t - width r * s) * (1 # 2))%Q)
    by (unfold m; field).
  clearbody m. unfold width, height in *. cbn [x0 y0 x1 y1] in *.
  split; [lra |]. split; [lra |]. split; [lra |]. split; [lra |].
  split; [lra |]. split; [ring |].
  destruct Hfill as [Hf | Hf]; [left | right]; lra.
Qed.

(** On a computed cell [t] that follows the cell [c] of the layout, the
    rectangle of [place_page_full] shows the page in [c]. *)
Lemma fitted_placed_in (t c r : Rect) :
  on_sheet t -> near cell_error t c -> (y0 t == y0 c)%Q ->
  (0 < width r)%Q -> (0 < height r)%Q ->
  placed_in (fitted t r) c r.
Proof.
  intros Ht (Hc0 & _ & Hc1 & Hc2) Hcy Hw Hh.
  destruct (fitted_near_exact t r Ht Hw Hh) as (Hy & _ & (Hn0 & _ & Hn1 & Hn2)).
  destruct Ht as (Hx0 & Hx & Hx1 & Hy0 & Hyy & Hy1).
  assert (Htw : (0 <= width t)%Q) by (unfold width; lra).
  assert (Hth : (0 <= height t)%Q) by (unfold height; lra).
  destruct (exact_fit_geometry t r Htw Hth Hw Hh)
    as (He0 & He1 & He2 & He3 & He4 & He5 & He6).
  set (f := fitted t r) in *. set (e := exact_fit t r) in *.
  clearbody f e. destruct f as [fx0 fy0 fx1 fy1], e as [ex0 ey0 ex1 ey1].
  unfold placed_in, width, height in *. cbn [x0 y0 x1 y1] in *. subst fy0.
  apply Qabs_Qle_condition in Hc0, Hc1, Hc2, Hn0, Hn1, Hn2.
  unfold tol, cell_error, fit_error in *.
  split; [lra |]. split; [lra |]. split; [lra |]. split; [lra |].
  split; [apply Qabs_Qle_condition; lra |].
  split; [destruct He6; [left | right]; lra |].
  set (hp := (y1 r - y0 r)%Q) in *. set (wp := (x1 r - x0 r)%Q) in *.
  clearbody hp wp.
  set (da := (fx1 - fx0 - (ex1 - ex0))%Q).
  set (db := (fy1 - y0 t - (ey1 - ey0))%Q).
  assert (Hda : (- (3 # 100000000000) <= da <= 3 # 100000000000)%Q)
    by (unfold da; lra).
  assert (Hdb : (- (3 # 100000000000) <= db <= 3 # 100000000000)%Q)
    by (unfold db; lra).
  assert (E : ((fx1 - fx0) * hp - (fy1 - y0 t) * wp == da * hp - db * wp)%Q).
  { unfold da, db.
    assert (E' : ((fx1 - fx0) * hp - (fy1 - y0 t) * wp
                  == (fx1 - fx0 - (ex1 - ex0)) * hp
                     - (fy1 - y0 t - (ey1 - ey0)) * wp
                     + ((ex1 - ex0) * hp - (ey1 - ey0) * wp))%Q) by ring.
    rewrite E', He5. ring. }
  rewrite E. clearbody da db. apply Qabs_Qle_condition. split; nra.
Qed.

(** *** The computed cells *)

Lemma left_rect_cell :
  on_sheet left_rect /\ near cell_error left_rect (mkRect 0 0 421 595)
  /\ (y0 left_rect == 0)%Q.
Proof. vm_compute. repeat split; discriminate. Qed.

Lemma right_rect_cell :
  on_sheet right_rect /\ near cell_error right_rect (mkRect 421 0 842 595)
  /\ (y0 right_rect == 0)%Q.
Proof. vm_compute. repeat split; discriminate. Qed.

Lemma thumb_rect_cell (i : nat) :
  (i < 6)%nat ->
  on_sheet (thumb_rect i) /\ near cell_error (thumb_rect i) (grid_cell i)
  /\ (y0 (thumb_rect i) == y0 (grid_cell i))%Q.
Proof.
  intros Hi.
  do 6 (destruct i as [| i]; [vm_compute; repeat split; discriminate |]).
  lia.
Qed.

Lemma positive_size_nondegenerate (p : SrcPage) :
  positive_size p -> nondegenerate p = true.
Proof.
  intros [Hw Hh]. unfold nondegenerate, float_width, float_height, fsub.
  pose proof (rnd_pos _ Hw) as Hw'. pose proof (rnd_pos _ Hh) as Hh'.
  unfold width, height in *.
  apply andb_true_iff. split; apply negb_true_iff;
    match goal with
    | |- Qeq_bool ?a 0 = false =>
        destruct (Qeq_bool a 0) eqn:He; [| reflexivity];
        apply Qeq_bool_iff in He; lra
    end.
Qed.

(** ** Page composer *)

Lemma range_from_lookup (stop step : nat) (fuel : nat) :
  forall start k,
    (1 <= step)%nat -> (stop <= start + fuel)%nat ->
    range_from fuel start stop step !! k
    = if (start + k * step <? stop)%nat then Some (start + k * step)%nat
      else None.
Proof.
  induction fuel as [| fuel IH]; intros start k Hstep Hfuel;
    cbn [range_from].
  - destruct (Nat.ltb_spec (start + k * step) stop); [lia | reflexivity].
  - destruct (Nat.ltb_spec start stop) as [Hlt | Hge].
    + destruct k as [| k]; cbn [lookup list_lookup].
      * replace (start + 0 * step)%nat with start by lia.
        destruct (Nat.ltb_spec start stop); [reflexivity | lia].
      * change ((start :: range_from fuel (start + step) stop step) !! S k)
          with (range_from fuel (start + step) stop step !! k).
        rewrite IH by lia.
        replace (start + step + k * step)%nat with (start + S k * step)%nat
          by lia.
        reflexivity.
    + destruct (Nat.ltb_spec (start + k * step) stop); [lia | reflexivity].
Qed.

Lemma range_lookup (start stop step k : nat) :
  (1 <= step)%nat ->
  range start stop step !! k
  = if (start + k * step <? stop)%nat then Some (start + k * step)%nat
    else None.
Proof. intros Hstep. unfold range. apply range_from_lookup; lia. Qed.

Lemma range_length_iff (start stop step k : nat) :
  (1 <= step)%nat ->
  (k < length (range start stop step))%nat <-> (start + k * step < stop)%nat.
Proof.
  intros Hstep. rewrite <- lookup_lt_is_Some, range_lookup by exact Hstep.
  destruct (Nat.ltb_spec (start + k * step) stop) as [Hlt | Hge].
  - split; [intros _; exact Hlt | intros _; now eexists].
  - split; [intros [x Hx]; discriminate Hx | lia].
Qed.

Lemma length_by_bound (a b : nat) :
  (forall k, (k < a)%nat <-> (k < b)%nat) -> a = b.
Proof.
  intros H. pose proof (H a) as Ha. pose proof (H b) as Hb. lia.
Qed.

Lemma for_each_snoc {A B : Type} (f : A -> B)
    (body : A -> list B -> result (list B)) (l : list A) :
  (forall a out, a ∈ l -> body a out = ok (out ++ [f a])) ->
  forall out, for_each l body out = ok (out ++ map f l).
Proof.
  induction l as [| a l IH]; intros Hbody out; cbn [for_each map].
  - now rewrite app_nil_r.
  - rewrite Hbody by left. cbn [bind ok].
    rewrite IH by (intros a' out' Ha'; apply Hbody; now right).
    now rewrite <- app_assoc.
Qed.

(** *** What a cell receives *)

Lemma placement_of_pages (doc_in : list SrcPage) (i : nat) (target_rect : Rect) :
  map src_index (placement_of doc_in i target_rect)
  = if page_shown doc_in i then [i] else [].
Proof.
  unfold placement_of, page_shown. destruct (doc_in !! i) as [p |]; [| reflexivity].
  now destruct (src_empty p).
Qed.

Lemma page_shown_absent (doc_in : list SrcPage) (i : nat) :
  (length doc_in <= i)%nat -> page_shown doc_in i = false.
Proof.
  intros Hi. unfold page_shown. now rewrite (lookup_ge_None_2 doc_in i Hi).
Qed.

Lemma placement_of_absent (doc_in : list SrcPage) (i : nat) (target_rect : Rect) :
  (length doc_in <= i)%nat -> placement_of doc_in i target_rect = [].
Proof.
  intros Hi. unfold placement_of. now rewrite (lookup_ge_None_2 doc_in i Hi).
Qed.

Lemma placement_of_src_index (doc_in : list SrcPage) (i : nat)
    (target_rect : Rect) :
  Forall (fun pl => src_index pl = i) (placement_of doc_in i target_rect).
Proof.
  unfold placement_of. destruct (doc_in !! i) as [p |]; [| constructor].
  destruct (src_empty p); repeat constructor.
Qed.

(** A page of positive size that reaches the computed cell [t] is shown
    in the cell [c] of the layout that [t] follows. *)
Lemma placement_of_placed_in (doc_in : list SrcPage) (i : nat)
    (t c : Rect) (pl : Placement) (p : SrcPage) :
  on_sheet t -> near cell_error t c -> (y0 t == y0 c)%Q ->
  pl ∈ placement_of doc_in i t ->
  doc_in !! src_index pl = Some p -> positive_size p ->
  src_index pl = i /\ placed_in (show_rect pl) c (src_rect p).
Proof.
  intros Ht Hc Hy Hin Hp [Hw Hh].
  pose proof (placement_of_src_index doc_in i t) as Hsrc.
  rewrite Forall_forall in Hsrc. specialize (Hsrc pl Hin).
  rewrite Hsrc in Hp. split; [exact Hsrc |].
  unfold placement_of in Hin. rewrite Hp in Hin.
  destruct (src_empty p); [now apply elem_of_nil in Hin |].
  apply list_elem_of_singleton in Hin as ->. cbn [show_rect].
  now apply fitted_placed_in.
Qed.

Lemma two_up_sheet_pages (doc_in : list SrcPage) (k : nat) :
  map src_index (two_up_sheet doc_in k)
  = List.filter (page_shown doc_in) [2 * k; 2 * k + 1]%nat.
Proof.
  unfold two_up_sheet. rewrite map_app, !placement_of_pages.
  cbn [List.filter].
  destruct (page_shown doc_in (2 * k)), (page_shown doc_in (2 * k + 1));
    reflexivity.
Qed.

Lemma two_up_sheet_placed (doc_in : list SrcPage) (k : nat) (pl : Placement)
    (p : SrcPage) :
  pl ∈ two_up_sheet doc_in k ->
  doc_in !! src_index pl = Some p -> positive_size p ->
  (src_index pl = (2 * k)%nat
   /\ placed_in (show_rect pl) (mkRect 0 0 421 595) (src_rect p))
  \/ (src_index pl = (2 * k + 1)%nat
      /\ placed_in (show_rect pl) (mkRect 421 0 842 595) (src_rect p)).
Proof.
  intros Hin Hp Hpos. unfold two_up_sheet in Hin.
  apply elem_of_app in Hin as [Hin | Hin].
  - left. destruct left_rect_cell as (H1 & H2 & H3).
    exact (placement_of_placed_in doc_in _ _ _ pl p H1 H2 H3 Hin Hp Hpos).
  - right. destruct right_rect_cell as (H1 & H2 & H3).
    exact (placement_of_placed_in doc_in _ _ _ pl p H1 H2 H3 Hin Hp Hpos).
Qed.

Section Composer.
Variable doc_in : list SrcPage.
Hypothesis pages_nondegenerate : Forall (fun p => nondegenerate p = true) doc_in.

Lemma try_place_spec (sheet : Sheet) (i : nat) (target_rect : Rect) :
  (i < length doc_in)%nat ->
  try_place sheet doc_in i target_rect
  = ok (sheet ++ placement_of doc_in i target_rect).
Proof.
  intros Hi. destruct (lookup_lt_is_Some_2 doc_in i Hi) as [p Hp].
  pose proof pages_nondegenerate as Hnd. rewrite Forall_forall in Hnd.
  specialize (Hnd p (list_elem_of_lookup_2 _ _ _ Hp)).
  unfold nondegenerate in Hnd. apply andb_true_iff in Hnd as [Hw Hh].
  apply negb_true_iff in Hw, Hh.
  unfold try_place, place_page_full, placement_of, index, div.
  rewrite Hp. cbn [bind ok]. rewrite Hw. cbn [bind ok]. rewrite Hh.
  cbn [bind ok]. destruct (src_empty p); cbn [try_except raise catch_ValueError].
  - now rewrite app_nil_r.
  - reflexivity.
Qed.

Lemma two_up_body_spec (i : nat) (doc_out : list Sheet) :
  (i < length doc_in)%nat ->
  two_up_body doc_in i doc_out
  = ok (doc_out ++ [placement_of doc_in i left_rect
                    ++ placement_of doc_in (i + 1) right_rect]).
Proof.
  intros Hi. unfold two_up_body. rewrite try_place_spec by exact Hi.
  cbn [bind ok app].
  destruct (Nat.ltb_spec (i + 1) (length doc_in)) as [Hlt | Hge].
  - rewrite try_place_spec by exact Hlt. reflexivity.
  - cbn [bind ok]. rewrite (placement_of_absent doc_in (i + 1)) by exact Hge.
    now rewrite app_nil_r.
Qed.

Lemma two_up_sheets :
  (1 <= length doc_in)%nat ->
  create_two_up_pdf doc_in
  = ok (Some (map (fun i => placement_of doc_in i left_rect
                            ++ placement_of doc_in (i + 1) right_rect)
                  (range 0 (length doc_in) 2))).
Proof.
  intros Hn. unfold create_two_up_pdf.
  destruct (Nat.eqb_spec (length doc_in) 0) as [H0 | _]; [lia |].
  rewrite (for_each_snoc
             (fun i => placement_of doc_in i left_rect
                       ++ placement_of doc_in (i + 1) right_rect)).
  - reflexivity.
  - intros i out Hi. apply two_up_body_spec.
    apply list_elem_of_lookup_1 in Hi as [k Hk].
    rewrite range_lookup in Hk by lia.
    destruct (Nat.ltb_spec (0 + k * 2) (length doc_in)); [| discriminate Hk].
    injection Hk as <-. assumption.
Qed.

Lemma two_up_sheets_lookup (k : nat) (sheet : Sheet) :
  map (fun i => placement_of doc_in i left_rect
                ++ placement_of doc_in (i + 1) right_rect)
      (range 0 (length doc_in) 2) !! k = Some sheet ->
  (2 * k < length doc_in)%nat /\ sheet = two_up_sheet doc_in k.
Proof.
  intros Hk. change (map ?f ?l) with (f <$> l) in Hk.
  rewrite list_lookup_fmap, range_lookup in Hk by lia.
  destruct (Nat.ltb_spec (0 + k * 2) (length doc_in)) as [Hlt |];
    [| discriminate Hk].
  cbn [fmap option_fmap option_map] in Hk. injection Hk as <-.
  split; [lia |]. unfold two_up_sheet.
  replace (2 * k)%nat with (0 + k * 2)%nat by lia. reflexivity.
Qed.

(** C8.  A source of n >= 1 pages gives (n + 1) / 2 sheets, that is
    ceil(n / 2).  Sheet k holds page 2k and then page 2k + 1, when there
    is one; a page judged empty is left out and the sheet still produced.
    A page of positive size is shown in its half of the 842 x 595 sheet:
    page 2k in the left half (0, 0, 421, 595), page 2k + 1 in the right
    half (421, 0, 842, 595), from the top of the half, centred, spanning
    its width or its height, to within a billionth of a point.  With
    five pages there are three sheets, and the third receives page 4
    only, in its left half. *)
Theorem two_up_sheet_count_and_cells :
  (1 <= length doc_in)%nat ->
  exists sheets,
    create_two_up_pdf doc_in = ok (Some sheets)
    /\ length sheets = ((length doc_in + 1) / 2)%nat
    /\ (forall k, (k < (length doc_in + 1) / 2)%nat ->
                  sheets !! k = Some (two_up_sheet doc_in k))
    /\ (forall k sheet,
           sheets !! k = Some sheet ->
           map src_index sheet
           = List.filter (page_shown doc_in) [2 * k; 2 * k + 1]%nat)
    /\ (forall k sheet pl p,
           sheets !! k = Some sheet -> pl ∈ sheet ->
           doc_in !! src_index pl = Some p -> positive_size p ->
           (src_index pl = (2 * k)%nat
            /\ placed_in (show_rect pl) (mkRect 0 0 421 595) (src_rect p))
           \/ (src_index pl = (2 * k + 1)%nat
               /\ placed_in (show_rect pl) (mkRect 421 0 842 595) (src_rect p)))
    /\ (length doc_in = 5%nat ->
        length sheets = 3%nat
        /\ exists sheet,
             sheets !! 2%nat = Some sheet
             /\ map src_index sheet = List.filter (page_shown doc_in) [4%nat]
             /\ (forall pl p,
                    pl ∈ sheet -> doc_in !! 4%nat = Some p -> positive_size p ->
                    placed_in (show_rect pl) (mkRect 0 0 421 595) (src_rect p))).
Proof.
  intros Hn. rewrite (two_up_sheets Hn). eexists. split; [reflexivity |].
  assert (Hlen : length (range 0 (length doc_in) 2)
                 = ((length doc_in + 1) / 2)%nat).
  { apply length_by_bound. intros k. rewrite range_length_iff by lia.
    pose proof (Nat.div_mod_eq (length doc_in + 1) 2) as Hdm.
    pose proof (Nat.mod_upper_bound (length doc_in + 1) 2 ltac:(lia)). lia. }
  assert (Hk : forall k, (k < (length doc_in + 1) / 2)%nat ->
            map (fun i => placement_of doc_in i left_rect
                          ++ placement_of doc_in (i + 1) right_rect)
                (range 0 (length doc_in) 2) !! k
            = Some (two_up_sheet doc_in k)).
  { intros k Hlt. rewrite <- Hlen in Hlt.
    apply range_length_iff in Hlt; [| lia].
    change (map ?f ?l) with (f <$> l). rewrite list_lookup_fmap.
    rewrite range_lookup by lia.
    destruct (Nat.ltb_spec (0 + k * 2) (length doc_in)); [| lia].
    cbn [fmap option_fmap option_map]. unfold two_up_sheet.
    replace (0 + k * 2)%nat with (2 * k)%nat by lia. reflexivity. }
  split; [now rewrite length_map |]. split; [exact Hk |].
  split; [| split].
  - intros k sheet Hs. apply two_up_sheets_lookup in Hs as [_ ->].
    apply two_up_sheet_pages.
  - intros k sheet pl p Hs Hpl Hp Hpos.
    apply two_up_sheets_lookup in Hs as [_ ->].
    exact (two_up_sheet_placed doc_in k pl p Hpl Hp Hpos).
  - intros H5. split; [now rewrite length_map, Hlen, H5 |].
    exists (two_up_sheet doc_in 2). split; [apply Hk; rewrite H5; cbn; lia |].
    split.
    + rewrite two_up_sheet_pages. cbn [List.filter].
      rewrite (page_shown_absent doc_in (2 * 2 + 1)) by (rewrite H5; cbn; lia).
      reflexivity.
    + intros pl p Hpl Hp Hpos.
      assert (Hsrc : src_index pl = 4%nat).
      { assert (Hin : src_index pl ∈ map src_index (two_up_sheet doc_in 2)).
        { change (map ?f ?l) with (f <$> l). now apply list_elem_of_fmap_2. }
        rewrite two_up_sheet_pages in Hin. cbn [List.filter] in Hin.
        rewrite (page_shown_absent doc_in (2 * 2 + 1)) in Hin
          by (rewrite H5; cbn; lia).
        destruct (page_shown doc_in (2 * 2)).
        - now apply list_elem_of_singleton in Hin.
        - now apply elem_of_nil in Hin. }
      rewrite <- Hsrc in Hp.
      destruct (two_up_sheet_placed doc_in 2 pl p Hpl Hp Hpos)
        as [[_ H] | [H _]]; [exact H | lia].
Qed.
End Composer.

Lemma two_up_sheet_count_and_cells_witness :
  exists sheets sheet pl,
    create_two_up_pdf
      [sample_blank_src; sample_src; sample_src; sample_blank_src; sample_src]
    = ok (Some sheets)
    /\ map (map src_index) sheets = [[1]; [2]; [4]]%nat
    /\ sheets !! 2%nat = Some sheet /\ pl ∈ sheet
    /\ placed_in (show_rect pl) (mkRect 0 0 421 595) (src_rect sample_src).
Proof.
  assert (Hnd : Forall (fun p => nondegenerate p = true)
                  [sample_blank_src; sample_src; sample_src; sample_blank_src;
                   sample_src]) by (repeat constructor).
  destruct (two_up_sheet_count_and_cells
              [sample_blank_src; sample_src; sample_src; sample_blank_src;
               sample_src] Hnd ltac:(cbn; lia))
    as (sheets & Hrun & _ & _ & _ & _ & H5).
  destruct (H5 eq_refl) as (_ & sheet & Hs & Hidx & Hin).
  vm_compute in Hrun. injection Hrun as <-.
  injection Hs as <-.
  eexists _, _, _. split; [reflexivity |]. split; [reflexivity |].
  split; [reflexivity |]. split; [left |].
  apply (Hin _ sample_src); [left | reflexivity |].
  split; vm_compute; reflexivity.
Defined.

Lemma range_step_1 (start stop : nat) :
  range start stop 1 = seq start (stop - start).
Proof.
  apply list_eq. intros k. rewrite range_lookup by lia.
  destruct (Nat.ltb_spec (start + k * 1) stop) as [Hlt | Hge].
  - rewrite lookup_seq_lt by lia. f_equal. lia.
  - rewrite lookup_seq_ge by lia. reflexivity.
Qed.

Lemma flat_map_seq_shift {B : Type} (g : nat -> list B) (m : nat) :
  forall s, flat_map g (seq (S s) m) = flat_map (fun j => g (S j)) (seq s m).
Proof.
  induction m as [| m IH]; intros s; cbn [seq flat_map]; [reflexivity |].
  now rewrite IH.
Qed.

Lemma flat_map_seq_trim {B : Type} (g : nat -> list B) (m M : nat) :
  (m <= M)%nat -> (forall j, (m <= j < M)%nat -> g j = []) ->
  flat_map g (seq 0 M) = flat_map g (seq 0 m).
Proof.
  intros Hle Hnil. replace M with (m + (M - m))%nat in * by lia.
  rewrite seq_app, flat_map_app.
  replace (flat_map g (seq (0 + m) (M - m))) with (@nil B);
    [now rewrite app_nil_r |].
  symmetry. cbn [Nat.add].
  assert (Hgen : forall d s, (m <= s)%nat -> (s + d <= m + (M - m))%nat ->
                             flat_map g (seq s d) = []).
  { induction d as [| d IH]; intros s Hs Hd; cbn [seq flat_map];
      [reflexivity |].
    rewrite Hnil by lia. apply IH; lia. }
  apply Hgen; lia.
Qed.

Lemma flat_map_shown (shown : nat -> bool) (l : list nat) :
  flat_map (fun i => if shown i then [i] else []) l = List.filter shown l.
Proof.
  induction l as [| i l IH]; cbn [flat_map List.filter]; [reflexivity |].
  rewrite IH. now destruct (shown i).
Qed.

Lemma thumb_sheet_pages (doc_in : list SrcPage) (k : nat) :
  map src_index (thumb_sheet doc_in k)
  = flat_map (fun i => if page_shown doc_in (S (k * 6 + i)) then [S (k * 6 + i)]
                       else [])
             (seq 0 6).
Proof.
  unfold thumb_sheet. cbn [seq flat_map]. rewrite !map_app, !placement_of_pages.
  replace (6 * k + 1 + 0)%nat with (S (k * 6 + 0)) by lia.
  replace (6 * k + 1 + 1)%nat with (S (k * 6 + 1)) by lia.
  replace (6 * k + 1 + 2)%nat with (S (k * 6 + 2)) by lia.
  replace (6 * k + 1 + 3)%nat with (S (k * 6 + 3)) by lia.
  replace (6 * k + 1 + 4)%nat with (S (k * 6 + 4)) by lia.
  replace (6 * k + 1 + 5)%nat with (S (k * 6 + 5)) by lia.
  reflexivity.
Qed.

Lemma thumb_sheet_shown (doc_in : list SrcPage) (k : nat) :
  map src_index (thumb_sheet doc_in k)
  = List.filter (page_shown doc_in) (seq (6 * k + 1) 6).
Proof.
  rewrite thumb_sheet_pages, <- flat_map_shown. cbn [seq flat_map].
  replace (6 * k + 1)%nat with (S (k * 6)) by lia.
  rewrite !Nat.add_0_r.
  replace (S (k * 6 + 1)) with (S (S (k * 6))) by lia.
  replace (S (k * 6 + 2)) with (S (S (S (k * 6)))) by lia.
  replace (S (k * 6 + 3)) with (S (S (S (S (k * 6))))) by lia.
  replace (S (k * 6 + 4)) with (S (S (S (S (S (k * 6)))))) by lia.
  replace (S (k * 6 + 5)) with (S (S (S (S (S (S (k * 6))))))) by lia.
  reflexivity.
Qed.

Lemma thumb_sheet_elem (doc_in : list SrcPage) (k : nat) (pl : Placement) :
  pl ∈ thumb_sheet doc_in k ->
  exists i, (i < 6)%nat
            /\ pl ∈ placement_of doc_in (6 * k + 1 + i) (thumb_rect i).
Proof.
  unfold thumb_sheet. intros Hin.
  apply list_elem_of_In, in_flat_map in Hin as (i & Hi & Hin).
  apply in_seq in Hi. exists i. split; [lia | now apply list_elem_of_In].
Qed.

Lemma thumb_sheet_placed (doc_in : list SrcPage) (k : nat) (pl : Placement)
    (p : SrcPage) :
  pl ∈ thumb_sheet doc_in k ->
  doc_in !! src_index pl = Some p -> positive_size p ->
  exists i,
    (i < 6)%nat /\ src_index pl = (6 * k + 1 + i)%nat
    /\ placed_in (show_rect pl) (grid_cell i) (src_rect p).
Proof.
  intros Hin Hp Hpos. apply thumb_sheet_elem in Hin as (i & Hi & Hin).
  destruct (thumb_rect_cell i Hi) as (H1 & H2 & H3).
  exists i. split; [exact Hi |].
  exact (placement_of_placed_in doc_in _ _ _ pl p H1 H2 H3 Hin Hp Hpos).
Qed.

Section Thumbnails.
Variable doc_in : list SrcPage.
Hypothesis pages_nondegenerate : Forall (fun p => nondegenerate p = true) doc_in.

Lemma thumb_chunk_spec (m : nat) :
  forall a i sheet,
    (a + m <= length doc_in)%nat ->
    thumb_chunk doc_in i (seq a m) sheet
    = ok (sheet
          ++ flat_map (fun j => placement_of doc_in (a + j) (thumb_rect (i + j)))
                      (seq 0 m)).
Proof.
  induction m as [| m IH]; intros a i sheet Ham; cbn [seq thumb_chunk].
  - cbn [flat_map]. now rewrite app_nil_r.
  - rewrite (try_place_spec doc_in pages_nondegenerate) by lia. cbn [bind ok].
    rewrite IH by lia. cbn [flat_map].
    rewrite (flat_map_seq_shift
               (fun j => placement_of doc_in (a + j) (thumb_rect (i + j)))).
    rewrite !Nat.add_0_r, <- app_assoc. do 3 f_equal.
    apply flat_map_ext. intros j. f_equal; [lia | f_equal; lia].
Qed.

Lemma thumb_body_spec (k : nat) (doc_out : list Sheet) :
  (6 * k < length doc_in - 1)%nat ->
  thumb_body doc_in (seq 1 (length doc_in - 1)) (k * 6) doc_out
  = ok (doc_out ++ [thumb_sheet doc_in k]).
Proof.
  intros Hk. unfold thumb_body.
  rewrite drop_seq, take_seq.
  change thumbs_per_page with 6%nat.
  rewrite thumb_chunk_spec by lia. cbn [bind ok app]. do 3 f_equal.
  unfold thumb_sheet. symmetry.
  rewrite (flat_map_seq_trim _ (6 `min` (length doc_in - 1 - k * 6)) 6).
  - apply flat_map_ext. intros j. f_equal. lia.
  - lia.
  - intros j Hj. apply placement_of_absent. lia.
Qed.

Lemma thumbnail_sheets :
  (2 <= length doc_in)%nat ->
  create_six_page_thumbnail_pdf doc_in
  = ok (Some (map (fun start_idx => thumb_sheet doc_in (start_idx / 6))
                  (range 0 (length doc_in - 1) 6))).
Proof.
  intros Hn. unfold create_six_page_thumbnail_pdf.
  destruct (Nat.ltb_spec (length doc_in) 2) as [Hlt | _]; [lia |].
  rewrite range_step_1, length_seq. change thumbs_per_page with 6%nat.
  rewrite (for_each_snoc (fun start_idx => thumb_sheet doc_in (start_idx / 6))).
  - reflexivity.
  - intros start_idx out Hin.
    apply list_elem_of_lookup_1 in Hin as [k Hk].
    rewrite range_lookup in Hk by lia.
    destruct (Nat.ltb_spec (0 + k * 6) (length doc_in - 1)); [| discriminate Hk].
    injection Hk as <-. cbn [Nat.add].
    rewrite Nat.div_mul by lia. apply thumb_body_spec. lia.
Qed.

Lemma thumbnail_sheets_lookup (k : nat) (sheet : Sheet) :
  map (fun start_idx => thumb_sheet doc_in (start_idx / 6))
      (range 0 (length doc_in - 1) 6) !! k = Some sheet ->
  (6 * k < length doc_in - 1)%nat /\ sheet = thumb_sheet doc_in k.
Proof.
  intros Hk. change (map ?f ?l) with (f <$> l) in Hk.
  rewrite list_lookup_fmap, range_lookup in Hk by lia.
  destruct (Nat.ltb_spec (0 + k * 6) (length doc_in - 1)) as [Hlt |];
    [| discriminate Hk].
  cbn [fmap option_fmap option_map Nat.add] in Hk.
  rewrite Nat.div_mul in Hk by lia. injection Hk as <-.
  split; [lia | reflexivity].
Qed.

Lemma thumb_sheet_skips_first_page (k : nat) :
  Forall (fun pl => (1 <= src_index pl)%nat) (thumb_sheet doc_in k).
Proof.
  unfold thumb_sheet. generalize (seq 0 6). intros l.
  induction l as [| i l IH]; cbn [flat_map]; [constructor |].
  apply Forall_app. split; [| exact IH].
  eapply Forall_impl; [apply placement_of_src_index |].
  cbn beta. intros pl ->. lia.
Qed.

(** C9.  A source of fewer than two pages gives no output.  Otherwise
    page 0 is never placed, there are ceil((n - 1) / 6) sheets, and sheet
    k holds the pages 6k + 1 .. 6k + 6 that exist and are not judged
    empty, in this order.  Page 6k + 1 + i, when of positive size, is
    shown in cell i of the grid of 3 columns and 2 rows on the 595 x 842
    sheet, the cells counted from left to right and then from top to
    bottom: from the top of the cell, centred, spanning its width or its
    height, to within a billionth of a point.  A source of seven pages
    whose content pages are not empty gives one sheet holding pages 1 to
    6, one in each of the six cells, page 1 in the cell at the top-left
    corner (0, 0, 595/3, 421). *)
Theorem thumbnail_grid_skips_first_page :
  ((length doc_in < 2)%nat -> create_six_page_thumbnail_pdf doc_in = ok None)
  /\ ((2 <= length doc_in)%nat ->
      exists sheets,
        create_six_page_thumbnail_pdf doc_in = ok (Some sheets)
        /\ length sheets = ((length doc_in - 1 + 5) / 6)%nat
        /\ (forall k, (k < length sheets)%nat ->
                      sheets !! k = Some (thumb_sheet doc_in k))
        /\ Forall (Forall (fun pl => (1 <= src_index pl)%nat)) sheets
        /\ (forall k sheet,
               sheets !! k = Some sheet ->
               map src_index sheet
               = List.filter (page_shown doc_in) (seq (6 * k + 1) 6))
        /\ (forall k sheet pl p,
               sheets !! k = Some sheet -> pl ∈ sheet ->
               doc_in !! src_index pl = Some p -> positive_size p ->
               exists i,
                 (i < 6)%nat /\ src_index pl = (6 * k + 1 + i)%nat
                 /\ placed_in (show_rect pl) (grid_cell i) (src_rect p))
        /\ (length doc_in = 7%nat ->
            (forall i p, (1 <= i)%nat -> doc_in !! i = Some p ->
                         src_empty p = false) ->
            exists sheet,
              sheets = [sheet]
              /\ map src_index sheet = [1; 2; 3; 4; 5; 6]%nat
              /\ (forall i pl p,
                     sheet !! i = Some pl ->
                     doc_in !! (1 + i)%nat = Some p -> positive_size p ->
                     src_index pl = (1 + i)%nat
                     /\ placed_in (show_rect pl) (grid_cell i) (src_rect p))
              /\ Rect_eq (grid_cell 0) (mkRect 0 0 (595 # 3) 421))).
Proof.
  split.
  - intros Hn. unfold create_six_page_thumbnail_pdf.
    destruct (Nat.ltb_spec (length doc_in) 2) as [_ | Hge]; [reflexivity | lia].
  - intros Hn. rewrite (thumbnail_sheets Hn). eexists. split; [reflexivity |].
    assert (Hlen : length (range 0 (length doc_in - 1) 6)
                   = ((length doc_in - 1 + 5) / 6)%nat).
    { apply length_by_bound. intros k. rewrite range_length_iff by lia.
      pose proof (Nat.div_mod_eq (length doc_in - 1 + 5) 6) as Hdm.
      pose proof (Nat.mod_upper_bound (length doc_in - 1 + 5) 6 ltac:(lia)).
      lia. }
    split; [now rewrite length_map |].
    split; [| split; [| split; [| split]]].
    + intros k Hk. rewrite length_map in Hk.
      apply range_length_iff in Hk; [| lia].
      change (map ?f ?l) with (f <$> l). rewrite list_lookup_fmap.
      rewrite range_lookup by lia.
      destruct (Nat.ltb_spec (0 + k * 6) (length doc_in - 1)); [| lia].
      cbn [fmap option_fmap option_map Nat.add].
      now rewrite Nat.div_mul by lia.
    + apply Forall_forall. intros sheet Hin.
      change (map ?f ?l) with (f <$> l) in Hin.
      apply list_elem_of_fmap in Hin as (start_idx & -> & _).
      apply thumb_sheet_skips_first_page.
    + intros k sheet Hs. apply thumbnail_sheets_lookup in Hs as [_ ->].
      apply thumb_sheet_shown.
    + intros k sheet pl p Hs Hpl Hp Hpos.
      apply thumbnail_sheets_lookup in Hs as [_ ->].
      exact (thumb_sheet_placed doc_in k pl p Hpl Hp Hpos).
    + intros H7 Hfull.
      destruct doc_in as [| p0 [| p1 [| p2 [| p3 [| p4 [| p5 [| p6 [| ? ?]]]]]]]];
        try discriminate H7.
      exists (thumb_sheet [p0; p1; p2; p3; p4; p5; p6] 0).
      pose proof (Hfull 1%nat p1 ltac:(lia) eq_refl) as H1.
      pose proof (Hfull 2%nat p2 ltac:(lia) eq_refl) as H2.
      pose proof (Hfull 3%nat p3 ltac:(lia) eq_refl) as H3.
      pose proof (Hfull 4%nat p4 ltac:(lia) eq_refl) as H4.
      pose proof (Hfull 5%nat p5 ltac:(lia) eq_refl) as H5.
      pose proof (Hfull 6%nat p6 ltac:(lia) eq_refl) as H6.
      split; [reflexivity |].
      assert (Hidx : map src_index (thumb_sheet [p0; p1; p2; p3; p4; p5; p6] 0)
                     = [1; 2; 3; 4; 5; 6]%nat).
      { unfold thumb_sheet, placement_of.
        cbn [flat_map seq lookup list_lookup Nat.add Nat.mul app].
        rewrite H1, H2, H3, H4, H5, H6. reflexivity. }
      split; [exact Hidx |]. split; [| vm_compute; repeat split; reflexivity].
      intros i pl p Hpl Hp Hpos.
      assert (Hsrc : src_index pl = (1 + i)%nat).
      { assert (Hi : map src_index (thumb_sheet [p0; p1; p2; p3; p4; p5; p6] 0)
                       !! i = Some (src_index pl)).
        { change (map ?f ?l) with (f <$> l). rewrite list_lookup_fmap.
          exact (f_equal (fmap src_index) Hpl). }
        rewrite Hidx in Hi.
        do 6 (destruct i as [| i]; [now injection Hi as <- |]).
        discriminate Hi. }
      split; [exact Hsrc |].
      rewrite <- Hsrc in Hp.
      destruct (thumb_sheet_placed [p0; p1; p2; p3; p4; p5; p6] 0 pl p
                  (list_elem_of_lookup_2 _ _ _ Hpl) Hp Hpos)
        as (j & Hj & Hsrc' & Hplaced).
      replace i with j by lia. exact Hplaced.
Qed.
End Thumbnails.

Lemma thumbnail_grid_skips_first_page_witness :
  exists sheets sheet pl,
    create_six_page_thumbnail_pdf
      [sample_blank_src; sample_src; sample_src; sample_src; sample_src;
       sample_src; sample_src]
    = ok (Some sheets)
    /\ map (map src_index) sheets = [[1; 2; 3; 4; 5; 6]]%nat
    /\ sheets = [sheet] /\ sheet !! 0%nat = Some pl
    /\ placed_in (show_rect pl) (grid_cell 0) (src_rect sample_src).
Proof.
  assert (Hnd : Forall (fun p => nondegenerate p = true)
                  [sample_blank_src; sample_src; sample_src; sample_src;
                   sample_src; sample_src; sample_src])
    by (repeat constructor).
  destruct (thumbnail_grid_skips_first_page
              [sample_blank_src; sample_src; sample_src; sample_src; sample_src;
               sample_src; sample_src] Hnd)
    as (_ & Hsheets).
  destruct (Hsheets ltac:(cbn; lia))
    as (sheets & Hrun & _ & _ & _ & _ & _ & H7).
  destruct (H7 eq_refl) as (sheet & Hone & Hidx & Hcells & _).
  { intros i p Hi Hp.
    do 7 (destruct i as [| i]; [first [lia | now injection Hp as <-] |]).
    discriminate Hp. }
  vm_compute in Hrun. injection Hrun as <-. injection Hone as <-.
  eexists _, _, _. split; [reflexivity |]. split; [reflexivity |].
  split; [reflexivity |]. split; [reflexivity |].
  apply (Hcells 0%nat _ sample_src); [reflexivity | reflexivity |].
  split; vm_compute; reflexivity.
Defined.

(** * Further properties *)

(** ** Scale-to-fit placement *)

Lemma near_refl (e : Q) (r : Rect) : (0 <= e)%Q -> near e r r.
Proof.
  intros He. unfold near.
  repeat split; apply Qabs_Qle_condition; lra.
Qed.

(** X1.  [place_page_full], for a page that is not empty and has a
    positive width and height and for a target on the sheet, shows the
    page in a rectangle whose top edge is that of the target and whose
    other edges are within 10^-11 points of the rectangle of the exact
    computation.  The exact rectangle starts at the top of the target,
    lies inside it, leaves equal margins left and right, keeps the
    page's aspect ratio and fills the target's width or its height; the
    computed one does so to within a billionth of a point. *)
Theorem place_page_full_fits_cell
    (sheet : Sheet) (doc_in : list SrcPage) (i : nat) (target_rect : Rect)
    (p : SrcPage) :
  doc_in !! i = Some p ->
  src_empty p = false ->
  positive_size p ->
  on_sheet target_rect ->
  exists r,
    place_page_full sheet doc_in i target_rect = ok (sheet ++ [mkPlacement r i])
    /\ y0 r = y0 target_rect
    /\ near fit_error r (exact_fit target_rect (src_rect p))
    /\ placed_in r target_rect (src_rect p)
    /\ (y0 (exact_fit target_rect (src_rect p)) == y0 target_rect
        /\ inside (exact_fit target_rect (src_rect p)) target_rect
        /\ x0 (exact_fit target_rect (src_rect p)) - x0 target_rect
           == x1 target_rect - x1 (exact_fit target_rect (src_rect p))
        /\ width (exact_fit target_rect (src_rect p)) * height (src_rect p)
           == height (exact_fit target_rect (src_rect p)) * width (src_rect p)
        /\ (width (exact_fit target_rect (src_rect p)) == width target_rect
            \/ height (exact_fit target_rect (src_rect p))
               == height target_rect))%Q.
Proof.
  intros Hp Hempty [Hw Hh] Ht. exists (fitted target_rect (src_rect p)).
  destruct (fitted_near_exact target_rect (src_rect p) Ht Hw Hh)
    as (Hy & _ & Hnear).
  split; [| split; [exact Hy | split; [exact Hnear | split]]].
  - pose proof (positive_size_nondegenerate p (conj Hw Hh)) as Hnd.
    unfold nondegenerate in Hnd. apply andb_true_iff in Hnd as [Hw0 Hh0].
    apply negb_true_iff in Hw0, Hh0.
    unfold place_page_full, index, div. rewrite Hp. cbn [bind ok].
    rewrite Hw0. cbn [bind ok]. rewrite Hh0. cbn [bind ok].
    now rewrite Hempty.
  - apply fitted_placed_in; try assumption; [| reflexivity].
    apply near_refl. unfold cell_error. lra.
  - destruct Ht as (Hx0 & Hx & Hx1 & Hy0 & Hyy & Hy1).
    destruct (exact_fit_geometry target_rect (src_rect p))
      as (He0 & He1 & He2 & He3 & He4 & He5 & He6);
      try assumption; try (unfold width, height; lra).
    split; [exact He0 |]. split; [| split; [exact He4 | split; assumption]].
    unfold inside. repeat split; try assumption. rewrite He0. apply Qle_refl.
Qed.

Lemma place_page_full_fits_cell_witness :
  exists r,
    place_page_full [] [mkSrc (mkRect 0 0 300 400) false] 0 (mkRect 0 0 150 150)
    = ok [mkPlacement r 0]
    /\ (x0 r == 75 # 4 /\ y0 r == 0 /\ width r == 225 # 2 /\ height r == 150)%Q.
Proof.
  destruct (place_page_full_fits_cell [] [mkSrc (mkRect 0 0 300 400) false] 0
              (mkRect 0 0 150 150) (mkSrc (mkRect 0 0 300 400) false)
              eq_refl eq_refl) as (r & Hrun & _).
  - split; vm_compute; reflexivity.
  - vm_compute. repeat split; discriminate.
  - exists r. split; [exact Hrun |].
    vm_compute in Hrun. injection Hrun as <-. repeat split.
Defined.

(** ** Every page that can be shown is placed once *)

Lemma placed_pages_map {A : Type} (f : A -> Sheet) (l : list A) :
  placed_pages (map f l) = flat_map (fun a => map src_index (f a)) l.
Proof.
  unfold placed_pages. induction l as [| a l IH]; cbn [map flat_map];
    [reflexivity |]. now rewrite IH.
Qed.

Lemma flat_map_seq_offset {B : Type} (g : nat -> list B) (d : nat) :
  forall s, flat_map (fun i => g (s + i)%nat) (seq 0 d) = flat_map g (seq s d).
Proof.
  induction d as [| d IH]; intros s; cbn [seq flat_map]; [reflexivity |].
  rewrite Nat.add_0_r. f_equal.
  rewrite (flat_map_seq_shift (fun i => g (s + i)%nat)).
  rewrite <- (IH (S s)). apply flat_map_ext. intros i. f_equal. lia.
Qed.

(** Walking a range in steps of [step] and taking [step] numbers at each
    stop visits every number of the range once. *)
Lemma flat_map_range_chunks {B : Type} (g : nat -> list B) (stop step : nat) :
  (1 <= step)%nat ->
  (forall j, (stop <= j)%nat -> g j = []) ->
  forall fuel start,
    (stop <= start + fuel)%nat ->
    flat_map (fun s => flat_map (fun i => g (s + i)%nat) (seq 0 step))
             (range_from fuel start stop step)
    = flat_map g (seq start (stop - start)).
Proof.
  intros Hstep Hnil. induction fuel as [| fuel IH]; intros start Hfuel;
    cbn [range_from].
  - replace (stop - start)%nat with 0%nat by lia. reflexivity.
  - destruct (Nat.ltb_spec start stop) as [Hlt | Hge].
    + cbn [flat_map]. rewrite IH by lia. rewrite flat_map_seq_offset.
      destruct (Nat.le_gt_cases step (stop - start)) as [Hfull | Hpart].
      * assert (Hsplit : seq start (stop - start)
                         = seq start step
                           ++ seq (start + step) (stop - (start + step))).
        { rewrite <- seq_app. f_equal. lia. }
        now rewrite Hsplit, flat_map_app.
      * replace (stop - (start + step))%nat with 0%nat by lia.
        cbn [seq flat_map]. rewrite app_nil_r.
        assert (Hsplit : seq start step
                         = seq start (stop - start)
                           ++ seq (start + (stop - start)) (step - (stop - start))).
        { rewrite <- seq_app. f_equal. lia. }
        rewrite Hsplit, flat_map_app.
        replace (flat_map g (seq (start + (stop - start))
                                 (step - (stop - start)))) with (@nil B);
          [now rewrite app_nil_r |].
        symmetry. generalize (step - (stop - start))%nat.
        assert (Hs : (stop <= start + (stop - start))%nat) by lia.
        revert Hs. generalize (start + (stop - start))%nat.
        intros s Hs d. revert s Hs.
        induction d as [| d IHd]; intros s Hs; cbn [seq flat_map];
          [reflexivity |].
        rewrite Hnil by lia. apply IHd. lia.
    + replace (stop - start)%nat with 0%nat by lia. reflexivity.
Qed.

(** X2.  The 2-up sheets place every source page that is not judged
    empty exactly once, in page order, and no other page; a sheet never
    holds more than two pages. *)
Theorem two_up_places_each_page_once (doc_in : list SrcPage) :
  Forall (fun p => nondegenerate p = true) doc_in ->
  (1 <= length doc_in)%nat ->
  exists sheets,
    create_two_up_pdf doc_in = ok (Some sheets)
    /\ placed_pages sheets
       = List.filter (page_shown doc_in) (seq 0 (length doc_in))
    /\ Forall (fun sheet : Sheet => (length sheet <= 2)%nat) sheets.
Proof.
  intros Hnd Hn. rewrite (two_up_sheets doc_in Hnd Hn).
  eexists. split; [reflexivity |]. split.
  - rewrite placed_pages_map, <- flat_map_shown.
    rewrite <- (Nat.sub_0_r (length doc_in)) at 2.
    rewrite <- (flat_map_range_chunks
                  (fun i => if page_shown doc_in i then [i] else [])
                  (length doc_in) 2 ltac:(lia)
                  ltac:(intros j Hj; cbn beta; now rewrite page_shown_absent)
                  (length doc_in) 0%nat ltac:(lia)).
    apply flat_map_ext. intros i. rewrite map_app, !placement_of_pages.
    cbn [seq flat_map]. now rewrite Nat.add_0_r, app_nil_r.
  - apply Forall_forall. intros sheet Hin.
    change (map ?f ?l) with (f <$> l) in Hin.
    apply list_elem_of_fmap in Hin as (i & -> & _).
    rewrite length_app.
    assert (Hone : forall j t, (length (placement_of doc_in j t) <= 1)%nat).
    { intros j t. unfold placement_of. destruct (doc_in !! j) as [p |];
        [destruct (src_empty p) |]; cbn; lia. }
    pose proof (Hone i left_rect). pose proof (Hone (i + 1)%nat right_rect). lia.
Qed.

Lemma two_up_places_each_page_once_witness :
  exists sheets,
    create_two_up_pdf
      [sample_blank_src; sample_src; sample_src; sample_blank_src; sample_src]
    = ok (Some sheets)
    /\ placed_pages sheets = [1; 2; 4]%nat.
Proof.
  assert (Hnd : Forall (fun p => nondegenerate p = true)
                  [sample_blank_src; sample_src; sample_src; sample_blank_src;
                   sample_src]) by (repeat constructor).
  destruct (two_up_places_each_page_once
              [sample_blank_src; sample_src; sample_src; sample_blank_src;
               sample_src] Hnd ltac:(cbn; lia))
    as (sheets & Hrun & Hpages & _).
  exists sheets. split; [exact Hrun | exact Hpages].
Defined.

Lemma thumb_sheet_length (doc_in : list SrcPage) (k : nat) :
  (length (thumb_sheet doc_in k) <= 6)%nat.
Proof.
  rewrite <- (length_map src_index), thumb_sheet_pages.
  cbn [seq flat_map]. rewrite !length_app.
  repeat match goal with
         | |- context [if ?b then _ else _] => destruct b
         end; cbn [length]; lia.
Qed.

(** X3.  The thumbnail sheets place every source page other than page 0
    that is not judged empty exactly once, in page order, and never
    page 0; a sheet never holds more than six pages. *)
Theorem thumbnails_place_each_content_page_once (doc_in : list SrcPage) :
  Forall (fun p => nondegenerate p = true) doc_in ->
  (2 <= length doc_in)%nat ->
  exists sheets,
    create_six_page_thumbnail_pdf doc_in = ok (Some sheets)
    /\ placed_pages sheets
       = List.filter (page_shown doc_in) (seq 1 (length doc_in - 1))
    /\ Forall (fun sheet : Sheet => (length sheet <= 6)%nat) sheets.
Proof.
  intros Hnd Hn. rewrite (thumbnail_sheets doc_in Hnd Hn).
  eexists. split; [reflexivity |]. split.
  - rewrite placed_pages_map, <- flat_map_shown.
    rewrite (flat_map_seq_shift
               (fun i => if page_shown doc_in i then [i] else [])).
    rewrite <- (Nat.sub_0_r (length doc_in - 1)) at 2.
    rewrite <- (flat_map_range_chunks
                  (fun j => if page_shown doc_in (S j) then [S j] else [])
                  (length doc_in - 1) 6 ltac:(lia)
                  ltac:(intros j Hj; cbn beta;
                        rewrite page_shown_absent by lia; reflexivity)
                  (length doc_in - 1) 0%nat ltac:(lia)).
    fold (range 0 (length doc_in - 1) 6).
    assert (Hmul : Forall (fun s => exists k, s = (k * 6)%nat)
                          (range 0 (length doc_in - 1) 6)).
    { apply Forall_forall. intros s Hs.
      apply list_elem_of_lookup_1 in Hs as [k Hk].
      rewrite range_lookup in Hk by lia.
      destruct (Nat.ltb_spec (0 + k * 6) (length doc_in - 1)); [| discriminate Hk].
      injection Hk as <-. now exists k. }
    induction Hmul as [| s l (k & ->) _ IH]; cbn [flat_map]; [reflexivity |].
    rewrite IH. f_equal. rewrite Nat.div_mul by lia. apply thumb_sheet_pages.
  - apply Forall_forall. intros sheet Hin.
    change (map ?f ?l) with (f <$> l) in Hin.
    apply list_elem_of_fmap in Hin as (s & -> & _).
    apply thumb_sheet_length.
Qed.

Lemma thumbnails_place_each_content_page_once_witness :
  exists sheets,
    create_six_page_thumbnail_pdf
      [sample_src; sample_src; sample_blank_src; sample_src; sample_src;
       sample_src; sample_src; sample_src; sample_src]
    = ok (Some sheets)
    /\ placed_pages sheets = [1; 3; 4; 5; 6; 7; 8]%nat.
Proof.
  assert (Hnd : Forall (fun p => nondegenerate p = true)
                  [sample_src; sample_src; sample_blank_src; sample_src;
                   sample_src; sample_src; sample_src; sample_src; sample_src])
    by (repeat constructor).
  destruct (thumbnails_place_each_content_page_once
              [sample_src; sample_src; sample_blank_src; sample_src; sample_src;
               sample_src; sample_src; sample_src; sample_src]
              Hnd ltac:(cbn; lia))
    as (sheets & Hrun & Hpages & _).
  exists sheets. split; [exact Hrun | exact Hpages].
Defined.

(** ** A page without width or height *)

Lemma for_each_raises {A S : Type} (e : exn) (body : A -> S -> result S)
    (l : list A) :
  (forall a out, a ∈ l ->
                 body a out = raise e \/ exists out', body a out = ok out') ->
  (exists a, a ∈ l /\ forall out, body a out = raise e) ->
  forall out, for_each l body out = raise e.
Proof.
  induction l as [| a l IH]; intros Hall (b & Hb & Hraise) out.
  - inversion Hb.
  - cbn [for_each]. destruct (Hall a out ltac:(left)) as [-> | (out' & Hok)];
      [reflexivity |].
    apply elem_of_cons in Hb as [-> | Hb].
    + rewrite Hraise in Hok. discriminate Hok.
    + rewrite Hok. cbn [bind ok]. apply IH.
      * intros a' o Ha'. apply Hall. now right.
      * now exists b.
Qed.

Lemma try_place_degenerate (sheet : Sheet) (doc_in : list SrcPage) (i : nat)
    (target_rect : Rect) (p : SrcPage) :
  doc_in !! i = Some p -> nondegenerate p = false ->
  try_place sheet doc_in i target_rect = raise ZeroDivisionError.
Proof.
  intros Hp Hnd. unfold try_place, place_page_full, index, div.
  rewrite Hp. cbn [bind ok]. unfold nondegenerate in Hnd.
  destruct (Qeq_bool (float_width (src_rect p)) 0); [reflexivity |].
  cbn [bind ok]. destruct (Qeq_bool (float_height (src_rect p)) 0); [reflexivity |].
  discriminate Hnd.
Qed.

Lemma try_place_ok_or_division (sheet : Sheet) (doc_in : list SrcPage)
    (i : nat) (target_rect : Rect) :
  (i < length doc_in)%nat ->
  try_place sheet doc_in i target_rect = raise ZeroDivisionError
  \/ exists sheet', try_place sheet doc_in i target_rect = ok sheet'.
Proof.
  intros Hi. destruct (lookup_lt_is_Some_2 doc_in i Hi) as [p Hp].
  unfold try_place, place_page_full, index, div. rewrite Hp. cbn [bind ok].
  destruct (Qeq_bool (float_width (src_rect p)) 0); [now left |]. cbn [bind ok].
  destruct (Qeq_bool (float_height (src_rect p)) 0); [now left |]. cbn [bind ok].
  right. destruct (src_empty p); cbn [try_except raise catch_ValueError];
    now eexists.
Qed.

(** X4.  Only the renderer's [ValueError] is swallowed: when some page of
    the source has a zero width or height, empty or not,
    [create_two_up_pdf] ends with the [ZeroDivisionError] of the scale
    computation and saves nothing. *)
Theorem two_up_division_error_not_swallowed
    (doc_in : list SrcPage) (i : nat) (p : SrcPage) :
  doc_in !! i = Some p ->
  nondegenerate p = false ->
  create_two_up_pdf doc_in = raise ZeroDivisionError.
Proof.
  intros Hp Hnd. pose proof (lookup_lt_Some _ _ _ Hp) as Hi.
  unfold create_two_up_pdf.
  destruct (Nat.eqb_spec (length doc_in) 0) as [H0 | _]; [lia |].
  rewrite (for_each_raises ZeroDivisionError); [reflexivity | |].
  - intros a out Ha. apply list_elem_of_lookup_1 in Ha as [k Hk].
    rewrite range_lookup in Hk by lia.
    destruct (Nat.ltb_spec (0 + k * 2) (length doc_in)) as [Ha |];
      [| discriminate Hk].
    injection Hk as <-. cbn [Nat.add] in Ha |- *. unfold two_up_body. cbn zeta.
    destruct (try_place_ok_or_division [] doc_in (k * 2) left_rect Ha)
      as [-> | (p1 & ->)]; [now left |].
    cbn [bind ok].
    destruct (Nat.ltb_spec (k * 2 + 1) (length doc_in)) as [Hb | _].
    + destruct (try_place_ok_or_division p1 doc_in (k * 2 + 1) right_rect Hb)
        as [-> | (p2 & ->)]; [now left | right; now eexists].
    + right. now eexists.
  - exists (i / 2 * 2)%nat. split.
    + apply (list_elem_of_lookup_2 _ (i / 2)). rewrite range_lookup by lia.
      pose proof (Nat.div_mod_eq i 2).
      destruct (Nat.ltb_spec (0 + i / 2 * 2) (length doc_in)); [reflexivity | lia].
    + intros out. unfold two_up_body. cbn zeta.
      pose proof (Nat.div_mod_eq i 2) as Hdm.
      pose proof (Nat.mod_upper_bound i 2 ltac:(lia)) as Hmod.
      destruct (Nat.eq_dec (i mod 2) 0) as [Hev | Hodd].
      * replace (i / 2 * 2)%nat with i by lia.
        now rewrite (try_place_degenerate [] doc_in i left_rect p Hp Hnd).
      * assert (Hi1 : (i / 2 * 2 + 1)%nat = i) by lia.
        destruct (try_place_ok_or_division [] doc_in (i / 2 * 2) left_rect
                    ltac:(lia)) as [-> | (p1 & ->)]; [reflexivity |].
        cbn [bind ok]. rewrite Hi1.
        destruct (Nat.ltb_spec i (length doc_in)) as [_ | Hge]; [| lia].
        now rewrite (try_place_degenerate p1 doc_in i right_rect p Hp Hnd).
Qed.

Lemma two_up_division_error_not_swallowed_witness :
  create_two_up_pdf
    [sample_src; sample_src; mkSrc (mkRect 10 0 10 792) true]
  = raise ZeroDivisionError.
Proof.
  apply (two_up_division_error_not_swallowed
           [sample_src; sample_src; mkSrc (mkRect 10 0 10 792) true] 2
           (mkSrc (mkRect 10 0 10 792) true) eq_refl eq_refl).
Defined.

(** ** What the personalization scan writes *)

Lemma highlight_words_spec (words : list Word) :
  forall annots,
    highlight_words words annots
    = annots
      ++ map (fun w => mkAnnot (word_rect w) yellow_color)
             (List.filter
                (fun w => negb (contains "personalization:" (lower (wtext w))))
                words).
Proof.
  unfold highlight_words.
  induction words as [| w words IH]; intros annots;
    cbn [fold_left List.filter]; [now rewrite app_nil_r |].
  rewrite IH.
  destruct (contains "personalization:" (lower (wtext w))); cbn [negb map];
    [reflexivity | now rewrite <- app_assoc].
Qed.

Section Written.
Variable opts : Options.
Variable page_index : nat.
Variable lines : list Line.

Lemma written_nil (o : Sink) : written opts page_index [] o = o.
Proof.
  unfold written. destruct o as [doc ann]. cbn [personalization_doc page_annots].
  destruct (extract_text opts), (highlight_personalization opts);
    cbn [map flat_map]; now rewrite !app_nil_r.
Qed.

Lemma written_cons (l : Line) (E : list Line) (o : Sink) :
  written opts page_index E (emit_line opts page_index l o)
  = written opts page_index (l :: E) o.
Proof.
  unfold written, emit_line. cbn [personalization_doc page_annots].
  f_equal.
  - destruct (extract_text opts); cbn [map]; [| reflexivity].
    now rewrite <- app_assoc.
  - destruct (highlight_personalization opts); cbn [flat_map]; [| reflexivity].
    rewrite highlight_words_spec. fold (word_highlights l).
    now rewrite <- app_assoc.
Qed.

Lemma written_app (E1 E2 : list Line) :
  forall o,
    written opts page_index E2 (written opts page_index E1 o)
    = written opts page_index (E1 ++ E2) o.
Proof.
  induction E1 as [| l E1 IH]; intros o; cbn [app].
  - now rewrite written_nil.
  - now rewrite <- !written_cons, IH.
Qed.

Lemma segment_cons (n j : nat) (l : Line) :
  lines !! n = Some l -> (n < j)%nat ->
  segment lines n j = l :: segment lines (n + 1) j.
Proof.
  intros Hl Hlt. unfold segment. rewrite (drop_S _ _ _ Hl).
  replace (j - n)%nat with (S (j - (n + 1))) by lia.
  cbn [take]. now replace (n + 1)%nat with (S n) by lia.
Qed.

Lemma block_loop_sink (fuel : nat) :
  forall n o j o',
    block_loop opts page_index lines fuel n o = (j, o') ->
    o' = written opts page_index (segment lines n j) o.
Proof.
  induction fuel as [| fuel IH]; intros n o j o' Hrun.
  - cbn [block_loop] in Hrun. injection Hrun as <- <-.
    unfold segment. rewrite Nat.sub_diag. cbn [take]. now rewrite written_nil.
  - pose proof (block_loop_spec opts page_index lines (S fuel) n o j o' Hrun)
      as (Hle & _).
    cbn [block_loop] in Hrun.
    assert (Hstop : (j, o') = (n, o) ->
                    o' = written opts page_index (segment lines n j) o).
    { intros Heq. injection Heq as -> ->. unfold segment.
      rewrite Nat.sub_diag. cbn [take]. now rewrite written_nil. }
    destruct (lines !! n) as [nl |] eqn:Hnl; [| now apply Hstop].
    destruct (any_in stop_keywords (lower (line_text nl))); [now apply Hstop |].
    destruct (contains personalization_marker (lower (line_text nl)));
      [now apply Hstop |].
    pose proof (block_loop_spec opts page_index lines fuel _ _ _ _ Hrun)
      as (Hle' & _).
    apply IH in Hrun. rewrite Hrun, written_cons.
    now rewrite (segment_cons n j nl Hnl) by lia.
Qed.

Lemma visited_written (o : Sink) (s : ScanState) :
  visited opts page_index lines o s ->
  exists E,
    E `sublist_of` take (idx s) lines
    /\ sink s = written opts page_index E o
    /\ Forall writable E.
Proof.
  induction 1 as [| s l Hvis (E & Hsub & Hsink & Hw) Hl].
  - exists []. cbn [scan_init idx sink take].
    split; [constructor |]. split; [now rewrite written_nil | constructor].
  - destruct (opens_block (current_item_has_custom s) l) eqn:Hopen.
    + destruct (scan_body_open opts page_index lines s l Hopen)
        as (j & o' & Hrun & ->).
      cbn [idx sink].
      pose proof (block_loop_spec opts page_index lines _ _ _ _ _ Hrun)
        as (Hle & Hin & _).
      apply block_loop_sink in Hrun.
      exists (E ++ segment lines (idx s) j).
      assert (Hseg : segment lines (idx s) j
                     = l :: segment lines (idx s + 1) j)
        by (apply segment_cons; [exact Hl | lia]).
      split; [| split].
      * replace j with (idx s + (j - idx s))%nat at 2 by lia.
        rewrite <- take_take_drop. now apply sublist_app.
      * rewrite Hrun, written_cons, Hsink, written_app. now rewrite Hseg.
      * apply Forall_app. split; [exact Hw |]. rewrite Hseg. constructor.
        -- left. rewrite opens_block_eq in Hopen.
           now apply andb_true_iff in Hopen as [Hm _].
        -- apply Forall_lookup. intros i x Hx. unfold segment in Hx.
           apply lookup_take_Some in Hx as [Hx Hi]. rewrite lookup_drop in Hx.
           destruct (Hin (idx s + 1 + i)%nat ltac:(lia)) as (lk & Hlk & Hc).
           rewrite Hx in Hlk. injection Hlk as <-. now right.
    + rewrite (scan_body_pass opts page_index lines s l Hopen). cbn [idx sink].
      exists E. split; [| split; assumption].
      replace (idx s + 1)%nat with (S (idx s)) by lia.
      rewrite (take_S_r _ _ _ Hl). now apply sublist_inserts_r.
Qed.

(** X5.  The scan writes a subsequence of the page's lines, in page
    order and each line at most once: with extraction on, the
    personalization document gains one paragraph per written line, with
    the page number and the line's text; with highlighting on, the page
    gains the yellow boxes of the written lines' words other than the
    marker word; with an option off, nothing of its kind is added.
    Every written line is a marker line or a line without stop
    keyword. *)
Theorem personalization_scan_writes_subsequence (o : Sink) :
  exists E,
    E `sublist_of` lines
    /\ Forall writable E
    /\ personalization_doc (sink (personalization_scan opts page_index lines o))
       = personalization_doc o
         ++ (if extract_text opts
             then map (fun l => mkParagraph page_index (line_text l)) E
             else [])
    /\ page_annots (sink (personalization_scan opts page_index lines o))
       = page_annots o
         ++ (if highlight_personalization opts
             then flat_map word_highlights E
             else []).
Proof.
  destruct (personalization_scan_done opts page_index lines o) as [Hvis Hidx].
  destruct (visited_written o _ Hvis) as (E & Hsub & Hsink & Hw).
  exists E. rewrite Hidx, firstn_all in Hsub.
  split; [exact Hsub |]. split; [exact Hw |]. now rewrite Hsink.
Qed.
End Written.

(** ** The document as a whole *)

Lemma process_page_ok (opts : Options) (watermark_text : string)
    (total_pages page_index : nat) (pg : PageInput) (st : DocState) :
  exists a,
    process_page opts watermark_text total_pages page_index pg st
    = ok (mkDoc
            (gift_section opts page_index (gift_hits pg) (gift st))
            (personalization_doc
               (sink (personalization_scan opts page_index (lines_data pg)
                        (mkSink (pers_doc st)
                           (if highlight_gmi opts
                            then map (fun inst => mkAnnot inst purple_color)
                                     (gmi_hits pg)
                            else [])))))
            (ship_to_loop page_index (lines_data pg) (ship_to_info st))
            (annots st ++ on_page page_index a)
            (texts st
             ++ on_page page_index
                  (page_texts opts watermark_text total_pages page_index pg))).
Proof.
  unfold process_page.
  destruct (quantity_section_ok opts (lines_data pg)
              (page_annots (sink (personalization_scan opts page_index
                 (lines_data pg)
                 (mkSink (pers_doc st)
                    (if highlight_gmi opts
                     then map (fun inst => mkAnnot inst purple_color) (gmi_hits pg)
                     else []))))))
    as [a ->].
  cbn [bind ok]. now exists a.
Qed.

Lemma page_loop_texts (opts : Options) (watermark_text : string)
    (total_pages : nat) (pages : list PageInput) :
  forall page_index st,
    exists st',
      page_loop opts watermark_text total_pages page_index pages st = ok st'
      /\ texts st'
         = texts st
           ++ content_texts opts watermark_text total_pages page_index pages
      /\ ship_to_info st' = ship_to_pages page_index pages (ship_to_info st).
Proof.
  induction pages as [| pg pages IH]; intros page_index st;
    cbn [page_loop content_texts ship_to_pages].
  - exists st. now rewrite app_nil_r.
  - destruct (process_page_ok opts watermark_text total_pages page_index pg st)
      as [a ->].
    cbn [bind]. destruct (IH (page_index + 1)%nat (mkDoc
      (gift_section opts page_index (gift_hits pg) (gift st))
      (personalization_doc
         (sink (personalization_scan opts page_index (lines_data pg)
                  (mkSink (pers_doc st)
                     (if highlight_gmi opts
                      then map (fun inst => mkAnnot inst purple_color)
                               (gmi_hits pg)
                      else [])))))
      (ship_to_loop page_index (lines_data pg) (ship_to_info st))
      (annots st ++ on_page page_index a)
      (texts st
       ++ on_page page_index
            (page_texts opts watermark_text total_pages page_index pg))))
      as (st' & Hrun & Ht & Hs).
    exists st'. split; [exact Hrun |]. cbn [texts ship_to_info] in Ht, Hs.
    split; [now rewrite Ht, <- app_assoc | exact Hs].
Qed.

Lemma ship_to_loop_entries (page_index : nat) (lines : list Line) :
  forall info,
    exists new,
      ship_to_loop page_index lines info = info ++ new
      /\ (length new <= 1)%nat
      /\ forall e, e ∈ new
                   <-> fst e = page_index /\ first_ship_to lines (snd e).
Proof.
  induction lines as [| x lines IH]; intros info; cbn [ship_to_loop].
  - exists []. split; [now rewrite app_nil_r |]. split; [cbn; lia |].
    intros e. split; [intros He; inversion He |].
    intros (_ & pre & l & nxt & rest & Heq & _). now destruct pre.
  - fold (has_ship_to x). destruct (has_ship_to x) eqn:Hx.
    + destruct lines as [| nxt rest].
      * exists []. split; [now rewrite app_nil_r |]. split; [cbn; lia |].
        intros e. split; [intros He; inversion He |].
        intros (_ & pre & l & nxt & rest & Heq & Hpre & _).
        destruct pre as [| y pre]; [discriminate Heq |].
        injection Heq as <- Heq. now destruct pre.
      * exists [(page_index, extracted_name nxt)].
        split; [reflexivity |]. split; [cbn; lia |].
        intros [q name]. rewrite list_elem_of_singleton. cbn [fst snd]. split.
        -- intros [= -> ->]. split; [reflexivity |].
           exists [], x, nxt, rest. repeat split; [constructor | exact Hx].
        -- intros (-> & pre & l & nxt' & rest' & Heq & Hpre & _ & ->).
           destruct pre as [| y pre].
           ++ now injection Heq as _ <- _.
           ++ injection Heq as <- _. inversion Hpre; congruence.
    + destruct (IH info) as (new & Hrun & Hlen & Hnew).
      exists new. split; [exact Hrun |]. split; [exact Hlen |].
      intros e. rewrite Hnew. split; intros (Hp & pre & l & nxt & rest & Heq & Hpre & Hl & Hn).
      * split; [exact Hp |]. exists (x :: pre), l, nxt, rest.
        split; [now rewrite Heq |]. split; [now constructor |]. now split.
      * split; [exact Hp |]. destruct pre as [| y pre].
        -- injection Heq as <- _. congruence.
        -- injection Heq as _ Heq. exists pre, l, nxt, rest.
           split; [exact Heq |]. split; [now inversion Hpre |]. now split.
Qed.

Lemma ship_to_pages_entries (pages : list PageInput) :
  forall page_index info,
    exists new,
      ship_to_pages page_index pages info = info ++ new
      /\ (length new <= length pages)%nat
      /\ StronglySorted lt (fst <$> new)
      /\ forall e, e ∈ new
                   <-> exists k pg,
                         pages !! k = Some pg
                         /\ fst e = (page_index + k)%nat
                         /\ first_ship_to (lines_data pg) (snd e).
Proof.
  induction pages as [| pg pages IH]; intros page_index info;
    cbn [ship_to_pages].
  - exists []. split; [now rewrite app_nil_r |]. split; [cbn; lia |].
    split; [constructor |]. intros e. split; [intros He; inversion He |].
    intros (k & pg & Hk & _). inversion Hk.
  - destruct (ship_to_loop_entries page_index (lines_data pg) info)
      as (new1 & -> & Hlen1 & Hnew1).
    destruct (IH (page_index + 1)%nat (info ++ new1))
      as (new2 & -> & Hlen2 & Hsorted & Hnew2).
    exists (new1 ++ new2). split; [now rewrite app_assoc |].
    split; [rewrite length_app; cbn [length]; lia |]. split.
    + rewrite fmap_app. apply StronglySorted_app_2.
      * intros q1 q2 Hq1 Hq2.
        apply list_elem_of_fmap in Hq1 as (e1 & -> & He1).
        apply list_elem_of_fmap in Hq2 as (e2 & -> & He2).
        apply Hnew1 in He1 as [-> _].
        apply Hnew2 in He2 as (k & _ & _ & -> & _). lia.
      * destruct new1 as [| e1 [| e1' new1]]; cbn in Hlen1 |- *;
          [constructor | repeat constructor | lia].
      * exact Hsorted.
    + intros e. rewrite elem_of_app, Hnew1, Hnew2. split.
      * intros [[Hp Hf] | (k & pg' & Hk & Hp & Hf)].
        -- exists 0%nat, pg. split; [reflexivity |]. split; [lia | exact Hf].
        -- exists (S k), pg'. split; [exact Hk |]. split; [lia | exact Hf].
      * intros ([| k] & pg' & Hk & Hp & Hf).
        -- left. injection Hk as <-. split; [lia | exact Hf].
        -- right. exists k, pg'. split; [exact Hk |]. split; [lia | exact Hf].
Qed.

Lemma process_pdf_file_ok (opts : Options) (watermark_text : string)
    (pages : list PageInput) :
  exists st0 st,
    page_loop opts watermark_text (length pages + 1) 1 pages (init_doc opts)
    = ok st0
    /\ process_pdf_file opts watermark_text pages = ok st
    /\ gift st = gift st0 /\ pers_doc st = pers_doc st0
    /\ ship_to_info st = ship_to_info st0 /\ annots st = annots st0
    /\ texts st
       = texts st0
         ++ (if apply_watermark opts && truthy (strip watermark_text)
             then on_page 0 (page0_texts watermark_text 50 (ship_to_info st0))
             else []).
Proof.
  unfold process_pdf_file.
  destruct (page_loop_texts opts watermark_text (length pages + 1) pages 1%nat
              (init_doc opts)) as (st0 & Hrun & _).
  rewrite Hrun. cbn [bind]. exists st0.
  destruct (apply_watermark opts && truthy (strip watermark_text)).
  - eexists. split; [reflexivity |]. split; [reflexivity |]. now cbn.
  - exists st0. split; [reflexivity |]. split; [reflexivity |].
    now rewrite app_nil_r.
Qed.

(** X6.  Whatever the options and the watermark, the collected ship-to
    list holds exactly one entry for each content page whose first
    "ship to" line is followed by a line (the page number, counted from
    1, and the name taken from that next line), in increasing page
    order; so it never has more entries than there are pages. *)
Theorem ship_to_info_one_entry_per_page_in_order
    (opts : Options) (watermark_text : string) (pages : list PageInput) :
  exists st,
    process_pdf_file opts watermark_text pages = ok st
    /\ StronglySorted lt (fst <$> ship_to_info st)
    /\ (length (ship_to_info st) <= length pages)%nat
    /\ forall p name,
         (p, name) ∈ ship_to_info st
         <-> exists pg,
               (1 <= p)%nat /\ pages !! (p - 1)%nat = Some pg
               /\ first_ship_to (lines_data pg) name.
Proof.
  destruct (process_pdf_file_ok opts watermark_text pages)
    as (st0 & st & Hloop & Hrun & _ & _ & Hs & _).
  destruct (page_loop_texts opts watermark_text (length pages + 1) pages 1%nat
              (init_doc opts)) as (st0' & Hloop' & _ & Hs0).
  rewrite Hloop in Hloop'. injection Hloop' as <-.
  destruct (ship_to_pages_entries pages 1%nat []) as (new & Hnew & Hlen & Hsorted & Hiff).
  cbn [init_doc ship_to_info app] in Hs0, Hnew.
  exists st. split; [exact Hrun |]. rewrite Hs, Hs0, Hnew.
  split; [exact Hsorted |]. split; [exact Hlen |].
  intros p name. rewrite (Hiff (p, name)). cbn [fst snd]. split.
  - intros (k & pg & Hk & -> & Hf). exists pg. split; [lia |].
    split; [| exact Hf]. now replace (1 + k - 1)%nat with k by lia.
  - intros (pg & Hp & Hk & Hf). exists (p - 1)%nat, pg.
    split; [exact Hk |]. split; [lia | exact Hf].
Qed.

Lemma page0_texts_lookup (watermark_text : string) (info : list (nat * string)) :
  forall y k pnum name,
    info !! k = Some (pnum, name) ->
    exists t,
      page0_texts watermark_text y info !! k = Some t
      /\ (text_x t == 50)%Q
      /\ (text_y t == y + 20 * inject_Z (Z.of_nat k))%Q
      /\ text_body t = (watermark_text +:+ str_nat pnum +:+ ": " +:+ name)
      /\ text_size t = 12%nat.
Proof.
  induction info as [| [q n] info IH]; intros y k pnum name Hk;
    [inversion Hk |].
  destruct k as [| k]; cbn [page0_texts].
  - injection Hk as -> ->. eexists. split; [reflexivity |].
    cbn [text_x text_y text_body text_size]. repeat split; try reflexivity.
    change (inject_Z (Z.of_nat 0)) with 0%Q. lra.
  - destruct (IH (y + 20)%Q k pnum name Hk) as (t & Ht & Hx & Hy & Hb & Hs).
    exists t. split; [exact Ht |]. split; [exact Hx |].
    split; [| split; assumption].
    rewrite Hy, Nat2Z.inj_succ, <- Z.add_1_r, inject_Z_plus.
    change (inject_Z 1) with 1%Q. lra.
Qed.

Lemma page0_texts_length (watermark_text : string) (info : list (nat * string)) :
  forall y, length (page0_texts watermark_text y info) = length info.
Proof.
  induction info as [| [q n] info IH]; intros y; cbn [page0_texts length];
    [reflexivity |]. now rewrite IH.
Qed.

Lemma content_texts_lookup (opts : Options) (watermark_text : string)
    (total_pages : nat) (pages : list PageInput) :
  forall page_index k pg t,
    pages !! k = Some pg ->
    t ∈ page_texts opts watermark_text total_pages (page_index + k) pg ->
    ((page_index + k)%nat, t)
    ∈ content_texts opts watermark_text total_pages page_index pages.
Proof.
  induction pages as [| pg0 pages IH]; intros page_index k pg t Hk Ht;
    [inversion Hk |].
  cbn [content_texts]. apply elem_of_app. destruct k as [| k].
  - left. injection Hk as ->. rewrite Nat.add_0_r in *.
    unfold on_page. change (map ?f ?l) with (f <$> l).
    now apply (list_elem_of_fmap_2 (fun a => (page_index, a))).
  - right. replace (page_index + S k)%nat with (page_index + 1 + k)%nat in * by lia.
    now apply (IH _ _ pg).
Qed.

Lemma content_texts_pages (opts : Options) (watermark_text : string)
    (total_pages : nat) (pages : list PageInput) :
  forall page_index,
    Forall (fun e => (page_index <= fst e)%nat)
           (content_texts opts watermark_text total_pages page_index pages).
Proof.
  induction pages as [| pg pages IH]; intros page_index; cbn [content_texts];
    [constructor |].
  apply Forall_app. split.
  - unfold on_page. apply Forall_forall. intros e He.
    change (map ?f ?l) with (f <$> l) in He.
    apply list_elem_of_fmap in He as (t & -> & _). cbn. lia.
  - eapply Forall_impl; [apply IH |]. cbn beta. intros e He. lia.
Qed.

(** X7.  With [apply_watermark] on and a watermark text that is not
    blank, every content page carries its page-number text and the
    watermark text at 150pt from the right edge, and page 0 carries one
    line per collected ship-to entry and nothing else: the k-th line, for
    the entry (page, name), sits at x = 50, y = 50 + 20k and reads
    watermark, page number, ": " and name. *)
Theorem watermark_writes_ship_to_index
    (opts : Options) (watermark_text : string) (pages : list PageInput) :
  apply_watermark opts = true ->
  truthy (strip watermark_text) = true ->
  exists st page0,
    process_pdf_file opts watermark_text pages = ok st
    /\ texts st
       = content_texts opts watermark_text (length pages + 1) 1 pages
         ++ on_page 0 page0
    /\ Forall (fun e => (1 <= fst e)%nat)
              (content_texts opts watermark_text (length pages + 1) 1 pages)
    /\ length page0 = length (ship_to_info st)
    /\ (forall k pnum name,
           ship_to_info st !! k = Some (pnum, name) ->
           exists t,
             page0 !! k = Some t
             /\ (text_x t == 50)%Q
             /\ (text_y t == 50 + 20 * inject_Z (Z.of_nat k))%Q
             /\ text_body t
                = (watermark_text +:+ str_nat pnum +:+ ": " +:+ name)
             /\ text_size t = 12%nat)
    /\ (forall k pg,
           pages !! k = Some pg ->
           (S k, page_number_text (length pages + 1) (S k)) ∈ texts st
           /\ (S k, mkText (width (page_rect pg) - 150)%Q 35%Q watermark_text 10)
              ∈ texts st).
Proof.
  intros Hopt Hwm.
  destruct (process_pdf_file_ok opts watermark_text pages)
    as (st0 & st & Hloop & Hrun & _ & _ & Hs & _ & Ht).
  destruct (page_loop_texts opts watermark_text (length pages + 1) pages 1%nat
              (init_doc opts)) as (st0' & Hloop' & Ht0 & _).
  rewrite Hloop in Hloop'. injection Hloop' as <-.
  cbn [init_doc texts app] in Ht0. rewrite Hopt, Hwm in Ht. cbn [andb] in Ht.
  exists st, (page0_texts watermark_text 50 (ship_to_info st0)).
  split; [exact Hrun |]. split; [now rewrite Ht, Ht0 |].
  split; [apply content_texts_pages |].
  split; [now rewrite page0_texts_length, Hs |]. split.
  - intros k pnum name Hk. rewrite Hs in Hk.
    now apply page0_texts_lookup.
  - intros k pg Hk. rewrite Ht, Ht0.
    split; apply elem_of_app; left;
      apply (content_texts_lookup _ _ _ _ 1%nat k pg _ Hk);
      unfold page_texts; rewrite Hopt, Hwm; cbn [andb app].
    + left.
    + right. left.
Qed.

Lemma watermark_writes_ship_to_index_witness :
  exists st page0,
    process_pdf_file sample_opts "Batch 7 p" sample_pages = ok st
    /\ texts st
       = content_texts sample_opts "Batch 7 p" 3 1 sample_pages ++ on_page 0 page0
    /\ length page0 = 1%nat.
Proof.
  destruct (watermark_writes_ship_to_index sample_opts "Batch 7 p" sample_pages
              eq_refl eq_refl) as (st & page0 & Hrun & Ht & _ & Hlen & _).
  exists st, page0. split; [exact Hrun |]. split; [exact Ht |].
  rewrite Hlen. vm_compute in Hrun. injection Hrun as <-. reflexivity.
Defined.

(** ** The extraction documents *)

Lemma page_loop_inv (opts : Options) (watermark_text : string)
    (total_pages : nat) (J : nat -> DocState -> Prop) :
  (forall i pg st st',
      (1 <= i)%nat -> J i st ->
      process_page opts watermark_text total_pages i pg st = ok st' ->
      J (i + 1)%nat st') ->
  forall pages i st,
    (1 <= i)%nat -> J i st ->
    exists st',
      page_loop opts watermark_text total_pages i pages st = ok st'
      /\ J (i + length pages)%nat st'.
Proof.
  intros Hstep. induction pages as [| pg pages IH]; intros i st Hi HJ;
    cbn [page_loop length].
  - exists st. split; [reflexivity |]. now rewrite Nat.add_0_r.
  - destruct (process_page_ok opts watermark_text total_pages i pg st)
      as [a Hok].
    rewrite Hok. cbn [bind].
    destruct (IH (i + 1)%nat _ ltac:(lia) (Hstep i pg st _ Hi HJ Hok))
      as (st' & Hrun & HJ').
    exists st'. split; [exact Hrun |].
    now replace (i + S (length pages))%nat with (i + 1 + length pages)%nat by lia.
Qed.

Lemma gift_instances_no_doc (ext : bool) (page_index : nat)
    (hits : list (list string)) :
  forall st, gift_doc st = None ->
             gift_doc (gift_instances ext page_index hits st) = None.
Proof.
  unfold gift_instances. induction hits as [| h hits IH]; intros st Hst;
    cbn [fold_left]; [exact Hst |].
  apply IH. unfold record_gift_message. now rewrite Hst.
Qed.

Lemma gift_section_no_doc (opts : Options) (page_index : nat)
    (hits : list (list string)) (st : GiftState) :
  gift_doc st = None -> gift_doc (gift_section opts page_index hits st) = None.
Proof.
  intros Hst. unfold gift_section.
  destruct (highlight_gift_snippet opts || extract_text opts);
    [now apply gift_instances_no_doc | exact Hst].
Qed.

Lemma gift_section_new (opts : Options) (page_index : nat)
    (hits : list (list string)) (st : GiftState) (doc0 : list Paragraph) :
  extract_text opts = true ->
  gift_doc st = Some doc0 ->
  exists new,
    gift_doc (gift_section opts page_index hits st) = Some (doc0 ++ new)
    /\ Forall (fun p => para_page p = page_index /\ para_text p <> "") new
    /\ NoDup new.
Proof.
  intros Hext Hdoc. unfold gift_section. rewrite Hext, orb_true_r.
  set (st0 := mkGiftState _ _).
  assert (Hinv : dedup_inv page_index doc0 [] st0).
  { exists []. subst st0. cbn [gift_doc gift_messages_per_page fmap list_fmap].
    rewrite lookup_total_insert_eq, app_nil_r.
    split; [exact Hdoc |]. split; [set_solver |].
    split; [constructor |]. split; [constructor |].
    intros t. split; [intros Hu | intros [_ Hu]]; inversion Hu. }
  apply (gift_instances_inv page_index doc0 hits) in Hinv.
  cbn [app] in Hinv. destruct Hinv as (new & Hd & _ & Hnd & Hpg & Hnew).
  exists new. split; [exact Hd |]. split; [| now apply NoDup_fmap_1 in Hnd].
  apply Forall_forall. intros p Hp. rewrite Forall_forall in Hpg.
  split; [now apply Hpg |].
  apply (list_elem_of_fmap_2 para_text) in Hp. now apply Hnew in Hp.
Qed.

Lemma personalization_scan_doc (opts : Options) (page_index : nat)
    (lines : list Line) (o : Sink) :
  exists new,
    personalization_doc (sink (personalization_scan opts page_index lines o))
    = personalization_doc o ++ new
    /\ Forall (fun p => para_page p = page_index) new
    /\ (extract_text opts = false -> new = []).
Proof.
  destruct (personalization_scan_done opts page_index lines o) as [Hvis _].
  destruct (visited_written opts page_index lines o _ Hvis)
    as (E & _ & Hsink & _).
  rewrite Hsink. cbn [written personalization_doc]. eexists.
  split; [reflexivity |]. split.
  - destruct (extract_text opts); [| constructor].
    apply Forall_forall. intros p Hp.
    change (map ?f ?l) with (f <$> l) in Hp.
    now apply list_elem_of_fmap in Hp as (l & -> & _).
  - now intros ->.
Qed.

Lemma StronglySorted_le_snoc (pages new : list nat) (i : nat) :
  StronglySorted le pages -> Forall (fun p => (p < i)%nat) pages ->
  Forall (fun p => p = i) new ->
  StronglySorted le (pages ++ new).
Proof.
  intros Hs Hlt Hnew. apply StronglySorted_app_2; [| exact Hs |].
  - intros p q Hp Hq. rewrite Forall_forall in Hlt, Hnew.
    specialize (Hlt p Hp). specialize (Hnew q Hq). lia.
  - induction Hnew as [| q new -> Hrest IH]; constructor; [exact IH |].
    eapply Forall_impl; [exact Hrest |]. cbn beta. intros ? ->. lia.
Qed.

Lemma process_page_docs_inv (opts : Options) (watermark_text : string)
    (total_pages i : nat) (pg : PageInput) (st st' : DocState) :
  extract_text opts = true ->
  (1 <= i)%nat -> docs_inv i st ->
  process_page opts watermark_text total_pages i pg st = ok st' ->
  docs_inv (i + 1) st'.
Proof.
  intros Hext Hi ((doc & Hdoc & Hnd & Hall & Hsorted) & Hpers & Hpsorted) Hrun.
  destruct (process_page_ok opts watermark_text total_pages i pg st) as [a Hok].
  rewrite Hok in Hrun. injection Hrun as <-. unfold docs_inv. cbn [gift pers_doc].
  destruct (gift_section_new opts i (gift_hits pg) (gift st) doc Hext Hdoc)
    as (new & Hnew & Hnewall & Hnewnd).
  match goal with
  | |- context [personalization_scan ?o ?p ?l ?s] =>
      destruct (personalization_scan_doc o p l s) as (pnew & -> & Hpnew & _)
  end.
  cbn [personalization_doc]. split; [| split].
  - exists (doc ++ new). split; [exact Hnew |]. split; [| split].
    + apply NoDup_app. split; [exact Hnd |]. split; [| exact Hnewnd].
      intros p Hp Hp'. rewrite Forall_forall in Hall, Hnewall.
      destruct (Hall p Hp) as [Hlt _]. destruct (Hnewall p Hp') as [Heq _]. lia.
    + apply Forall_app. split.
      * eapply Forall_impl; [exact Hall |]. cbn beta. intros p [? ?].
        split; [lia | assumption].
      * eapply Forall_impl; [exact Hnewall |]. cbn beta. intros p [-> ?].
        split; [lia | assumption].
    + rewrite fmap_app. apply (StronglySorted_le_snoc _ _ i); [exact Hsorted | |].
      * apply Forall_fmap. eapply Forall_impl; [exact Hall |].
        cbn. intros p [? _]. lia.
      * apply Forall_fmap. eapply Forall_impl; [exact Hnewall |].
        cbn. now intros p [? _].
  - apply Forall_app. split.
    + eapply Forall_impl; [exact Hpers |]. cbn beta. intros p ?. lia.
    + eapply Forall_impl; [exact Hpnew |]. cbn beta. intros p ->. lia.
  - rewrite fmap_app. apply (StronglySorted_le_snoc _ _ i); [exact Hpsorted | |].
    + apply Forall_fmap. eapply Forall_impl; [exact Hpers |]. cbn. intros p ?. lia.
    + apply Forall_fmap. eapply Forall_impl; [exact Hpnew |]. now cbn.
Qed.

Lemma process_page_no_docs (opts : Options) (watermark_text : string)
    (total_pages i : nat) (pg : PageInput) (st st' : DocState) :
  extract_text opts = false ->
  no_docs st ->
  process_page opts watermark_text total_pages i pg st = ok st' ->
  no_docs st'.
Proof.
  intros Hext [Hg Hp] Hrun.
  destruct (process_page_ok opts watermark_text total_pages i pg st) as [a Hok].
  rewrite Hok in Hrun. injection Hrun as <-. unfold no_docs. cbn [gift pers_doc].
  split; [now apply gift_section_no_doc |].
  match goal with
  | |- context [personalization_scan ?o ?p ?l ?s] =>
      destruct (personalization_scan_doc o p l s) as (pnew & -> & _ & Hnil)
  end.
  cbn [personalization_doc]. now rewrite Hp, (Hnil Hext).
Qed.

(** X8.  With [extract_text] on, the gift document never holds the same
    paragraph (page number and text) twice and never an empty text, and
    both extraction documents carry content-page numbers only, from 1 to
    the number of pages, in non-decreasing order. *)
Theorem extraction_documents_in_page_order
    (opts : Options) (watermark_text : string) (pages : list PageInput) :
  extract_text opts = true ->
  exists st doc,
    process_pdf_file opts watermark_text pages = ok st
    /\ gift_doc (gift st) = Some doc
    /\ NoDup doc
    /\ Forall (fun p => (1 <= para_page p <= length pages)%nat
                        /\ para_text p <> "") doc
    /\ StronglySorted le (para_page <$> doc)
    /\ Forall (fun p => (1 <= para_page p <= length pages)%nat) (pers_doc st)
    /\ StronglySorted le (para_page <$> pers_doc st).
Proof.
  intros Hext.
  destruct (process_pdf_file_ok opts watermark_text pages)
    as (st0 & st & Hloop & Hrun & Hg & Hp & _).
  destruct (page_loop_inv opts watermark_text (length pages + 1) docs_inv
              (fun i pg s s' Hi HJ Hok =>
                 process_page_docs_inv opts watermark_text _ i pg s s' Hext Hi HJ Hok)
              pages 1%nat (init_doc opts) ltac:(lia))
    as (st0' & Hloop' & (doc & Hdoc & Hnd & Hall & Hsorted) & Hpers & Hpsorted).
  { unfold docs_inv, init_doc. cbn [gift gift_doc pers_doc]. rewrite Hext.
    split; [| split; constructor].
    exists []. split; [reflexivity |]. repeat constructor. }
  rewrite Hloop in Hloop'. injection Hloop' as <-.
  exists st, doc. rewrite Hg, Hp. split; [exact Hrun |]. split; [exact Hdoc |].
  split; [exact Hnd |]. split; [| split; [exact Hsorted | split; [| exact Hpsorted]]].
  - eapply Forall_impl; [exact Hall |]. cbn beta. intros p [? ?].
    split; [lia | assumption].
  - eapply Forall_impl; [exact Hpers |]. cbn beta. intros p ?. lia.
Qed.

Lemma extraction_documents_in_page_order_witness :
  exists st doc,
    process_pdf_file sample_opts "" sample_pages = ok st
    /\ gift_doc (gift st) = Some doc
    /\ map para_page (pers_doc st) = [2; 2]%nat.
Proof.
  destruct (extraction_documents_in_page_order sample_opts "" sample_pages
              eq_refl) as (st & doc & Hrun & Hdoc & _).
  exists st, doc. split; [exact Hrun |]. split; [exact Hdoc |].
  vm_compute in Hrun. injection Hrun as <-. reflexivity.
Defined.

(** X9.  With [extract_text] off nothing is extracted: there is no gift
    document and the personalization document receives no paragraph,
    whatever the pages contain. *)
Theorem no_extraction_without_option
    (opts : Options) (watermark_text : string) (pages : list PageInput) :
  extract_text opts = false ->
  exists st,
    process_pdf_file opts watermark_text pages = ok st
    /\ gift_doc (gift st) = None
    /\ pers_doc st = [].
Proof.
  intros Hext.
  destruct (process_pdf_file_ok opts watermark_text pages)
    as (st0 & st & Hloop & Hrun & Hg & Hp & _).
  destruct (page_loop_inv opts watermark_text (length pages + 1)
              (fun _ s => no_docs s)
              (fun i pg s s' _ HJ Hok =>
                 process_page_no_docs opts watermark_text _ i pg s s' Hext HJ Hok)
              pages 1%nat (init_doc opts) ltac:(lia))
    as (st0' & Hloop' & Hg0 & Hp0).
  { unfold no_docs, init_doc. cbn [gift gift_doc pers_doc]. now rewrite Hext. }
  rewrite Hloop in Hloop'. injection Hloop' as <-.
  exists st. rewrite Hg, Hp. now split.
Qed.

Lemma no_extraction_without_option_witness :
  exists st,
    process_pdf_file
      (mkOptions true true true false true true true true true) "WM" sample_pages
    = ok st
    /\ gift_doc (gift st) = None
    /\ pers_doc st = [].
Proof.
  apply (no_extraction_without_option
           (mkOptions true true true false true true true true true) "WM"
           sample_pages eq_refl).
Defined.

(** ** Line reconstruction *)

Lemma key_ltb_asym (a b : Q * Q) : key_ltb a b = true -> key_ltb b a = false.
Proof.
  unfold key_ltb. rewrite <- (Qcompare_antisym (fst a) (fst b)).
  rewrite <- (Qcompare_antisym (snd a) (snd b)).
  destruct (fst a ?= fst b)%Q, (snd a ?= snd b)%Q; cbn; congruence.
Qed.

Section SortWords.
Variable round1 : Q -> Q.

Lemma insert_word_perm (x : Word) (l : list Word) :
  insert_word round1 x l ≡ₚ x :: l.
Proof.
  induction l as [| y l IH]; cbn [insert_word]; [reflexivity |].
  destruct (key_ltb _ _); [| reflexivity].
  rewrite IH. apply Permutation_swap.
Qed.

Lemma sort_words_perm (l : list Word) : sort_words round1 l ≡ₚ l.
Proof.
  induction l as [| x l IH]; cbn [sort_words fold_right]; [reflexivity |].
  fold (sort_words round1 l). now rewrite insert_word_perm, IH.
Qed.

Lemma insert_word_sorted (x : Word) (l : list Word) :
  Sorted (reading_order round1) l ->
  Sorted (reading_order round1) (insert_word round1 x l).
Proof.
  induction 1 as [| y l Hs IH Hhd]; cbn [insert_word].
  - repeat constructor.
  - destruct (key_ltb (reading_key round1 y) (reading_key round1 x)) eqn:Hlt.
    + constructor; [exact IH |].
      destruct l as [| z l]; cbn [insert_word].
      * constructor. unfold reading_order. now apply key_ltb_asym.
      * destruct (key_ltb (reading_key round1 z) (reading_key round1 x)).
        -- constructor. now inversion Hhd.
        -- constructor. unfold reading_order. now apply key_ltb_asym.
    + constructor; [now constructor |]. constructor. exact Hlt.
Qed.

Lemma sort_words_sorted (l : list Word) :
  Sorted (reading_order round1) (sort_words round1 l).
Proof.
  induction l as [| x l IH]; cbn [sort_words fold_right]; [constructor |].
  now apply insert_word_sorted.
Qed.

(** Stability: words that compare equal to [x] stay behind [x]. *)
Lemma insert_word_stable (P : Word -> bool) (x : Word) (l : list Word) :
  (forall y, key_ltb (reading_key round1 y) (reading_key round1 x) = true ->
             P x = true -> P y = false) ->
  List.filter P (insert_word round1 x l) = List.filter P (x :: l).
Proof.
  intros Hsep. induction l as [| y l IH]; cbn [insert_word]; [reflexivity |].
  destruct (key_ltb (reading_key round1 y) (reading_key round1 x)) eqn:Hlt;
    [| reflexivity].
  cbn [List.filter] in *. rewrite IH.
  destruct (P x) eqn:Hx; [| reflexivity].
  now rewrite (Hsep y Hlt eq_refl).
Qed.
End SortWords.

Lemma string_app_assoc (a b c : string) : ((a +:+ b) +:+ c) = (a +:+ (b +:+ c)).
Proof.
  induction a as [| ch a IH]; [reflexivity |].
  change (String ch ((a +:+ b) +:+ c) = String ch (a +:+ (b +:+ c))).
  now rewrite IH.
Qed.

Lemma string_app_empty_r (a : string) : (a +:+ "") = a.
Proof.
  induction a as [| ch a IH]; [reflexivity |].
  change (String ch (a +:+ "") = String ch a). now rewrite IH.
Qed.

Lemma same_key_separates (round1 : Q -> Q) (w x y : Word) :
  key_ltb (reading_key round1 y) (reading_key round1 x) = true ->
  same_key round1 w x = true -> same_key round1 w y = false.
Proof.
  unfold key_ltb, reading_key, same_key. cbn [fst snd]. intros Hlt Hx.
  apply andb_true_iff in Hx as [Hx1 Hx2].
  apply Qeq_bool_iff in Hx1, Hx2.
  destruct (Qeq_bool (round1 (wy0 y)) (round1 (wy0 w))) eqn:Hy1; [| reflexivity].
  destruct (Qeq_bool (wx0 y) (wx0 w)) eqn:Hy2; [| reflexivity].
  apply Qeq_bool_iff in Hy1, Hy2. exfalso.
  assert (H1 : (round1 (wy0 y) == round1 (wy0 x))%Q) by (now rewrite Hy1, Hx1).
  assert (H2 : (wx0 y == wx0 x)%Q) by (now rewrite Hy2, Hx2).
  apply Qeq_alt in H1, H2. rewrite H1, H2 in Hlt. discriminate Hlt.
Qed.

Lemma sort_words_stable (round1 : Q -> Q) (w : Word) (l : list Word) :
  List.filter (same_key round1 w) (sort_words round1 l)
  = List.filter (same_key round1 w) l.
Proof.
  induction l as [| x l IH]; cbn [sort_words fold_right]; [reflexivity |].
  fold (sort_words round1 l).
  rewrite insert_word_stable
    by (intros y Hlt Hx; now apply (same_key_separates round1 w x y)).
  cbn [List.filter]. now rewrite IH.
Qed.

Section GetLinesProps.
Variable rect_union : Rect -> Rect -> Rect.
Variable rect_bool : Rect -> bool.
Variable intersects : Rect -> Rect -> bool.
Variable round1 : Q -> Q.

Lemma span_loop_text (spans : list Span) :
  forall acc r,
    fst (fold_left
           (fun '(line_text, line_rect) span =>
              (line_text +:+ span_text span,
               Some (match line_rect with
                     | None => span_bbox span
                     | Some r => rect_union r (span_bbox span)
                     end)))
           spans (acc, r))
    = (acc +:+ spans_text spans).
Proof.
  induction spans as [| sp spans IH]; intros acc r;
    cbn [fold_left spans_text map fold_right fst].
  - now rewrite string_app_empty_r.
  - rewrite IH. fold (spans_text spans). apply string_app_assoc.
Qed.

Lemma get_line_spec (all_words : list Word) (spans : list Span) (l : Line) :
  l ∈ get_line rect_union rect_bool intersects round1 all_words spans ->
  line_text l = strip (spans_text spans)
  /\ line_text l <> ""
  /\ rect_bool (line_rect l) = true
  /\ word_list l
     = sort_words round1
         (List.filter (fun w => intersects (word_rect w) (line_rect l))
                      all_words).
Proof.
  unfold get_line, span_loop.
  pose proof (span_loop_text spans "" None) as Htext.
  change ("" +:+ spans_text spans) with (spans_text spans) in Htext.
  destruct (fold_left _ spans ("", None)) as [txt [r |]]; cbn [fst] in Htext;
    [| intros Hin; inversion Hin].
  subst txt. destruct (truthy (strip (spans_text spans))) eqn:Ht; cbn [negb orb];
    [| intros Hin; inversion Hin].
  destruct (rect_bool r) eqn:Hr; cbn [negb]; [| intros Hin; inversion Hin].
  intros Hin. apply list_elem_of_singleton in Hin. subst l.
  cbn [line_text line_rect word_list].
  split; [reflexivity |]. split; [now apply truthy_true |]. now split.
Qed.

Lemma get_line_length (all_words : list Word) (spans : list Span) :
  (length (get_line rect_union rect_bool intersects round1 all_words spans)
   <= 1)%nat.
Proof.
  unfold get_line. destruct (span_loop rect_union spans) as [txt [r |]];
    [| cbn; lia].
  destruct (negb _ || negb _); cbn; lia.
Qed.

(** X10.  Every line [get_lines] returns comes from a line of the text
    dict: its text is the stripped concatenation of that line's span
    texts and is not empty, its rectangle is a true one, and its word
    list holds exactly the page words whose box intersects the
    rectangle, sorted in reading order (rounded y0, then x0), words with
    equal keys keeping the order of the page's word list.  There is at
    most one returned line per source line. *)
Theorem get_lines_words_in_reading_order
    (p_dict : list (list (list Span))) (all_words : list Word) (l : Line) :
  l ∈ get_lines rect_union rect_bool intersects round1 p_dict all_words ->
  (exists block spans,
      block ∈ p_dict /\ spans ∈ block
      /\ line_text l = strip (spans_text spans))
  /\ line_text l <> ""
  /\ rect_bool (line_rect l) = true
  /\ Sorted (reading_order round1) (word_list l)
  /\ word_list l
     ≡ₚ List.filter (fun w => intersects (word_rect w) (line_rect l)) all_words
  /\ (forall w,
         List.filter (same_key round1 w) (word_list l)
         = List.filter (same_key round1 w)
             (List.filter (fun w => intersects (word_rect w) (line_rect l))
                          all_words))
  /\ (length (get_lines rect_union rect_bool intersects round1 p_dict all_words)
      <= length (concat p_dict))%nat.
Proof.
  intros Hin. unfold get_lines in Hin.
  apply list_elem_of_In, in_flat_map in Hin as (block & Hblock & Hin).
  apply in_flat_map in Hin as (spans & Hspans & Hin).
  apply list_elem_of_In in Hblock, Hspans, Hin.
  apply get_line_spec in Hin as (Htext & Hne & Hr & Hwords).
  split; [now exists block, spans |]. split; [exact Hne |]. split; [exact Hr |].
  rewrite Hwords. split; [apply sort_words_sorted |].
  split; [apply sort_words_perm |]. split; [intros w; apply sort_words_stable |].
  unfold get_lines. clear. induction p_dict as [| block p_dict IH];
    cbn [flat_map concat]; [cbn [length]; lia |].
  rewrite !length_app.
  assert (Hb : (length (flat_map
                   (get_line rect_union rect_bool intersects round1 all_words)
                   block) <= length block)%nat).
  { induction block as [| spans block IHb]; cbn [flat_map length]; [lia |].
    rewrite length_app.
    pose proof (get_line_length all_words spans). lia. }
  lia.
Qed.
End GetLinesProps.

Lemma get_lines_words_in_reading_order_witness :
  Sorted (reading_order (fun y => y))
    (word_list
       (mkLine "Ship To"
          (mkRect 10 20 60 30)
          [mkWord 10 20 30 30 "Ship"; mkWord 35 20 60 30 "To"])).
Proof.
  assert (Hin :
    mkLine "Ship To" (mkRect 10 20 60 30)
      [mkWord 10 20 30 30 "Ship"; mkWord 35 20 60 30 "To"]
    ∈ get_lines sample_union (fun _ => true) sample_intersects (fun y => y)
        [[[mkSpan (mkRect 10 20 30 30) " Ship "; mkSpan (mkRect 35 20 60 30) "To "]];
         [[mkSpan (mkRect 0 100 5 110) "  "]]]
        [mkWord 35 20 60 30 "To"; mkWord 0 100 5 110 "x";
         mkWord 10 20 30 30 "Ship"]).
  { vm_compute. left. }
  destruct (get_lines_words_in_reading_order sample_union (fun _ => true)
              sample_intersects (fun y => y) _ _ _ Hin) as (_ & _ & _ & Hs & _).
  exact Hs.
Defined.

(** ** Excluded zones *)





(** ** Stamps *)

Lemma prefix_app_l (a b : string) :
  forall s, String.prefix (a +:+ b) s = true -> String.prefix a s = true.
Proof.
  induction a as [| ch a IH]; intros s Hp; [now destruct s |].
  destruct s as [| c s]; [discriminate Hp |].
  change (String ch a +:+ b) with (String ch (a +:+ b)) in Hp.
  cbn [String.prefix] in *. destruct (ascii_dec ch c); [now apply IH | exact Hp].
Qed.

Lemma contains_app_l (a b : string) :
  forall s, contains (a +:+ b) s = true -> contains a s = true.
Proof.
  induction s as [| c s IH]; cbn [contains]; intros H;
    apply orb_true_iff in H as [H | H].
  - apply prefix_app_l in H. now rewrite H.
  - discriminate H.
  - apply prefix_app_l in H. now rewrite H.
  - rewrite (IH H). apply orb_true_r.
Qed.

Lemma stamp_loop_lookup (page_width : Q) (stamps : list string) :
  forall y_offset k r path,
    stamp_loop page_width y_offset stamps !! k = Some (r, path) ->
    stamps !! k = Some path
    /\ (x0 r == page_width - 150 /\ x1 r == page_width - 20
        /\ y0 r == y_offset + 80 * inject_Z (Z.of_nat k)
        /\ y1 r == y_offset + 80 * inject_Z (Z.of_nat k) + 70)%Q.
Proof.
  induction stamps as [| p stamps IH]; intros y_offset k r path Hk;
    [inversion Hk |].
  destruct k as [| k]; cbn [stamp_loop] in Hk.
  - injection Hk as <- <-. split; [reflexivity |]. cbn [x0 y0 x1 y1].
    change (inject_Z (Z.of_nat 0)) with 0%Q. unfold stamp_height.
    repeat split; lra.
  - apply IH in Hk as (Hp & Hx0 & Hx1 & Hy0 & Hy1). split; [exact Hp |].
    rewrite Nat2Z.inj_succ, <- Z.add_1_r, inject_Z_plus.
    change (inject_Z 1) with 1%Q. unfold stamp_height in *.
    repeat split; lra.
Qed.

Lemma stamp_loop_length (page_width : Q) (stamps : list string) :
  forall y_offset,
    length (stamp_loop page_width y_offset stamps) = length stamps.
Proof.
  induction stamps as [| p stamps IH]; intros y_offset;
    cbn [stamp_loop length]; [reflexivity |]. now rewrite IH.
Qed.

Lemma stamp_if_length (trigger : bool) (stamp_images : gmap string string)
    (key : string) :
  (length (stamp_if trigger stamp_images key) <= 1)%nat.
Proof.
  unfold stamp_if. destruct trigger; [| cbn; lia].
  destruct (stamp_asset stamp_images key); cbn; lia.
Qed.

Lemma stamps_to_insert_table (stamp_images : gmap string string) (t : string) :
  stamps_to_insert stamp_images t
  = flat_map (fun rule => stamp_if (contains (fst rule) t) stamp_images (snd rule))
             stamp_table.
Proof.
  unfold stamps_to_insert, stamp_table, gift_trigger_phrases, any_in.
  cbn [flat_map existsb fst snd]. rewrite orb_false_r, app_nil_r.
  assert (Hpic : contains "pic kd" t || contains "pic " t = contains "pic " t).
  { destruct (contains "pic kd" t) eqn:Hkd; [| reflexivity].
    cbn [orb]. symmetry. now apply (contains_app_l "pic " "kd"). }
  now rewrite Hpic.
Qed.

(** X12.  The stamps of a page are stacked from y = 50 downward in the
    fixed column between page width - 150 and page width - 20: the k-th
    stamp spans y = 50 + 80k to 120 + 80k, so two stamps never overlap
    and are at least 10pt apart; a page never gets more than nine
    stamps, and none with [add_stamps] off. *)
Theorem stamps_stacked_without_overlap
    (opts : Options) (stamp_images : gmap string string) (page_width : Q)
    (page_text : string) :
  (length (stamps_section opts stamp_images page_width page_text) <= 9)%nat
  /\ (add_stamps opts = false ->
      stamps_section opts stamp_images page_width page_text = [])
  /\ (forall k r path,
         stamps_section opts stamp_images page_width page_text !! k
         = Some (r, path) ->
         (x0 r == page_width - 150 /\ x1 r == page_width - 20
          /\ y0 r == 50 + 80 * inject_Z (Z.of_nat k)
          /\ y1 r == 120 + 80 * inject_Z (Z.of_nat k))%Q)
  /\ (forall j k r r' path path',
         (j < k)%nat ->
         stamps_section opts stamp_images page_width page_text !! j
         = Some (r, path) ->
         stamps_section opts stamp_images page_width page_text !! k
         = Some (r', path') ->
         (y1 r + 10 <= y0 r')%Q).
Proof.
  assert (Hpos : forall k r path,
             stamps_section opts stamp_images page_width page_text !! k
             = Some (r, path) ->
             (x0 r == page_width - 150 /\ x1 r == page_width - 20
              /\ y0 r == 50 + 80 * inject_Z (Z.of_nat k)
              /\ y1 r == 120 + 80 * inject_Z (Z.of_nat k))%Q).
  { unfold stamps_section. intros k r path Hk.
    destruct (add_stamps opts); [| inversion Hk].
    apply stamp_loop_lookup in Hk as (_ & Hx0 & Hx1 & Hy0 & Hy1).
    repeat split; lra. }
  split; [| split; [| split; [exact Hpos |]]].
  - unfold stamps_section. destruct (add_stamps opts); [| cbn; lia].
    rewrite stamp_loop_length. unfold stamps_to_insert. rewrite !length_app.
    repeat match goal with
           | |- context [length (stamp_if ?c ?i ?k)] =>
               let H := fresh in
               pose proof (stamp_if_length c i k) as H;
               generalize dependent (length (stamp_if c i k)); intros
           end.
    lia.
  - unfold stamps_section. now intros ->.
  - intros j k r r' path path' Hjk Hj Hk.
    apply Hpos in Hj as (_ & _ & _ & Hy1). apply Hpos in Hk as (_ & _ & Hy0 & _).
    rewrite Hy1, Hy0.
    assert (Hle : (inject_Z (Z.of_nat j) + 1 <= inject_Z (Z.of_nat k))%Q).
    { change 1%Q with (inject_Z 1). rewrite <- inject_Z_plus, <- Zle_Qle. lia. }
    lra.
Qed.

Lemma stamps_stacked_without_overlap_witness :
  stamps_section
    (mkOptions true true true true true true false true true)
    sample_stamp_images 612 "Gift message: hi"
  = [].
Proof.
  destruct (stamps_stacked_without_overlap
              (mkOptions true true true true true true false true true)
              sample_stamp_images 612 "Gift message: hi") as (_ & H & _).
  now apply H.
Defined.

(** X13.  The stamps chosen for a page are those of a fixed table of
    (trigger substring, asset key) rules read in order against the
    lower-cased page text: a rule contributes its asset's path when its
    trigger occurs in the text and the key has a non-empty path, and
    nothing otherwise.  The separate "pic kd" test adds nothing to the
    "pic " rule.  So the paths come in table order, only from keys with
    an asset, and there is none when no asset is configured. *)
Theorem stamps_follow_trigger_table
    (opts : Options) (stamp_images : gmap string string) (page_width : Q)
    (page_text : string) :
  add_stamps opts = true ->
  map snd (stamps_section opts stamp_images page_width page_text)
  = flat_map (fun rule =>
                stamp_if (contains (fst rule) (lower page_text))
                         stamp_images (snd rule))
             stamp_table
  /\ map snd (stamps_section opts stamp_images page_width page_text)
     `sublist_of` omap (stamp_asset stamp_images) stamp_keys
  /\ (stamp_images = ∅ ->
      stamps_section opts stamp_images page_width page_text = []).
Proof.
  intros Hopt. unfold stamps_section. rewrite Hopt.
  assert (Hsnd : forall w y l, map snd (stamp_loop w y l) = l).
  { intros w y l. revert y. induction l as [| p l IH]; intros y;
      cbn [stamp_loop map snd]; [reflexivity |]. now rewrite IH. }
  rewrite Hsnd, stamps_to_insert_table. split; [reflexivity |]. split.
  - change stamp_keys with (map snd stamp_table).
    induction stamp_table as [| [trigger key] table IH];
      cbn [flat_map map omap list_omap fst snd]; [constructor |].
    unfold stamp_if at 1.
    destruct (contains trigger (lower page_text)),
      (stamp_asset stamp_images key); cbn [app];
      first [ exact IH | now apply sublist_skip | now apply sublist_cons ].
  - intros ->.
    assert (Hnone : forall c k, stamp_if c ∅ k = []).
    { intros c k. unfold stamp_if, stamp_asset. rewrite lookup_empty.
      now destruct c. }
    rewrite <- stamps_to_insert_table. unfold stamps_to_insert.
    rewrite !Hnone. reflexivity.
Qed.

Lemma stamps_follow_trigger_table_witness :
  map snd
    (stamps_section (mkOptions true true true true true true true true true)
       sample_stamp_images 612 "PIC KD order, Gift Message inside, FedEx")
  = ["gift_stamp.png"; "pic.png"].
Proof.
  destruct (stamps_follow_trigger_table
              (mkOptions true true true true true true true true true)
              sample_stamp_images 612 "PIC KD order, Gift Message inside, FedEx"
              eq_refl) as (H & _).
  rewrite H. reflexivity.
Defined.

(** ** The highlight of a gift snippet *)

Section SnippetHighlightProps.
Variable rect_union : Rect -> Rect -> Rect.
Variable rect_bool : Rect -> bool.
Variable intersects : Rect -> Rect -> bool.




End SnippetHighlightProps.


(** ** The file list of the window *)

Lemma browse_loop_spec (files : list string) :
  forall current,
    exists added,
      fst (browse_loop files current) = current ++ added
      /\ (NoDup current -> NoDup (current ++ added))
      /\ (length (current ++ added) <= 20 `max` length current)%nat
      /\ (forall f, f ∈ added -> f ∈ files)
      /\ (snd (browse_loop files current) = false ->
          forall f, f ∈ files -> f ∈ current ++ added)
      /\ (snd (browse_loop files current) = true ->
          (20 <= length (current ++ added))%nat).
Proof.
  induction files as [| f files IH]; intros current; cbn [browse_loop].
  - exists []. cbn [fst snd]. rewrite app_nil_r.
    split; [reflexivity |]. split; [auto |]. split; [lia |].
    split; [intros f Hf; inversion Hf |].
    split; [intros _ f Hf; inversion Hf | discriminate].
  - destruct (Nat.leb_spec 20 (length current)) as [Hfull | Hroom].
    + exists []. cbn [fst snd]. rewrite app_nil_r.
      split; [reflexivity |]. split; [auto |]. split; [lia |].
      split; [intros g Hg; inversion Hg |]. split; [discriminate | auto].
    + destruct (decide (f ∈ current)) as [Hin | Hnin].
      * destruct (IH current) as (added & Hres & Hnd & Hlen & Hfrom & Hall & Hwarn).
        exists added. split; [exact Hres |]. split; [exact Hnd |].
        split; [exact Hlen |]. split; [intros g Hg; right; now apply Hfrom |].
        split; [| exact Hwarn].
        intros Hw g Hg. apply elem_of_cons in Hg as [-> | Hg].
        -- apply elem_of_app. now left.
        -- now apply Hall.
      * destruct (IH (current ++ [f]))
          as (added & Hres & Hnd & Hlen & Hfrom & Hall & Hwarn).
        exists (f :: added).
        replace (current ++ f :: added) with ((current ++ [f]) ++ added)
          by now rewrite <- app_assoc.
        split; [exact Hres |]. split.
        { intros Hc. apply Hnd. apply NoDup_app. split; [exact Hc |].
          split; [| apply NoDup_singleton].
          intros g Hg Hg'. apply list_elem_of_singleton in Hg'. now subst. }
        split; [rewrite !length_app in *; cbn [length] in *; lia |].
        split; [intros g Hg; apply elem_of_cons in Hg as [-> | Hg];
                [left | right; now apply Hfrom] |].
        split; [| exact Hwarn].
        intros Hw g Hg. apply elem_of_cons in Hg as [-> | Hg].
        -- apply elem_of_app. left. apply elem_of_app. right. left.
        -- now apply Hall.
Qed.

(** X15.  [browse_pdfs] only appends to the list box: the files already
    listed stay in front, in order; a list without duplicates stays
    without duplicates; a list of at most 20 files never grows beyond 20;
    every file added was picked in the dialog; and a picked file is left
    out only when the limit warning is shown, in which case the list
    holds at least 20 files. *)
Theorem browse_pdfs_caps_and_dedups (files listbox : list string) :
  exists added,
    fst (browse_pdfs files listbox) = listbox ++ added
    /\ (NoDup listbox -> NoDup (fst (browse_pdfs files listbox)))
    /\ ((length listbox <= 20)%nat ->
        (length (fst (browse_pdfs files listbox)) <= 20)%nat)
    /\ (forall f, f ∈ added -> f ∈ files)
    /\ (snd (browse_pdfs files listbox) = false ->
        forall f, f ∈ files -> f ∈ fst (browse_pdfs files listbox))
    /\ (snd (browse_pdfs files listbox) = true ->
        (20 <= length (fst (browse_pdfs files listbox)))%nat).
Proof.
  assert (Heq : browse_pdfs files listbox = browse_loop files listbox)
    by (now destruct files).
  rewrite Heq.
  destruct (browse_loop_spec files listbox)
    as (added & Hres & Hnd & Hlen & Hfrom & Hall & Hwarn).
  exists added. rewrite Hres. split; [reflexivity |]. split; [exact Hnd |].
  split; [intros Hl; lia |]. split; [exact Hfrom |]. now split.
Qed.

Lemma browse_pdfs_caps_and_dedups_witness :
  NoDup (fst (browse_pdfs ["b.pdf"; "a.pdf"; "c.pdf"] ["a.pdf"])).
Proof.
  destruct (browse_pdfs_caps_and_dedups ["b.pdf"; "a.pdf"; "c.pdf"] ["a.pdf"])
    as (added & _ & Hnd & _).
  apply Hnd. apply NoDup_singleton.
Defined.

(** ** What the quantity section adds *)

Lemma quantity_line_adds (l : Line) (annots : list Annot) :
  exists new,
    quantity_line l annots = ok (annots ++ new)
    /\ (length new <= 1)%nat
    /\ (contains "quantity:" (lower (line_text l)) = false -> new = [])
    /\ Forall (fun a =>
                 annot_stroke a = yellow_color
                 /\ exists w v,
                      w ∈ word_list l /\ annot_rect a = word_rect w
                      /\ int (wtext w) = ok v /\ (2 <= v)%Z)
              new.
Proof.
  assert (Hnil : exists new,
             ok annots = ok (annots ++ new) /\ (length new <= 1)%nat
             /\ (contains "quantity:" (lower (line_text l)) = false -> new = [])
             /\ Forall (fun a =>
                          annot_stroke a = yellow_color
                          /\ exists w v,
                               w ∈ word_list l /\ annot_rect a = word_rect w
                               /\ int (wtext w) = ok v /\ (2 <= v)%Z)
                       new).
  { exists []. rewrite app_nil_r. split; [reflexivity |].
    split; [cbn; lia |]. split; [reflexivity | constructor]. }
  unfold quantity_line.
  destruct (contains "quantity:" (lower (line_text l))) eqn:Hq; [| exact Hnil].
  destruct (find_quantity_index 0 (word_list l)) as [q |]; [| exact Hnil].
  destruct (q + 1 <? length (word_list l))%nat eqn:Hlen; [| exact Hnil].
  apply Nat.ltb_lt in Hlen.
  destruct (lookup_lt_is_Some_2 (word_list l) (q + 1)%nat Hlen) as [nxt Hnxt].
  unfold index. rewrite Hnxt. cbn [bind ok].
  destruct (int (wtext nxt)) as [e | v] eqn:Hint; cbn [bind try_except catch_all];
    [exact Hnil |].
  destruct (2 <=? v)%Z eqn:Hv; [| exact Hnil].
  exists [mkAnnot (word_rect nxt) yellow_color]. split; [reflexivity |].
  split; [cbn; lia |]. split; [discriminate |].
  constructor; [| constructor]. cbn [annot_stroke annot_rect].
  split; [reflexivity |]. exists nxt, v.
  split; [now apply (list_elem_of_lookup_2 _ (q + 1)%nat) |].
  split; [reflexivity |]. split; [exact Hint | now apply Z.leb_le].
Qed.

(** X16.  The quantity section only appends to the page's annotations:
    the annotations already there are kept, every one added is a yellow
    highlight of the box of a word of the page that reads as an integer
    of at least 2, there are no more of them than lines containing
    "quantity:", and none when [highlight_quantity] is off. *)
Theorem quantity_section_only_appends
    (opts : Options) (lines : list Line) (annots : list Annot) :
  exists new,
    quantity_section opts lines annots = ok (annots ++ new)
    /\ (length new
        <= length (List.filter
                     (fun l => contains "quantity:" (lower (line_text l)))
                     lines))%nat
    /\ Forall (fun a =>
                 annot_stroke a = yellow_color
                 /\ exists l w v,
                      l ∈ lines /\ w ∈ word_list l
                      /\ annot_rect a = word_rect w
                      /\ int (wtext w) = ok v /\ (2 <= v)%Z)
              new
    /\ (highlight_quantity opts = false -> new = []).
Proof.
  unfold quantity_section. destruct (highlight_quantity opts).
  - revert annots. induction lines as [| l lines IH]; intros annots;
      cbn [for_each List.filter].
    + exists []. rewrite app_nil_r. split; [reflexivity |].
      split; [cbn; lia |]. split; [constructor | discriminate].
    + destruct (quantity_line_adds l annots) as (new1 & -> & Hlen1 & Hnil1 & Hall1).
      cbn [bind ok].
      destruct (IH (annots ++ new1)) as (new2 & -> & Hlen2 & Hall2 & _).
      exists (new1 ++ new2). split; [now rewrite app_assoc |]. split; [| split].
      * rewrite length_app.
        destruct (contains "quantity:" (lower (line_text l))) eqn:Hq.
        -- cbn [length]. lia.
        -- rewrite (Hnil1 eq_refl). cbn [length]. lia.
      * apply Forall_app. split.
        -- eapply Forall_impl; [exact Hall1 |]. cbn beta.
           intros a (Hy & w & v & Hw & Hr & Hi & Hv). split; [exact Hy |].
           exists l, w, v. split; [left |]. now repeat split.
        -- eapply Forall_impl; [exact Hall2 |]. cbn beta.
           intros a (Hy & l' & w & v & Hl' & Hrest). split; [exact Hy |].
           exists l', w, v. split; [now right | exact Hrest].
      * discriminate.
  - exists []. rewrite app_nil_r. split; [reflexivity |].
    split; [cbn; lia |]. split; [constructor | reflexivity].
Qed.

Lemma quantity_section_only_appends_witness :
  exists new,
    quantity_section (mkOptions true true true true true false true true true)
      [sample_line "Quantity: 3" ["Quantity:"; "3"]] []
    = ok ([] ++ new)
    /\ new = [].
Proof.
  destruct (quantity_section_only_appends
              (mkOptions true true true true true false true true true)
              [sample_line "Quantity: 3" ["Quantity:"; "3"]] [])
    as (new & Hrun & _ & _ & Hoff).
  exists new. split; [exact Hrun | now apply Hoff].
Defined.

(** ** Pages without a custom item *)

Section NoCustom.
Variable opts : Options.
Variable page_index : nat.
Variable lines : list Line.
Hypothesis no_custom :
  Forall (fun l => is_descriptor l = true -> has_custom l = false) lines.

Lemma visited_no_custom (o : Sink) (s : ScanState) :
  visited opts page_index lines o s ->
  current_item_has_custom s = false /\ sink s = o /\ blocks s = [].
Proof.
  induction 1 as [| s l Hvis (Hflag & Hsink & Hblocks) Hl].
  - now cbn.
  - assert (Hopen : opens_block (current_item_has_custom s) l = false).
    { rewrite opens_block_eq, update_custom_descriptor, Hflag.
      destruct (is_descriptor l) eqn:Hd; [| apply andb_false_r].
      rewrite Forall_forall in no_custom.
      rewrite (no_custom l (list_elem_of_lookup_2 _ _ _ Hl) Hd).
      apply andb_false_r. }
    rewrite (scan_body_pass opts page_index lines s l Hopen).
    cbn [current_item_has_custom sink blocks].
    split; [| now split].
    rewrite update_custom_descriptor, Hflag.
    destruct (is_descriptor l) eqn:Hd; [| reflexivity].
    rewrite Forall_forall in no_custom.
    apply (no_custom l (list_elem_of_lookup_2 _ _ _ Hl) Hd).
Qed.

(** X17.  On a page where no item-descriptor line contains "custom"
    (in particular a page without descriptor lines), the personalization
    scan opens no block and writes nothing, however many
    "personalization:" lines the page has. *)
Theorem personalization_needs_custom_item (o : Sink) :
  sink (personalization_scan opts page_index lines o) = o
  /\ blocks (personalization_scan opts page_index lines o) = [].
Proof.
  destruct (personalization_scan_done opts page_index lines o) as [Hvis _].
  now apply visited_no_custom in Hvis as (_ & Hsink & Hblocks).
Qed.
End NoCustom.

Lemma personalization_needs_custom_item_witness :
  sink (personalization_scan sample_opts 1
          [ sample_line "Plain ring, word or message: none" [];
            sample_line "Personalization: none" ["Personalization:"; "none"] ]
          sample_sink)
  = sample_sink
  /\ blocks (personalization_scan sample_opts 1
               [ sample_line "Plain ring, word or message: none" [];
                 sample_line "Personalization: none" ["Personalization:"; "none"] ]
               sample_sink)
     = [].
Proof.
  apply (personalization_needs_custom_item sample_opts 1
           [ sample_line "Plain ring, word or message: none" [];
             sample_line "Personalization: none" ["Personalization:"; "none"] ]).
  repeat constructor; discriminate.
Defined.

(** ** Pages without a gift message *)

Lemma capture_lines_no_trigger (lines : list string) :
  Forall (fun ln => re_search_ignorecase gift_trigger ln = false) lines ->
  capture_lines lines = [].
Proof.
  intros H. unfold capture_lines. rewrite <- (app_nil_r lines).
  now rewrite capture_loop_skip.
Qed.

(** X18.  A trigger instance whose gathered lines hold no "gift message"
    line captures the empty text, and a page all of whose instances are
    such records no gift message: the gift document is left as it
    was. *)
Theorem gift_section_needs_trigger_line
    (opts : Options) (page_index : nat) (hits : list (list string))
    (st : GiftState) :
  Forall (Forall (fun ln => re_search_ignorecase gift_trigger ln = false)) hits ->
  Forall (fun lines => final_text lines = "") hits
  /\ gift_doc (gift_section opts page_index hits st) = gift_doc st.
Proof.
  intros Hhits.
  assert (Hempty : Forall (fun lines => final_text lines = "") hits).
  { eapply Forall_impl; [exact Hhits |]. cbn beta. intros lines Hl.
    unfold final_text. now rewrite (capture_lines_no_trigger lines Hl). }
  split; [exact Hempty |].
  unfold gift_section.
  set (st0 := mkGiftState _ (gift_doc st)).
  assert (Hgen : forall ext s,
             gift_doc (gift_instances ext page_index hits s) = gift_doc s).
  { intros ext. unfold gift_instances.
    induction Hempty as [| lines hits Hl _ IH]; intros s; cbn [fold_left];
      [reflexivity |].
    inversion Hhits as [| ? ? _ Hhits']; subst.
    rewrite (IH Hhits'). unfold record_gift_message. rewrite Hl.
    cbn [truthy andb]. destruct (gift_doc s) eqn:Hs; exact Hs. }
  destruct (highlight_gift_snippet opts || extract_text opts);
    [now rewrite Hgen | reflexivity].
Qed.

Lemma gift_section_needs_trigger_line_witness :
  gift_doc (gift_section sample_opts 1 [["Order 12"; "Ship to"]]
              (mkGiftState ∅ (Some [])))
  = Some [].
Proof.
  destruct (gift_section_needs_trigger_line sample_opts 1
              [["Order 12"; "Ship to"]] (mkGiftState ∅ (Some []))) as (_ & H).
  - repeat constructor.
  - exact H.
Defined.

(** ** Placements stay in their cells *)

Lemma placement_of_page (doc_in : list SrcPage) (i : nat) (target_rect : Rect)
    (pl : Placement) :
  pl ∈ placement_of doc_in i target_rect ->
  exists p, doc_in !! src_index pl = Some p.
Proof.
  intros Hin. pose proof (placement_of_src_index doc_in i target_rect) as Hsrc.
  rewrite Forall_forall in Hsrc. rewrite (Hsrc pl Hin).
  unfold placement_of in Hin.
  destruct (doc_in !! i) as [p |]; [now exists p | now apply elem_of_nil in Hin].
Qed.

Lemma placed_in_inside (r c in_rect : Rect) :
  placed_in r c in_rect -> inside_within tol r c.
Proof.
  intros (Hy & Hx0 & Hx1 & Hy1 & _). unfold inside_within, tol in *.
  repeat split; lra.
Qed.

Lemma apart_inside_within (e : Q) (r r' c c' : Rect) :
  inside_within e r c -> inside_within e r' c' -> apart c c' ->
  apart_within (2 * e) r r'.
Proof.
  unfold inside_within, apart, apart_within.
  intros (? & ? & ? & ?) (? & ? & ? & ?) [Hc | [Hc | [Hc | Hc]]];
    [left | right; left | right; right; left | right; right; right]; lra.
Qed.

Lemma inside_within_trans (e : Q) (r c s : Rect) :
  inside_within e r c -> inside c s -> inside_within e r s.
Proof.
  unfold inside_within, inside.
  intros (? & ? & ? & ?) (? & ? & ? & ?). repeat split; lra.
Qed.

Lemma grid_cells_apart (i j : nat) :
  (i < 6)%nat -> (j < 6)%nat -> i <> j ->
  apart (grid_cell i) (grid_cell j).
Proof.
  intros Hi Hj Hne.
  do 6 (destruct i as [| i]; [
    do 6 (destruct j as [| j]; [
      first [ congruence
            | left; vm_compute; discriminate
            | right; left; vm_compute; discriminate
            | right; right; left; vm_compute; discriminate
            | right; right; right; vm_compute; discriminate ] |]); lia |]).
  lia.
Qed.

Lemma grid_cells_on_sheet (i : nat) :
  (i < 6)%nat -> inside (grid_cell i) (mkRect 0 0 595 842).
Proof.
  intros Hi.
  do 6 (destruct i as [| i];
        [repeat split; vm_compute; discriminate |]).
  lia.
Qed.

(** X19.  On the thumbnail sheets every placed page lies in the cell of
    its position, to within a billionth of a point: page 6k + 1 + i of
    sheet k in cell i of the grid of 3 columns and 2 rows.  The six
    cells lie on the 595 x 842 sheet and no two of them overlap, so a
    page leaves the sheet by no more than that distance and two pages of
    a sheet overlap by no more than twice that distance. *)
Theorem thumbnails_stay_in_their_cells (doc_in : list SrcPage) :
  Forall positive_size doc_in ->
  (2 <= length doc_in)%nat ->
  exists sheets,
    create_six_page_thumbnail_pdf doc_in = ok (Some sheets)
    /\ (forall k sheet pl,
           sheets !! k = Some sheet -> pl ∈ sheet ->
           exists i,
             (i < 6)%nat /\ src_index pl = (6 * k + 1 + i)%nat
             /\ inside_within tol (show_rect pl) (grid_cell i))
    /\ (forall i j, (i < 6)%nat -> (j < 6)%nat -> i <> j ->
                    apart (grid_cell i) (grid_cell j))
    /\ (forall i, (i < 6)%nat -> inside (grid_cell i) (mkRect 0 0 595 842))
    /\ (forall k sheet pl,
           sheets !! k = Some sheet -> pl ∈ sheet ->
           inside_within tol (show_rect pl) (mkRect 0 0 595 842))
    /\ (forall k sheet pl pl',
           sheets !! k = Some sheet -> pl ∈ sheet -> pl' ∈ sheet ->
           src_index pl <> src_index pl' ->
           apart_within (2 * tol) (show_rect pl) (show_rect pl')).
Proof.
  intros Hpos Hn.
  assert (Hnd : Forall (fun p => nondegenerate p = true) doc_in)
    by (eapply Forall_impl; [exact Hpos | apply positive_size_nondegenerate]).
  rewrite (thumbnail_sheets doc_in Hnd Hn). eexists. split; [reflexivity |].
  assert (Hcell : forall k sheet pl,
             map (fun s => thumb_sheet doc_in (s / 6))
                 (range 0 (length doc_in - 1) 6) !! k = Some sheet ->
             pl ∈ sheet ->
             exists i,
               (i < 6)%nat /\ src_index pl = (6 * k + 1 + i)%nat
               /\ inside_within tol (show_rect pl) (grid_cell i)).
  { intros k sheet pl Hk Hpl.
    apply (thumbnail_sheets_lookup doc_in) in Hk as [_ ->].
    destruct (thumb_sheet_elem _ _ _ Hpl) as (i0 & _ & Hpl0).
    destruct (placement_of_page _ _ _ _ Hpl0) as [p Hp].
    rewrite Forall_forall in Hpos.
    pose proof (Hpos p (list_elem_of_lookup_2 _ _ _ Hp)) as Hpp.
    destruct (thumb_sheet_placed doc_in k pl p Hpl Hp Hpp)
      as (i & Hi & Hsrc & Hin).
    exists i. split; [exact Hi |]. split; [exact Hsrc |].
    now apply placed_in_inside in Hin. }
  split; [exact Hcell |]. split; [apply grid_cells_apart |].
  split; [apply grid_cells_on_sheet |]. split.
  - intros k sheet pl Hk Hpl.
    destruct (Hcell k sheet pl Hk Hpl) as (i & Hi & _ & Hin).
    apply (inside_within_trans _ _ _ _ Hin). now apply grid_cells_on_sheet.
  - intros k sheet pl pl' Hk Hpl Hpl' Hne.
    destruct (Hcell k sheet pl Hk Hpl) as (i & Hi & Hsrc & Hin).
    destruct (Hcell k sheet pl' Hk Hpl') as (j & Hj & Hsrc' & Hin').
    apply (apart_inside_within _ _ _ _ _ Hin Hin').
    apply grid_cells_apart; [lia | lia |]. intros ->. congruence.
Qed.

Lemma thumbnails_stay_in_their_cells_witness :
  exists sheets,
    create_six_page_thumbnail_pdf [sample_src; sample_src; sample_src]
    = ok (Some sheets)
    /\ length sheets = 1%nat.
Proof.
  assert (Hpos : Forall positive_size [sample_src; sample_src; sample_src])
    by (repeat constructor).
  destruct (thumbnails_stay_in_their_cells [sample_src; sample_src; sample_src]
              Hpos ltac:(cbn; lia)) as (sheets & Hrun & _).
  exists sheets. split; [exact Hrun |].
  vm_compute in Hrun. injection Hrun as <-. reflexivity.
Defined.

(** X20.  On the 2-up sheets page 2k of sheet k lies in the left half
    (0, 0, 421, 595) of the 842 x 595 sheet and page 2k + 1 in the right
    half (421, 0, 842, 595), to within a billionth of a point; the
    halves meet at x = 421 without overlapping, so a page leaves the
    sheet by no more than that distance and the two pages of a sheet
    overlap by no more than twice that distance. *)
Theorem two_up_pages_stay_in_their_halves (doc_in : list SrcPage) :
  Forall positive_size doc_in ->
  (1 <= length doc_in)%nat ->
  exists sheets,
    create_two_up_pdf doc_in = ok (Some sheets)
    /\ (forall k sheet pl,
           sheets !! k = Some sheet -> pl ∈ sheet ->
           (src_index pl = (2 * k)%nat
            /\ inside_within tol (show_rect pl) (mkRect 0 0 421 595))
           \/ (src_index pl = (2 * k + 1)%nat
               /\ inside_within tol (show_rect pl) (mkRect 421 0 842 595)))
    /\ apart (mkRect 0 0 421 595) (mkRect 421 0 842 595)
    /\ (forall k sheet pl,
           sheets !! k = Some sheet -> pl ∈ sheet ->
           inside_within tol (show_rect pl) (mkRect 0 0 842 595))
    /\ (forall k sheet pl pl',
           sheets !! k = Some sheet -> pl ∈ sheet -> pl' ∈ sheet ->
           src_index pl <> src_index pl' ->
           apart_within (2 * tol) (show_rect pl) (show_rect pl')).
Proof.
  intros Hpos Hn.
  assert (Hnd : Forall (fun p => nondegenerate p = true) doc_in)
    by (eapply Forall_impl; [exact Hpos | apply positive_size_nondegenerate]).
  rewrite (two_up_sheets doc_in Hnd Hn). eexists. split; [reflexivity |].
  assert (Hhalves : apart (mkRect 0 0 421 595) (mkRect 421 0 842 595))
    by (left; vm_compute; discriminate).
  assert (Hcell : forall k sheet pl,
             map (fun i => placement_of doc_in i left_rect
                           ++ placement_of doc_in (i + 1) right_rect)
                 (range 0 (length doc_in) 2) !! k = Some sheet ->
             pl ∈ sheet ->
             (src_index pl = (2 * k)%nat
              /\ inside_within tol (show_rect pl) (mkRect 0 0 421 595))
             \/ (src_index pl = (2 * k + 1)%nat
                 /\ inside_within tol (show_rect pl) (mkRect 421 0 842 595))).
  { intros k sheet pl Hk Hpl.
    apply (two_up_sheets_lookup doc_in) in Hk as [_ ->].
    assert (Hp : exists p, doc_in !! src_index pl = Some p).
    { unfold two_up_sheet in Hpl. apply elem_of_app in Hpl as [H | H];
        exact (placement_of_page _ _ _ _ H). }
    destruct Hp as [p Hp]. rewrite Forall_forall in Hpos.
    pose proof (Hpos p (list_elem_of_lookup_2 _ _ _ Hp)) as Hpp.
    destruct (two_up_sheet_placed doc_in k pl p Hpl Hp Hpp)
      as [[Hs Hin] | [Hs Hin]]; [left | right];
      (split; [exact Hs | now apply placed_in_inside in Hin]). }
  split; [exact Hcell |]. split; [exact Hhalves |]. split.
  - intros k sheet pl Hk Hpl.
    destruct (Hcell k sheet pl Hk Hpl) as [[_ Hin] | [_ Hin]];
      apply (inside_within_trans _ _ _ _ Hin);
      repeat split; vm_compute; discriminate.
  - intros k sheet pl pl' Hk Hpl Hpl' Hne.
    destruct (Hcell k sheet pl Hk Hpl) as [[Hs Hin] | [Hs Hin]],
      (Hcell k sheet pl' Hk Hpl') as [[Hs' Hin'] | [Hs' Hin']];
      try congruence.
    + now apply (apart_inside_within _ _ _ _ _ Hin Hin').
    + apply (apart_inside_within _ _ _ _ _ Hin Hin'). right. left.
      vm_compute. discriminate.
Qed.

Lemma two_up_pages_stay_in_their_halves_witness :
  exists sheets,
    create_two_up_pdf [sample_src; sample_src; sample_src] = ok (Some sheets)
    /\ length sheets = 2%nat.
Proof.
  assert (Hpos : Forall positive_size [sample_src; sample_src; sample_src])
    by (repeat constructor).
  destruct (two_up_pages_stay_in_their_halves [sample_src; sample_src; sample_src]
              Hpos ltac:(cbn; lia)) as (sheets & Hrun & _).
  exists sheets. split; [exact Hrun |].
  vm_compute in Hrun. injection Hrun as <-. reflexivity.
Defined.

(** X22.  The distance cannot be dropped from these statements: for a
    source whose two content pages measure 320 x 600, both of positive
    size, the first thumbnail starts left of its cell and of the sheet,
    and the two thumbnails of the sheet overlap. *)
Theorem rounding_moves_pages_off_their_cells :
  exists doc_in sheets pl pl',
    Forall positive_size doc_in
    /\ create_six_page_thumbnail_pdf doc_in = ok (Some sheets)
    /\ sheets = [[pl; pl']]
    /\ (x0 (show_rect pl) < 0)%Q
    /\ ~ inside (show_rect pl) (grid_cell 0)
    /\ ~ apart (show_rect pl) (show_rect pl').
Proof.
  exists [sample_blank_src; mkSrc (mkRect 0 0 320 600) false;
          mkSrc (mkRect 0 0 320 600) false].
  eexists _, _, _. split; [repeat constructor |].
  split; [vm_compute; reflexivity |]. split; [reflexivity |].
  split; [vm_compute; reflexivity |]. split.
  - intros (H & _). vm_compute in H. now apply H.
  - intros [H | [H | [H | H]]]; vm_compute in H; now apply H.
Qed.

(** ** From snippet blocks to snippet lines *)

Lemma splitlines_from_single_line (s : string) :
  forall cur rest,
    single_line s = true ->
    splitlines_from cur (s +:+ rest) = splitlines_from (cur +:+ s) rest.
Proof.
  induction s as [| c s IH]; intros cur rest Hs.
  - change ("" +:+ rest) with rest. now rewrite string_app_empty_r.
  - cbn [single_line] in Hs. apply andb_true_iff in Hs as [Hc Hs].
    apply negb_true_iff in Hc.
    change (String c s +:+ rest) with (String c (s +:+ rest)).
    cbn [splitlines_from]. rewrite Hc, IH by exact Hs.
    f_equal. rewrite string_app_assoc. reflexivity.
Qed.

Lemma splitlines_from_newline (cur rest : string) :
  splitlines_from cur (newline +:+ rest) = cur :: splitlines_from "" rest.
Proof.
  change (newline +:+ rest) with (String line_feed rest).
  cbn [splitlines_from]. change (is_linebreak line_feed) with true.
  cbn match. destruct rest as [| d rest]; [reflexivity |].
  change (Ascii.eqb line_feed carriage_return) with false. reflexivity.
Qed.

Lemma splitlines_join (texts : list string) :
  Forall (fun t => t <> "" /\ single_line t = true) texts ->
  splitlines (String.concat newline texts) = texts.
Proof.
  unfold splitlines.
  induction 1 as [| x texts [Hne Hs] Hrest IH]; [reflexivity |].
  destruct texts as [| y texts].
  - cbn [String.concat]. rewrite <- (string_app_empty_r x) at 1.
    rewrite splitlines_from_single_line by exact Hs.
    cbn [splitlines_from]. change ("" +:+ x) with x. now destruct x.
  - change (String.concat newline (x :: y :: texts))
      with (x +:+ (newline +:+ String.concat newline (y :: texts))).
    rewrite splitlines_from_single_line by exact Hs.
    rewrite splitlines_from_newline. change ("" +:+ x) with x.
    now rewrite IH.
Qed.

(** X21.  When every block gathered for a trigger instance has a
    non-empty text without line break, joining the texts with newlines
    and splitting the result into lines gives back the block texts, one
    line per block and in block order: the capture then scans exactly
    these texts.  Without any block there is no line. *)
Theorem snippet_lines_are_block_texts (snippet_blocks : list (string * Rect)) :
  Forall (fun b => fst b <> "" /\ single_line (fst b) = true) snippet_blocks ->
  snippet_lines snippet_blocks = map fst snippet_blocks
  /\ capture_lines (snippet_lines snippet_blocks)
     = capture_lines (map fst snippet_blocks)
  /\ snippet_lines [] = [].
Proof.
  intros Hall.
  assert (Heq : snippet_lines snippet_blocks = map fst snippet_blocks).
  { change (snippet_lines snippet_blocks)
      with (splitlines (String.concat newline (map fst snippet_blocks))).
    apply splitlines_join.
    change (map ?f ?l) with (f <$> l). apply Forall_fmap.
    eapply Forall_impl; [exact Hall |]. now cbn. }
  split; [exact Heq |]. split; [now rewrite Heq | reflexivity].
Qed.

Lemma snippet_lines_are_block_texts_witness :
  snippet_lines
    [("Gift message", mkRect 0 20 80 30); ("Happy birthday", mkRect 0 30 120 40)]
  = ["Gift message"; "Happy birthday"].
Proof.
  destruct (snippet_lines_are_block_texts
              [("Gift message", mkRect 0 20 80 30);
               ("Happy birthday", mkRect 0 30 120 40)]) as (H & _).
  - repeat constructor; discriminate.
  - exact H.
Defined.
